(** * Vivarium / CEAM microsimulation kernel: shallow embedding

    Four source files are embedded:
    - [ceam/state_machine.py]: [State], [TransitionSet], [Transition] and
      [Machine];
    - [src/vivarium/component.py]: [Component.setup_component] and the
      helpers it calls, the lookup table configuration, [name],
      [__repr__] and [__str__];
    - [experiment_runners/opportunistic_screening.py]: the blood
      pressure categories and the two tests;
    - [tests/framework/results/helpers.py]:
      [verify_stratification_added].

    Python exceptions are values of [error] carried by the [result] monad;
    a [pandas.DataFrame] is a value of [frame]; a [numpy] float array is a
    list of [float]. *)

From Stdlib Require Import String Ascii.
From Stdlib Require Import List Bool Arith Lia ZArith QArith Qfield Lqa.
From Stdlib Require Import Permutation.
Import ListNotations.

Set Implicit Arguments.

(** ** Exceptions *)

Inductive error : Type :=
| ValueError (msg : string)
| KeyError (key : string)
| IndexError.

Inductive result (A : Type) : Type :=
| Ok (a : A)
| Err (e : error).

Arguments Ok {A} a.
Arguments Err {A} e.

Definition bind {A B : Type} (r : result A) (k : A -> result B) : result B :=
  match r with
  | Ok a => k a
  | Err e => Err e
  end.

Notation "x <- c ;; k" := (bind c (fun x => k))
  (at level 61, c at next level, right associativity).

(** [for x in xs: acc.append(f x)], stopping at the first exception. *)
Fixpoint mapM {A B : Type} (f : A -> result B) (xs : list A) : result (list B) :=
  match xs with
  | [] => Ok []
  | x :: xs' =>
      y <- f x ;;
      ys <- mapM f xs' ;;
      Ok (y :: ys)
  end.

(** ** numpy float64, idealised

    A finite float is an exact rational: rounding and overflow are left
    out, and zero carries no sign.  The non-finite values are kept, because
    [probabilities /= total] produces them when a total is zero.  Sums and
    quotients that are exact here are rounded in the code (probabilities
    divided by their total can add up to 0.9999999999999999 there), so
    the properties below say what a call that returns has returned, or
    rest on comparisons that rounding does not move. *)

Inductive float : Type :=
| Fin (q : Q)
| PInf
| NInf
| NaN.

Definition Qltb (a b : Q) : bool := negb (Qle_bool b a).

Definition fadd (a b : float) : float :=
  match a, b with
  | NaN, _ | _, NaN => NaN
  | Fin x, Fin y => Fin (x + y)
  | PInf, NInf | NInf, PInf => NaN
  | PInf, _ | _, PInf => PInf
  | NInf, _ | _, NInf => NInf
  end.

Definition fopp (a : float) : float :=
  match a with
  | Fin x => Fin (- x)
  | PInf => NInf
  | NInf => PInf
  | NaN => NaN
  end.

Definition fsub (a b : float) : float := fadd a (fopp b).

Definition fdiv (a b : float) : float :=
  match a, b with
  | NaN, _ | _, NaN => NaN
  | Fin x, Fin y =>
      if Qeq_bool y 0 then
        (if Qltb 0 x then PInf else if Qltb x 0 then NInf else NaN)
      else Fin (x / y)
  | Fin _, _ => Fin 0
  | PInf, Fin y => if Qltb y 0 then NInf else PInf
  | NInf, Fin y => if Qltb y 0 then PInf else NInf
  | _, _ => NaN
  end.

(** [a >= b]; every comparison with NaN is False. *)
Definition fge (a b : float) : bool :=
  match a, b with
  | NaN, _ | _, NaN => false
  | Fin x, Fin y => Qle_bool y x
  | PInf, _ => true
  | _, NInf => true
  | _, _ => false
  end.

(** [a > b]. *)
Definition fgt (a b : float) : bool :=
  match a, b with
  | NaN, _ | _, NaN => false
  | Fin x, Fin y => Qltb y x
  | PInf, PInf => false
  | PInf, _ => true
  | NInf, NInf => false
  | _, NInf => true
  | _, _ => false
  end.

Definition is_finite (a : float) : bool :=
  match a with Fin _ => true | _ => false end.

Definition fone : float := Fin 1.
Definition fzero : float := Fin 0.

Close Scope Q_scope.

(** ** numpy arrays

    A one-dimensional array is a list, a two-dimensional one a list of
    rows (axis 0 runs over the rows).  The operations below are applied to
    arrays whose shapes were checked to agree; numpy's broadcasting of
    length-one arrays is not modelled. *)

Definition array := list float.
Definition matrix := list array.

Definition zip_with {A B C : Type} (f : A -> B -> C) (a : list A) (b : list B)
  : list C :=
  map (fun p => f (fst p) (snd p)) (combine a b).

(** [np.full(n, v)] *)
Definition np_full (n : nat) (v : float) : array := repeat v n.

(** [np.sum(m, axis=0)]: the rows are added up from the first one on. *)
Definition np_sum_axis0 (n : nat) (m : matrix) : array :=
  match m with
  | [] => np_full n fzero
  | r :: m' => fold_left (zip_with fadd) m' r
  end.

(** [m / total]: every row divided elementwise by [total]. *)
Definition np_div_rows (m : matrix) (total : array) : matrix :=
  map (fun r => zip_with fdiv r total) m.

(** [np.any(a > 1)] *)
Definition np_any_gt (a : array) (bound : float) : bool :=
  existsb (fun t => fgt t bound) a.

Fixpoint cumsum_from (acc : array) (m : matrix) : matrix :=
  match m with
  | [] => []
  | r :: m' =>
      let acc' := zip_with fadd acc r in
      acc' :: cumsum_from acc' m'
  end.

(** [m.cumsum(axis=0)] *)
Definition cumsum_axis0 (m : matrix) : matrix :=
  match m with
  | [] => []
  | r :: m' => r :: cumsum_from r m'
  end.

(** [draw >= sums]: [draw] is compared with every row of [sums]. *)
Definition np_ge_rows (draw : array) (sums : matrix) : list (list bool) :=
  map (fun r => zip_with fge draw r) sums.

(** [b.sum(axis=0)] on a boolean matrix with [n] columns: True counts 1. *)
Definition count_true_axis0 (n : nat) (b : list (list bool)) : list nat :=
  fold_left (zip_with (fun c x => c + Nat.b2n x)) b (repeat 0 n).

(** ** pandas frames

    A frame has named columns and rows; a row carries its index label
    [rid] (the agent's identity) and one cell per column. *)

Inductive value : Type :=
| VStr (s : string)
| VInt (z : Z)
| VNaN.

Definition value_eqb (a b : value) : bool :=
  match a, b with
  | VStr s, VStr t => String.eqb s t
  | VInt x, VInt y => Z.eqb x y
  | _, _ => false
  end.

Record row : Type := mkRow { rid : nat; cells : list value }.

Record frame : Type := mkFrame { columns : list string; rows : list row }.

Fixpoint col_index (c : string) (cols : list string) : option nat :=
  match cols with
  | [] => None
  | c' :: cols' =>
      if String.eqb c c' then Some 0
      else option_map S (col_index c cols')
  end.

Fixpoint list_set {A : Type} (i : nat) (v : A) (l : list A) : list A :=
  match l, i with
  | [], _ => []
  | _ :: l', 0 => v :: l'
  | x :: l', S i' => x :: list_set i' v l'
  end.

(** [agents[col]]: KeyError when the column does not exist. *)
Definition getitem (agents : frame) (col : string) : result (list value) :=
  match col_index col (columns agents) with
  | None => Err (KeyError col)
  | Some i => Ok (map (fun r => nth i (cells r) VNaN) (rows agents))
  end.

(** [agents[mask]]: the rows whose mask entry is True, as a new frame. *)
Definition mask_select (agents : frame) (mask : list bool) : frame :=
  mkFrame (columns agents)
          (map fst (filter snd (combine (rows agents) mask))).

(** [agents[agents[col] == v]] *)
Definition select_eq (agents : frame) (col : string) (v : value)
  : result frame :=
  ser <- getitem agents col ;;
  Ok (mask_select agents (map (fun x => value_eqb x v) ser)).

(** [agents[col] = v]: overwrites the column in every row, or appends it
    as a new last column when the frame has no such column. *)
Definition setitem (agents : frame) (col : string) (v : value) : frame :=
  match col_index col (columns agents) with
  | Some i =>
      mkFrame (columns agents)
              (map (fun r => mkRow (rid r) (list_set i v (cells r)))
                   (rows agents))
  | None =>
      mkFrame (columns agents ++ [col])
              (map (fun r => mkRow (rid r) (cells r ++ [v])) (rows agents))
  end.

(** The distinct values of [keys] in ascending order. *)
Definition sorted_keys (keys : list nat) : list nat :=
  filter (fun k => existsb (Nat.eqb k) keys) (seq 0 (S (list_max keys))).

(** [agents.groupby(keys)], iterated: one [(key, sub_frame)] per distinct
    key, in ascending key order, each sub-frame in the frame's row order. *)
Definition groupby (agents : frame) (keys : list nat) : list (nat * frame) :=
  map (fun k => (k, mask_select agents (map (Nat.eqb k) keys)))
      (sorted_keys keys).

Definition add_column (acc : list string) (c : string) : list string :=
  if existsb (String.eqb c) acc then acc else acc ++ [c].

Definition union_columns (fs : list frame) : list string :=
  fold_left (fun acc f => fold_left add_column (columns f) acc) fs [].

(** The rows of [f] laid out on the columns [cols]; a missing cell is NaN. *)
Definition reindex (cols : list string) (f : frame) : list row :=
  map (fun r =>
         mkRow (rid r)
               (map (fun c => match col_index c (columns f) with
                              | Some i => nth i (cells r) VNaN
                              | None => VNaN
                              end) cols))
      (rows f).

(** [pd.concat(fs)] along the rows: the columns are the union of the
    frames' columns, in order of first appearance. *)
Definition pd_concat (fs : list frame) : result frame :=
  match fs with
  | [] => Err (ValueError "No objects to concatenate")
  | _ =>
      let cols := union_columns fs in
      Ok (mkFrame cols (flat_map (reindex cols) fs))
  end.

(** [pd.DataFrame(columns=cols)] *)
Definition DataFrame_of_columns (cols : list string) : frame :=
  mkFrame cols [].

(** ** ceam/state_machine.py *)

(** A reference to a [State] object, as a [Transition] holds one in
    [output].  [State] defines neither [__eq__] nor [__hash__]: as a
    dictionary key the object counts by its identity, which [ref_object]
    stands for, whereas [transition_effect] and [__str__] read its
    [state_id].  One object has one [state_id], so that two references to
    the same object agree in both fields, and two objects can carry the
    same [state_id]. *)
Record state_ref : Type := mkRef {
  ref_object : nat;
  ref_state_id : string
}.

(** [a is b] *)
Definition state_ref_eqb (a b : state_ref) : bool :=
  Nat.eqb (ref_object a) (ref_object b)
  && String.eqb (ref_state_id a) (ref_state_id b).

Record Transition : Type := mkTransition {
  output : state_ref;
  probability : frame -> array
}.

(** [class TransitionSet(list)]: the list's elements and the flag. *)
Record TransitionSet : Type := mkTransitionSet {
  allow_null_transition : bool;
  transitions : list Transition
}.

Record State : Type := mkState {
  state_id : string;
  transition_set : TransitionSet
}.

Record Machine : Type := mkMachine {
  states : list State;
  state_column : string
}.

(** The default of [Transition.__init__]:
    [lambda agents: np.full(len(agents), 1, dtype=float)]. *)
Definition default_probability_func (agents : frame) : array :=
  np_full (length (rows agents)) fone.

(** [Transition(output)], without a probability function. *)
Definition Transition_default (out : state_ref) : Transition :=
  mkTransition out default_probability_func.

(** [State(state_id)]: a fresh state owns [TransitionSet()]. *)
Definition State_init (id : string) : State :=
  mkState id (mkTransitionSet true []).

(** The entries of [outputs]: a target state, or the string
    ['null_transition'] appended by [groupby_new_state]. *)
Inductive outcome : Type :=
| Target (state : state_ref)
| null_transition.

(** Equality of dictionary keys: identity for [State] objects, equality
    for the string. *)
Definition outcome_eqb (a b : outcome) : bool :=
  match a, b with
  | Target x, Target y => state_ref_eqb x y
  | null_transition, null_transition => true
  | _, _ => false
  end.

Definition dquote : string := String "034"%char EmptyString.

(** [State.__str__]: ['State("{0}" ...)'.format(self.state_id)] *)
Definition State_str (id : string) : string :=
  ("State(" ++ dquote ++ id ++ dquote ++ " ...)")%string.

(** [str(x[0])] for a key of [groups]. *)
Definition outcome_str (o : outcome) : string :=
  match o with
  | Target state => State_str (ref_state_id state)
  | null_transition => "null_transition"%string
  end.

(** A Python dict, in insertion order; assigning to a key that is present
    ([State] objects by identity, the string by equality) replaces its
    value in place. *)
Definition dict (V : Type) : Type := list (outcome * V).

Fixpoint dict_set {V : Type} (k : outcome) (v : V) (d : dict V) : dict V :=
  match d with
  | [] => [(k, v)]
  | (k', v') :: d' =>
      if outcome_eqb k k' then (k', v) :: d'
      else (k', v') :: dict_set k v d'
  end.

(** [sorted(items, key=lambda x: str(x[0]))]: a stable sort. *)
Fixpoint insert_by_str {V : Type} (x : outcome * V) (l : list (outcome * V))
  : list (outcome * V) :=
  match l with
  | [] => [x]
  | y :: l' =>
      if String.leb (outcome_str (fst x)) (outcome_str (fst y)) then x :: l
      else y :: insert_by_str x l'
  end.

Definition sorted_by_str {V : Type} (l : list (outcome * V))
  : list (outcome * V) :=
  fold_right insert_by_str [] l.

Definition unpack_error : error :=
  ValueError "not enough values to unpack (expected 2, got 0)".

Definition shape_error : error :=
  ValueError "operands could not be broadcast together".

Definition conservation_error : error :=
  ValueError "Total transition probability greater than 1".

(** [State._transition_side_effect] *)
Definition _transition_side_effect (agents : frame) (state_column : string)
  : frame :=
  agents.

(** [State.transition_effect], with [self.state_id] as first argument. *)
Definition transition_effect (self_state_id : string) (agents : frame)
    (state_column : string) : frame :=
  let agents := setitem agents state_column (VStr self_state_id) in
  let agents := _transition_side_effect agents state_column in
  agents.

Section Draws.

(** [ceam.util.get_draw] is not part of the sources at hand: one draw
    per agent of the cohort it is given. *)
Variable get_draw : frame -> array.

(** [TransitionSet.groupby_new_state], lines 49-60: the outcome list and
    the matrix of probabilities, one row per outcome and one column per
    agent.  For an empty set the unpacking of the zipped pairs fails; numpy
    raises on probability arrays that do not have one entry per agent
    ([shape_error]). *)
Definition outcome_probabilities (self : TransitionSet) (agents : frame)
  : result (list outcome * matrix) :=
  match transitions self with
  | [] => Err unpack_error
  | _ =>
      let outputs := map (fun t => Target (output t)) (transitions self) in
      let probabilities :=
        map (fun t => probability t agents) (transitions self) in
      let n := length (rows agents) in
      if negb (forallb (fun p => length p =? n) probabilities)
      then Err shape_error
      else
        let total := np_sum_axis0 n probabilities in
        if negb (allow_null_transition self) then
          Ok (outputs, np_div_rows probabilities total)
        else if np_any_gt total fone then
          Err conservation_error
        else
          Ok (outputs ++ [null_transition],
              probabilities ++ [map (fsub fone) total])
  end.

(** Lines 62-64: the outcome index of every agent.  The comparison of
    [draw] with [sums] raises when there is not one draw per agent. *)
Definition output_indexes (self : TransitionSet) (agents : frame)
  : result (list outcome * list nat) :=
  op <- outcome_probabilities self agents ;;
  let outputs := fst op in
  let probabilities := snd op in
  let n := length (rows agents) in
  let draw := get_draw agents in
  if negb (length draw =? n) then Err shape_error
  else
    let sums := cumsum_axis0 probabilities in
    Ok (outputs, count_true_axis0 n (np_ge_rows draw sums)).

(** [{outputs[i]: sub_group for i, sub_group in groups}] *)
Fixpoint groups_dict (outputs : list outcome) (groups : list (nat * frame))
    (acc : dict frame) : result (dict frame) :=
  match groups with
  | [] => Ok acc
  | (i, sub_group) :: groups' =>
      match nth_error outputs i with
      | None => Err IndexError
      | Some o => groups_dict outputs groups' (dict_set o sub_group acc)
      end
  end.

(** [TransitionSet.groupby_new_state] *)
Definition groupby_new_state (self : TransitionSet) (agents : frame)
  : result (dict frame) :=
  oi <- output_indexes self agents ;;
  let outputs := fst oi in
  let groups := groupby agents (snd oi) in
  groups_dict outputs groups [].

(** [State.next_state] *)
Definition next_state (self : State) (agents : frame)
    (state_column : string) : result frame :=
  if length (transitions (transition_set self)) =? 0 then Ok agents
  else
    groups <- groupby_new_state (transition_set self) agents ;;
    match groups with
    | [] => Ok (DataFrame_of_columns (columns agents))
    | _ =>
        pd_concat
          (map (fun item : outcome * frame =>
                  match fst item with
                  | Target state =>
                      transition_effect (ref_state_id state) (snd item)
                                        state_column
                  | null_transition => snd item
                  end)
               (sorted_by_str groups))
    end.

(** [Machine.transition] *)
Definition transition (self : Machine) (agents : frame) : result frame :=
  result <-
    mapM (fun state =>
            affected_agents <-
              select_eq agents (state_column self) (VStr (state_id state)) ;;
            next_state state affected_agents (state_column self))
         (states self) ;;
  pd_concat result.

End Draws.

(** ** src/vivarium/component.py *)

Definition DEFAULT_EVENT_PRIORITY : Z := 5%Z.

(** The methods of [Component] that a subclass overrides to take part in
    a lifecycle phase. *)
Inductive hook : Type :=
| on_post_setup
| on_initialize_simulants
| on_time_step_prepare
| on_time_step
| on_time_step_cleanup
| on_collect_metrics
| on_simulation_end.

Definition hook_eqb (a b : hook) : bool :=
  match a, b with
  | on_post_setup, on_post_setup
  | on_initialize_simulants, on_initialize_simulants
  | on_time_step_prepare, on_time_step_prepare
  | on_time_step, on_time_step
  | on_time_step_cleanup, on_time_step_cleanup
  | on_collect_metrics, on_collect_metrics
  | on_simulation_end, on_simulation_end => true
  | _, _ => false
  end.

(** A bound method [self.on_...]: the component's name and the hook. *)
Definition callback : Type := (string * hook)%type.

(** An entry of [builder.configuration[name][key]], as produced by
    [build_lookup_table_config]; [key_name] is optional there. *)
Record lookup_config : Type := mkLookupConfig {
  cfg_value : value;
  continuous_columns : list string;
  categorical_columns : list string;
  key_name : option string
}.

(** Modelled from the spec: the lookup interface builds a table either
    from a literal value or from external data named by a key together with
    its categorical and continuous key columns (section 6); the table is
    kept as the request that built it. *)
Inductive lookup_table : Type :=
| table_of_data (key : string) (key_columns parameter_columns : list string)
| table_of_value (v : value).

Record PopulationView : Type := mkView {
  view_request : list string;
  view_query : option string
}.

(** Modelled from the spec: a population view requested with the empty
    column list gives access to all columns of the state table (section 3);
    [table_columns] are the columns of that table. *)
Definition view_columns (table_columns : list string) (v : PopulationView)
  : list string :=
  match view_request v with
  | [] => table_columns
  | cols => cols
  end.

Record requirements : Type := mkRequirements {
  requires_columns : list string;
  requires_values : list string;
  requires_streams : list string
}.

Record initializer : Type := mkInitializer {
  init_callback : callback;
  creates_columns : list string;
  init_requires : requirements
}.

(** Modelled from the spec: the builder's interfaces (section 6) are kept
    as the state they accumulate: the loggers handed out, the views
    created, the listeners registered per phase with callback and
    priority, and the simulant initializers.  [configuration] is the
    layered configuration: [builder.configuration[name]] is the
    configuration of a component, where there is one, and subscripting
    that with an option key gives the entry, where there is one. *)
Record Builder : Type := mkBuilder {
  configuration : string -> option (string -> option lookup_config);
  loggers : list string;
  views : list PopulationView;
  listeners : list (string * callback * Z);
  initializers : list initializer
}.

(** Modelled from the spec: [builder.logging.get_logger(name)]. *)
Definition get_logger (b : Builder) (name : string) : string * Builder :=
  (name,
   mkBuilder (configuration b) (loggers b ++ [name]) (views b)
             (listeners b) (initializers b)).

(** Modelled from the spec: [builder.population.get_view(columns, query)]. *)
Definition get_view (b : Builder) (cols : list string) (query : option string)
  : PopulationView * Builder :=
  (mkView cols query,
   mkBuilder (configuration b) (loggers b) (views b ++ [mkView cols query])
             (listeners b) (initializers b)).

(** Modelled from the spec:
    [builder.event.register_listener(name, listener, priority)]. *)
Definition register_listener (b : Builder) (event : string) (cb : callback)
    (priority : Z) : Builder :=
  mkBuilder (configuration b) (loggers b) (views b)
            (listeners b ++ [(event, cb, priority)]) (initializers b).

(** Modelled from the spec:
    [builder.population.initializes_simulants(initializer, creates_columns,
    requires_columns, requires_values, requires_streams)]. *)
Definition initializes_simulants (b : Builder) (cb : callback)
    (created : list string) (req : requirements) : Builder :=
  mkBuilder (configuration b) (loggers b) (views b) (listeners b)
            (initializers b ++ [mkInitializer cb created req]).

(** A component class.  The properties are given by the values they
    return when [setup_component] reads them; [overrides h] tells whether
    [type(self).h != Component.h]; [setup] is the custom setup method as
    it acts on the builder ([None] for the inherited one, which does
    nothing). *)
Record Component : Type := mkComponent {
  name : string;
  columns_created : list string;
  columns_required : option (list string);
  standard_lookup_tables : list string;
  initialization_requirements : requirements;
  population_view_query : option string;
  post_setup_priority : Z;
  time_step_prepare_priority : Z;
  time_step_priority : Z;
  time_step_cleanup_priority : Z;
  collect_metrics_priority : Z;
  simulation_end_priority : Z;
  overrides : hook -> bool;
  setup : option (Builder -> result Builder)
}.

(** The attributes [__init__] creates on the instance. *)
Record instance : Type := mkInstance {
  logger : option string;
  population_view : option PopulationView;
  lookup_tables : list (string * lookup_table)
}.

Definition Component_init : instance := mkInstance None None [].

(** [self.lookup_tables[k] = t] *)
Fixpoint tables_set (k : string) (t : lookup_table)
    (d : list (string * lookup_table)) : list (string * lookup_table) :=
  match d with
  | [] => [(k, t)]
  | (k', t') :: d' =>
      if String.eqb k k' then (k', t) :: d'
      else (k', t') :: tables_set k t d'
  end.

(** [builder.configuration[component][key]], where both subscripts
    succeed. *)
Definition configuration_entry (b : Builder) (component key : string)
  : option lookup_config :=
  match configuration b component with
  | Some component_configuration => component_configuration key
  | None => None
  end.

(** [Component.build_lookup_tables]; each of the two subscripts of
    [builder.configuration[self.name][lookup_table_name]] raises a
    KeyError for its own key. *)
Fixpoint build_lookup_tables_loop (c : Component) (b : Builder)
    (names : list string) (tables : list (string * lookup_table))
  : result (list (string * lookup_table)) :=
  match names with
  | [] => Ok tables
  | lookup_table_name :: names' =>
      match configuration b (name c) with
      | None => Err (KeyError (name c))
      | Some component_configuration =>
          match component_configuration lookup_table_name with
          | None => Err (KeyError lookup_table_name)
          | Some lookup_table_config =>
              table <-
                (if value_eqb (cfg_value lookup_table_config) (VStr "data")
                 then
                   match key_name lookup_table_config with
                   | None => Err (KeyError "key_name")
                   | Some key =>
                       Ok (table_of_data key
                             (categorical_columns lookup_table_config)
                             (continuous_columns lookup_table_config))
                   end
                 else Ok (table_of_value (cfg_value lookup_table_config))) ;;
              build_lookup_tables_loop c b names'
                (tables_set lookup_table_name table tables)
          end
      end
  end.

Definition build_lookup_tables (c : Component) (self : instance) (b : Builder)
  : result instance :=
  tables <- build_lookup_tables_loop c b (standard_lookup_tables c)
              (lookup_tables self) ;;
  Ok (mkInstance (logger self) (population_view self) tables).

(** Python truth value of a list, and of an optional list. *)
Definition truthy {A : Type} (l : list A) : bool :=
  match l with [] => false | _ :: _ => true end.

Definition opt_truthy {A : Type} (o : option (list A)) : bool :=
  match o with Some l => truthy l | None => false end.

Definition is_empty_list {A : Type} (o : option (list A)) : bool :=
  match o with Some [] => true | _ => false end.

Definition is_None {A : Type} (o : option A) : bool :=
  match o with None => true | Some _ => false end.

Definition list_of {A : Type} (o : option (list A)) : list A :=
  match o with Some l => l | None => [] end.

(** [Component._set_population_view] *)
Definition _set_population_view (c : Component) (self : instance)
    (b : Builder) : instance * Builder :=
  let population_view_columns : option (list string) :=
    if opt_truthy (columns_required c) then
      Some (columns_created c ++ list_of (columns_required c))
    else if is_empty_list (columns_required c) then
      Some []
    else if is_None (columns_required c) && truthy (columns_created c) then
      Some (columns_created c)
    else
      None in
  match population_view_columns with
  | Some cols =>
      let vb := get_view b cols (population_view_query c) in
      (mkInstance (logger self) (Some (fst vb)) (lookup_tables self), snd vb)
  | None => (self, b)
  end.

Definition _register_post_setup_listener (c : Component) (b : Builder)
  : Builder :=
  if overrides c on_post_setup then
    register_listener b "post_setup" (name c, on_post_setup)
                      (post_setup_priority c)
  else b.

Definition _register_simulant_initializer (c : Component) (b : Builder)
  : Builder :=
  if overrides c on_initialize_simulants then
    initializes_simulants b (name c, on_initialize_simulants)
                          (columns_created c) (initialization_requirements c)
  else b.

Definition _register_time_step_prepare_listener (c : Component) (b : Builder)
  : Builder :=
  if overrides c on_time_step_prepare then
    register_listener b "time_step__prepare" (name c, on_time_step_prepare)
                      (time_step_prepare_priority c)
  else b.

Definition _register_time_step_listener (c : Component) (b : Builder)
  : Builder :=
  if overrides c on_time_step then
    register_listener b "time_step" (name c, on_time_step)
                      (time_step_priority c)
  else b.

Definition _register_time_step_cleanup_listener (c : Component) (b : Builder)
  : Builder :=
  if overrides c on_time_step_cleanup then
    register_listener b "time_step__cleanup" (name c, on_time_step_cleanup)
                      (time_step_cleanup_priority c)
  else b.

Definition _register_collect_metrics_listener (c : Component) (b : Builder)
  : Builder :=
  if overrides c on_collect_metrics then
    register_listener b "collect_metrics" (name c, on_collect_metrics)
                      (collect_metrics_priority c)
  else b.

Definition _register_simulation_end_listener (c : Component) (b : Builder)
  : Builder :=
  if overrides c on_simulation_end then
    register_listener b "simulation_end" (name c, on_simulation_end)
                      (simulation_end_priority c)
  else b.

(** [self.setup(builder)] *)
Definition run_setup (c : Component) (b : Builder) : result Builder :=
  match setup c with
  | None => Ok b
  | Some custom => custom b
  end.

(** [Component.setup_component] *)
Definition setup_component (c : Component) (self : instance) (b : Builder)
  : result (instance * Builder) :=
  let lb := get_logger b (name c) in
  let self := mkInstance (Some (fst lb)) (population_view self)
                         (lookup_tables self) in
  let b := snd lb in
  self <- build_lookup_tables c self b ;;
  b <- run_setup c b ;;
  let sb := _set_population_view c self b in
  let self := fst sb in
  let b := snd sb in
  let b := _register_post_setup_listener c b in
  let b := _register_simulant_initializer c b in
  let b := _register_time_step_prepare_listener c b in
  let b := _register_time_step_listener c b in
  let b := _register_time_step_cleanup_listener c b in
  let b := _register_collect_metrics_listener c b in
  let b := _register_simulation_end_listener c b in
  Ok (self, b).

(** *** Per-agent quantities, in the spec's words *)

(** The entries of column [j] of a matrix: what belongs to agent [j]. *)
Definition column (j : nat) (m : matrix) : list float :=
  map (fun r => nth j r NaN) m.

(** The sum of a list of floats, added up from the first one on. *)
Definition fsum (l : list float) : float :=
  match l with
  | [] => fzero
  | x :: l' => fold_left fadd l' x
  end.

(** The probabilities as the transitions give them, before the set
    normalises or completes them. *)
Definition raw_probabilities (ts : TransitionSet) (agents : frame) : matrix :=
  map (fun t => probability t agents) (transitions ts).

Definition is_zero (x : float) : bool :=
  match x with
  | Fin q => Qeq_bool q 0
  | _ => false
  end.

(** The sum of a non-empty list of rationals, from the first one on. *)
Definition Qsum (l : list Q) : Q :=
  match l with
  | [] => 0%Q
  | x :: l' => fold_left Qplus l' x
  end.

(** The probabilities the transitions of [ts] give to agent [j]. *)
Definition agent_probabilities (ts : TransitionSet) (agents : frame)
    (j : nat) : list float :=
  column j (raw_probabilities ts agents).

(** Agent [j]'s sum of probabilities across all transitions. *)
Definition agent_total (ts : TransitionSet) (agents : frame) (j : nat)
  : float :=
  fsum (agent_probabilities ts agents j).

(** Every probability function returns one value per agent. *)
Definition probabilities_shaped (ts : TransitionSet) (agents : frame)
  : bool :=
  forallb (fun t => length (probability t agents) =? length (rows agents))
          (transitions ts).

(** Every row of [m] has [n] entries. *)
Definition all_length (n : nat) (m : matrix) : Prop :=
  Forall (fun r => length r = n) m.

(** A finite value that is at least [lo]. *)
Definition fin_ge (lo : Q) (x : float) : Prop :=
  match x with
  | Fin q => (lo <= q)%Q
  | _ => False
  end.

Definition nonneg_finite (x : float) : bool :=
  match x with
  | Fin q => Qle_bool 0 q
  | _ => false
  end.

(** The probability function of [t] gives every agent of the cohort a
    finite, non-negative value. *)
Definition probabilities_valid (agents : frame) (t : Transition) : bool :=
  (length (probability t agents) =? length (rows agents))
  && forallb nonneg_finite (probability t agents).

(** The cumulative sums of a list: the thresholds of one agent. *)
Fixpoint running (acc : float) (l : list float) : list float :=
  match l with
  | [] => []
  | x :: l' =>
      let acc' := fadd acc x in
      acc' :: running acc' l'
  end.

Definition cumsum_list (l : list float) : list float :=
  match l with
  | [] => []
  | x :: l' => x :: running x l'
  end.

(** The number of thresholds that are less than or equal to the draw. *)
Definition count_le_draw (draw : float) (thresholds : list float) : nat :=
  length (filter (fun t => fge draw t) thresholds).

(** The number of thresholds strictly less than the draw: the outcome
    index as section 4.3, step 5 words it. *)
Definition spec_output_index (draw : float) (thresholds : list float) : nat :=
  length (filter (fun t => fgt draw t) thresholds).

(** Finite values, each at least its predecessor, the first one at least
    [lo]. *)
Inductive ascending : Q -> list float -> Prop :=
| ascending_nil (lo : Q) : ascending lo []
| ascending_cons (lo q : Q) (l : list float) :
    (lo <= q)%Q -> ascending q l -> ascending lo (Fin q :: l).

(** *** Conditions under which a transition pass goes through *)

(** The agents' identities, in row order. *)
Definition ids (f : frame) : list nat := map rid (rows f).

(** What a finite [p] divided by a zero total is. *)
Definition over_zero (p : Q) : float :=
  if Qltb 0 p then PInf else if Qltb p 0 then NInf else NaN.

(** The transitions of the set lead to pairwise distinct [State]
    objects. *)
Definition distinct_targets (ts : TransitionSet) : Prop :=
  NoDup (map output (transitions ts)).

(** Every agent's state-column value is the identifier of a declared
    state. *)
Definition covered (m : Machine) (agents : frame) : bool :=
  match col_index (state_column m) (columns agents) with
  | None => false
  | Some i =>
      forallb (fun r =>
                 existsb (fun s => value_eqb (nth i (cells r) VNaN)
                                             (VStr (state_id s)))
                         (states m))
              (rows agents)
  end.

(** The agents of [agents] whose cell number [i] holds the state
    identifier [id]. *)
Definition cohort_rows (agents : frame) (i : nat) (id : string) : list row :=
  filter (fun r => value_eqb (nth i (cells r) VNaN) (VStr id)) (rows agents).

(** The state identifier held by cell [i] of a row. *)
Definition state_of (i : nat) (r : row) : string :=
  match nth i (cells r) VNaN with
  | VStr s => s
  | _ => EmptyString
  end.

(** *** The registration contract, in the spec's words *)

(** The six phases dispatched as events, in the order in which
    [setup_component] goes through them. *)
Definition event_hooks : list hook :=
  [on_post_setup; on_time_step_prepare; on_time_step; on_time_step_cleanup;
   on_collect_metrics; on_simulation_end].

Definition hook_event (h : hook) : string :=
  match h with
  | on_post_setup => "post_setup"
  | on_initialize_simulants => "initialize_simulants"
  | on_time_step_prepare => "time_step__prepare"
  | on_time_step => "time_step"
  | on_time_step_cleanup => "time_step__cleanup"
  | on_collect_metrics => "collect_metrics"
  | on_simulation_end => "simulation_end"
  end.

Definition hook_priority (c : Component) (h : hook) : Z :=
  match h with
  | on_post_setup => post_setup_priority c
  | on_initialize_simulants => DEFAULT_EVENT_PRIORITY
  | on_time_step_prepare => time_step_prepare_priority c
  | on_time_step => time_step_priority c
  | on_time_step_cleanup => time_step_cleanup_priority c
  | on_collect_metrics => collect_metrics_priority c
  | on_simulation_end => simulation_end_priority c
  end.

(** One listener per overridden phase hook, at the declared priority. *)
Definition spec_listeners (c : Component) : list (string * callback * Z) :=
  flat_map (fun h =>
              if overrides c h
              then [(hook_event h, (name c, h), hook_priority c h)]
              else [])
           event_hooks.

(** The number of listeners of [l] registered on the phase [event]. *)
Definition count_event (event : string) (l : list (string * callback * Z))
  : nat :=
  List.length (filter (fun x => String.eqb (fst (fst x)) event) l).

(** Every standard lookup table of [c] has a configuration entry, with a
    [key_name] when its value is ["data"]. *)
Definition tables_configured (c : Component) (b : Builder) : bool :=
  forallb (fun n =>
             match configuration_entry b (name c) n with
             | None => false
             | Some cfg =>
                 if value_eqb (cfg_value cfg) (VStr "data")
                 then negb (is_None (key_name cfg))
                 else true
             end)
          (standard_lookup_tables c).

(** The precedence rule of the population view (section 3): the columns
    the view gives access to, or [None] when no view is created. *)
Definition spec_view_columns (created : list string)
    (required : option (list string)) (table_columns : list string)
  : option (list string) :=
  match required with
  | Some (r :: rs) => Some (created ++ r :: rs)
  | Some [] => Some table_columns
  | None =>
      match created with
      | _ :: _ => Some created
      | [] => None
      end
  end.

(** *** Notions used by the further properties of the state machine *)

(** [d[k]] *)
Fixpoint dict_get {V : Type} (k : outcome) (d : dict V) : option V :=
  match d with
  | [] => None
  | (k', v) :: d' => if outcome_eqb k k' then Some v else dict_get k d'
  end.

Definition is_target (o : outcome) : bool :=
  match o with Target _ => true | null_transition => false end.

(** The row's state cell holds the identifier of one of the states. *)
Definition declared (sts : list State) (i : nat) (r : row) : bool :=
  existsb (fun s => value_eqb (nth i (cells r) VNaN) (VStr (state_id s))) sts.

(** The frame has pairwise distinct column names and every row has one
    cell per column. *)
Definition well_formed (f : frame) : Prop :=
  NoDup (columns f) /\
  Forall (fun r => length (cells r) = length (columns f)) (rows f).

(** *** Notions used by the further properties of the component *)

(** [self.lookup_tables[k]], where present. *)
Fixpoint tables_get (k : string) (d : list (string * lookup_table))
  : option lookup_table :=
  match d with
  | [] => None
  | (k', t) :: d' => if String.eqb k k' then Some t else tables_get k d'
  end.

(** The table a configuration entry asks for; none when the entry says
    ["data"] without naming the data. *)
Definition described_table (cfg : lookup_config) : option lookup_table :=
  if value_eqb (cfg_value cfg) (VStr "data") then
    match key_name cfg with
    | Some key =>
        Some (table_of_data key (categorical_columns cfg)
                            (continuous_columns cfg))
    | None => None
    end
  else Some (table_of_value (cfg_value cfg)).

(** The values a configuration dictionary holds. *)
Inductive config_entry : Type :=
| CValue (v : value)
| CColumns (l : list string)
| CName (s : string).

(** [config.update(kwargs)] and [config[k] = v] on a dictionary kept in
    insertion order. *)
Fixpoint config_set (k : string) (v : config_entry)
    (d : list (string * config_entry)) : list (string * config_entry) :=
  match d with
  | [] => [(k, v)]
  | (k', v') :: d' =>
      if String.eqb k k' then (k', v) :: d'
      else (k', v') :: config_set k v d'
  end.

Definition config_update (d kwargs : list (string * config_entry))
  : list (string * config_entry) :=
  fold_left (fun acc kv => config_set (fst kv) (snd kv) acc) kwargs d.

Fixpoint config_get (k : string) (d : list (string * config_entry))
  : option config_entry :=
  match d with
  | [] => None
  | (k', v) :: d' => if String.eqb k k' then Some v else config_get k d'
  end.

(** Python truth value of an optional string. *)
Definition name_truthy (key_name : option string) : bool :=
  match key_name with
  | Some (String _ _) => true
  | _ => false
  end.

(** [Component.build_lookup_table_config]; [key_name] defaults to
    [None].  Python binds the four named parameters itself, so [kwargs]
    never holds one of their names. *)
Definition build_lookup_table_config (value : value)
    (continuous_columns categorical_columns : list string)
    (key_name : option string) (kwargs : list (string * config_entry))
  : list (string * config_entry) :=
  let config :=
    [("value"%string, CValue value);
     ("continuous_columns"%string, CColumns continuous_columns);
     ("categorical_columns"%string, CColumns categorical_columns)] in
  let config :=
    if name_truthy key_name then
      config_set "key_name"
                 (CName (match key_name with Some k => k | None => EmptyString end))
                 config
    else config in
  config_update config kwargs.

(** The four entries [build_lookup_tables] reads from a configuration
    dictionary, [key_name] only where it is present. *)
Definition read_lookup_config (d : list (string * config_entry))
  : option lookup_config :=
  match config_get "value" d, config_get "continuous_columns" d,
        config_get "categorical_columns" d with
  | Some (CValue v), Some (CColumns cont), Some (CColumns cat) =>
      Some (mkLookupConfig v cont cat
              (match config_get "key_name" d with
               | Some (CName k) => Some k
               | _ => None
               end))
  | _, _, _ => None
  end.

(** The names of the parameters of [build_lookup_table_config]. *)
Definition config_parameters : list string :=
  ["value"; "continuous_columns"; "categorical_columns"; "key_name"]%string.

(** *** Names and representations of components *)

Definition is_upper (a : ascii) : bool :=
  (65 <=? nat_of_ascii a) && (nat_of_ascii a <=? 90).

Definition is_lower (a : ascii) : bool :=
  (97 <=? nat_of_ascii a) && (nat_of_ascii a <=? 122).

Definition is_digit (a : ascii) : bool :=
  (48 <=? nat_of_ascii a) && (nat_of_ascii a <=? 57).

Definition is_newline (a : ascii) : bool := nat_of_ascii a =? 10.

(** [str.lower] on the ASCII characters, which is where the class names
    of the embedding live. *)
Definition ascii_lower (a : ascii) : ascii :=
  if is_upper a then ascii_of_nat (nat_of_ascii a + 32) else a.

Fixpoint lower (s : string) : string :=
  match s with
  | EmptyString => EmptyString
  | String a s' => String (ascii_lower a) (lower s')
  end.

(** [re.sub("(.)([A-Z][a-z]+)", r"\1_\2", s)], scanning from the left:
    a match starts at a character other than a newline that is followed
    by a capital and a small letter, and runs on through the small
    letters ([in_match] says that the scan is inside that run); the text
    of the match is kept, with an underscore after its first character,
    and the scan goes on after the match. *)
Fixpoint sub_word (in_match : bool) (s : string) : string :=
  match s with
  | EmptyString => EmptyString
  | String c rest =>
      if in_match && is_lower c then String c (sub_word true rest)
      else
        match rest with
        | String u ((String l _) as tail) =>
            if negb (is_newline c) && is_upper u && is_lower l
            then String c (String "_" (String u (sub_word true tail)))
            else String c (sub_word false rest)
        | _ => String c (sub_word false rest)
        end
  end.

(** [re.sub("([a-z0-9])([A-Z])", r"\1_\2", s)]: an underscore between a
    small letter or digit and the capital after it; the scan goes on
    after the capital. *)
Fixpoint sub_camel (s : string) : string :=
  match s with
  | EmptyString => EmptyString
  | String c rest =>
      match rest with
      | String u rest' =>
          if (is_lower c || is_digit c) && is_upper u
          then String c (String "_" (String u (sub_camel rest')))
          else String c (sub_camel rest)
      | EmptyString => String c EmptyString
      end
  end.

(** The two substitutions and the [lower()] of the [name] property. *)
Definition snake_case (class_name : string) : string :=
  lower (sub_camel (sub_word false class_name)).

(** [sep.join(l)] *)
Fixpoint join (sep : string) (l : list string) : string :=
  match l with
  | [] => EmptyString
  | [x] => x
  | x :: l' => (x ++ sep ++ join sep l')%string
  end.

(** Python truth value of a string. *)
Definition str_truthy (s : string) : bool :=
  match s with EmptyString => false | String _ _ => true end.

(** The value of an initialization parameter: a component, or any other
    object, which the two methods only use through its [str()]. *)
Inductive parameter (O : Type) : Type :=
| Text (rendered : string)
| Sub (component : O).

Arguments Text {O} rendered.
Arguments Sub {O} component.

(** A component object as [__repr__], [__str__] and [name] see it: its
    class name, the two caches set by [__init__], and the dictionary
    that [get_initialization_parameters] returns, in the order of the
    signature of [__init__]. *)
#[warnings="-register-all"] Inductive object : Type :=
| Object (class_name : string) (_repr _name : string)
         (parameters : list (string * parameter object)).

Definition class_name_of (self : object) : string :=
  match self with Object cls _ _ _ => cls end.

Definition _repr_of (self : object) : string :=
  match self with Object _ r _ _ => r end.

Definition _name_of (self : object) : string :=
  match self with Object _ _ n _ => n end.

Definition parameters_of (self : object)
  : list (string * parameter object) :=
  match self with Object _ _ _ ps => ps end.

(** Assigning new values to the attributes behind the parameters. *)
Definition with_parameters (self : object)
    (ps : list (string * parameter object)) : object :=
  match self with Object cls r n _ => Object cls r n ps end.

(** [Component.__init__], for a class and the attributes its own
    [__init__] has set. *)
Definition Object_init (class_name : string)
    (ps : list (string * parameter object)) : object :=
  Object class_name EmptyString EmptyString ps.

Definition squote : string := String "039"%char EmptyString.

(** The [name] property: its value, and the object afterwards (the
    caches of the component and of its sub-components are written). *)
Fixpoint Component_name (self : object) : string * object :=
  match self with
  | Object cls r n ps =>
      if negb (str_truthy n) then
        let base_name := snake_case cls in
        let args :=
          (fix args (ps : list (string * parameter object))
             : list string * list (string * parameter object) :=
             match ps with
             | [] => ([], [])
             | (k, Text s) :: ps' =>
                 let rest := args ps' in
                 (s :: fst rest, (k, Text s) :: snd rest)
             | (k, Sub value) :: ps' =>
                 let named := Component_name value in
                 let rest := args ps' in
                 ((squote ++ fst named ++ squote)%string :: fst rest,
                  (k, Sub (snd named)) :: snd rest)
             end) ps in
        let _name := join "." (base_name :: fst args) in
        (_name, Object cls r _name (snd args))
      else (n, self)
  end.

(** [Component.__repr__]: its value, and the object afterwards. *)
Fixpoint Component_repr (self : object) : string * object :=
  match self with
  | Object cls r n ps =>
      if negb (str_truthy r) then
        let args :=
          (fix args (ps : list (string * parameter object))
             : list string * list (string * parameter object) :=
             match ps with
             | [] => ([], [])
             | (k, Text s) :: ps' =>
                 let rest := args ps' in
                 ((k ++ "=" ++ s)%string :: fst rest,
                  (k, Text s) :: snd rest)
             | (k, Sub value) :: ps' =>
                 let shown := Component_repr value in
                 let rest := args ps' in
                 ((k ++ "=" ++ fst shown)%string :: fst rest,
                  (k, Sub (snd shown)) :: snd rest)
             end) ps in
        let _repr := (cls ++ "(" ++ join ", " (fst args) ++ ")")%string in
        (_repr, Object cls _repr n (snd args))
      else (r, self)
  end.

(** [Component.__str__] *)
Definition Component_str (self : object) : string := _repr_of self.

(** The letters of a string: its characters other than the underscore,
    capitals as small letters. *)
Fixpoint letters (s : string) : string :=
  match s with
  | EmptyString => EmptyString
  | String a s' =>
      if Ascii.eqb a "_" then letters s'
      else String (ascii_lower a) (letters s')
  end.

Fixpoint no_upper (s : string) : bool :=
  match s with
  | EmptyString => true
  | String a s' => negb (is_upper a) && no_upper s'
  end.

Fixpoint is_ascii (s : string) : bool :=
  match s with
  | EmptyString => true
  | String a s' => (nat_of_ascii a <? 128) && is_ascii s'
  end.

(** Every entry of the dictionary [acc] is the group of the largest
    index below [b] that is present and has the entry's outcome. *)
Definition latest_below (outputs : list outcome) (present : nat -> bool)
    (group : nat -> frame) (b : nat) (acc : dict frame) : Prop :=
  NoDup (map fst acc) /\
  forall o f, In (o, f) acc ->
    exists k,
      k < b /\ present k = true /\ nth_error outputs k = Some o /\
      f = group k /\
      forall k', k' < b -> present k' = true ->
                 nth_error outputs k' = Some o -> k' <= k.

(** *** The drawing of a machine *)

(** graphviz's [Digraph] is outside the sources at hand; the embedding
    keeps what [to_dot] adds to it, statement by statement. *)
Inductive dot_statement : Type :=
| Node (name : string)
| Edge (tail_name head_name : string).

(** [Machine.to_dot] *)
Definition to_dot (self : Machine) : list dot_statement :=
  flat_map
    (fun state =>
       Node (state_id state)
       :: map (fun transition =>
                 Edge (state_id state) (ref_state_id (output transition)))
              (transitions (transition_set state)))
    (states self).

(** ** experiment_runners/opportunistic_screening.py *)

(** [a < b]; every comparison with NaN is False. *)
Definition flt (a b : float) : bool := fgt b a.

(** The columns of the population table that the module reads and
    writes, one record per simulant; a date is a number of days, and
    the follow-up date may be missing. *)
Record simulant : Type := mkSimulant {
  age : float;
  systolic_blood_pressure : float;
  healthcare_followup_date : option Q;
  taking_blood_pressure_medication_a : bool;
  taking_blood_pressure_medication_b : bool
}.

(** Boolean series on the index of the population, entry by entry. *)
Definition series_and (a b : list bool) : list bool := zip_with andb a b.

Definition series_or (a b : list bool) : list bool := zip_with orb a b.

Definition series_lt (s : list float) (c : float) : list bool :=
  map (fun x => flt x c) s.

Definition series_ge (s : list float) (c : float) : list bool :=
  map (fun x => fge x c) s.

(** [s == False] *)
Definition series_is_false (s : list bool) : list bool := map negb s.

(** [_hypertensive_categories] *)
Definition _hypertensive_categories (mask : list bool)
    (population : list simulant)
  : list bool * list bool * list bool :=
  let age := map age population in
  let systolic_blood_pressure := map systolic_blood_pressure population in
  let under_60 := series_and mask (series_lt age (Fin 60)) in
  let over_60 := series_and mask (series_ge age (Fin 60)) in
  let normotensive :=
    series_and under_60 (series_lt systolic_blood_pressure (Fin 140)) in
  let normotensive :=
    series_or normotensive
      (series_and over_60 (series_lt systolic_blood_pressure (Fin 150))) in
  let hypertensive :=
    series_and
      (series_and under_60 (series_ge systolic_blood_pressure (Fin 140)))
      (series_lt systolic_blood_pressure (Fin 180)) in
  let hypertensive :=
    series_or hypertensive
      (series_and
         (series_and over_60 (series_ge systolic_blood_pressure (Fin 150)))
         (series_lt systolic_blood_pressure (Fin 180))) in
  let severe_hypertension :=
    series_and mask (series_ge systolic_blood_pressure (Fin 180)) in
  (normotensive, hypertensive, severe_hypertension).

(** [population.loc[mask, column] = value], for the three columns the
    module writes. *)
Fixpoint loc_set (mask : list bool) (write : simulant -> simulant)
    (population : list simulant) : list simulant :=
  match population, mask with
  | s :: population', b :: mask' =>
      (if b then write s else s) :: loc_set mask' write population'
  | _, _ => population
  end.

Definition set_followup_date (d : Q) (s : simulant) : simulant :=
  mkSimulant (age s) (systolic_blood_pressure s) (Some d)
             (taking_blood_pressure_medication_a s)
             (taking_blood_pressure_medication_b s).

Definition set_medication_a (v : bool) (s : simulant) : simulant :=
  mkSimulant (age s) (systolic_blood_pressure s) (healthcare_followup_date s)
             v (taking_blood_pressure_medication_b s).

Definition set_medication_b (v : bool) (s : simulant) : simulant :=
  mkSimulant (age s) (systolic_blood_pressure s) (healthcare_followup_date s)
             (taking_blood_pressure_medication_a s) v.

(** [timedelta(days=30.5 * months)] *)
Definition months (n : Q) : Q := ((61 # 2) * n)%Q.

(** [self.cost_by_year], a [defaultdict(int)]. *)
Fixpoint cost_get (year : Z) (costs : list (Z * Q)) : Q :=
  match costs with
  | [] => 0%Q
  | (y, c) :: costs' => if Z.eqb year y then c else cost_get year costs'
  end.

Fixpoint cost_set (year : Z) (c : Q) (costs : list (Z * Q)) : list (Z * Q) :=
  match costs with
  | [] => [(year, c)]
  | (y, c') :: costs' =>
      if Z.eqb year y then (y, c) :: costs'
      else (y, c') :: cost_set year c costs'
  end.

(** [sum(mask)] *)
Definition sum_mask (mask : list bool) : Q :=
  inject_Z (Z.of_nat (length (filter (fun b : bool => b) mask))).

Record Simulation : Type := mkSimulation {
  current_time : Q;
  simulation_population : list simulant
}.

Section Calendar.

(** The year of a date; the calendar itself is not modelled. *)
Variable year_of : Q -> Z.

(** [OpportunisticScreeningModule.non_followup_blood_pressure_test] *)
Definition non_followup_blood_pressure_test (cost_by_year : list (Z * Q))
    (mask : list bool) (simulation : Simulation)
  : list (Z * Q) * Simulation :=
  let year := year_of (current_time simulation) in
  let cost_by_year :=
    cost_set year (cost_get year cost_by_year + sum_mask mask * 3)%Q
             cost_by_year in
  let population := simulation_population simulation in
  let now := current_time simulation in
  let '(normotensive, hypertensive, severe_hypertension) :=
    _hypertensive_categories mask population in
  let population :=
    loc_set normotensive (set_followup_date (now + months 60)%Q) population in
  let population :=
    loc_set hypertensive (set_followup_date (now + months 1)%Q) population in
  let population :=
    loc_set severe_hypertension (set_followup_date (now + months 6)%Q)
            population in
  let population :=
    loc_set severe_hypertension (set_medication_a true) population in
  let population :=
    loc_set severe_hypertension (set_medication_b true) population in
  (cost_by_year, mkSimulation now population).

(** [OpportunisticScreeningModule.followup_blood_pressure_test] *)
Definition followup_blood_pressure_test (cost_by_year : list (Z * Q))
    (mask : list bool) (simulation : Simulation)
  : list (Z * Q) * Simulation :=
  let year := year_of (current_time simulation) in
  let cost_by_year :=
    cost_set year (cost_get year cost_by_year + sum_mask mask * 3)%Q
             cost_by_year in
  let population := simulation_population simulation in
  let now := current_time simulation in
  let '(normotensive, hypertensive, severe_hypertension) :=
    _hypertensive_categories mask population in
  let medication_a := map taking_blood_pressure_medication_a population in
  let medication_b := map taking_blood_pressure_medication_b population in
  let nonmedicated_normotensive :=
    series_and (series_and normotensive (series_is_false medication_a))
               (series_is_false medication_b) in
  let medicated_normotensive :=
    series_and normotensive
      (series_or (series_is_false medication_a)
                 (series_is_false medication_b)) in
  let population :=
    loc_set nonmedicated_normotensive
            (set_followup_date (now + months 60)%Q) population in
  let population :=
    loc_set medicated_normotensive
            (set_followup_date (now + months 11)%Q) population in
  let population :=
    loc_set medicated_normotensive (set_medication_a false) population in
  let population :=
    loc_set medicated_normotensive (set_medication_b false) population in
  let population :=
    loc_set hypertensive (set_followup_date (now + months 6)%Q) population in
  let population :=
    loc_set hypertensive (set_medication_a true) population in
  let population :=
    loc_set severe_hypertension (set_followup_date (now + months 6)%Q)
            population in
  let population :=
    loc_set severe_hypertension (set_medication_a true) population in
  let population :=
    loc_set severe_hypertension (set_medication_b true) population in
  (cost_by_year, mkSimulation now population).

End Calendar.

(** [np.isnan] *)
Definition is_nan (x : float) : bool :=
  match x with NaN => true | _ => false end.

(** The simulants that [_hypertensive_categories] can place: the blood
    pressure is a number, and so is the age unless the pressure is 180 or
    more. *)
Definition classifiable (s : simulant) : bool :=
  negb (is_nan (systolic_blood_pressure s)) &&
  (negb (is_nan (age s)) || fge (systolic_blood_pressure s) (Fin 180)).

(** ** tests/framework/results/helpers.py *)

(** [sorted(l)] on a list of strings: a stable sort by [<=]. *)
Fixpoint insert_str (x : string) (l : list string) : list string :=
  match l with
  | [] => [x]
  | y :: l' => if String.leb x y then x :: l else y :: insert_str x l'
  end.

Definition sorted (l : list string) : list string :=
  fold_right insert_str [] l.

Fixpoint list_eqb (a b : list string) : bool :=
  match a, b with
  | [], [] => true
  | x :: a', y :: b' => String.eqb x y && list_eqb a' b'
  | _, _ => false
  end.

(** What [verify_stratification_added] reads of a stratification; a
    mapper is a function object, compared by identity, and stands here
    under its name. *)
Record Stratification : Type := mkStratification {
  stratification_name : string;
  stratification_sources : list string;
  stratification_categories : list string;
  stratification_mapper : string;
  stratification_is_vectorized : bool
}.

(** [verify_stratification_added] *)
Definition verify_stratification_added
    (stratification_list : list Stratification) (name : string)
    (sources categories : list string) (mapper : string)
    (is_vectorized : bool) : bool :=
  existsb
    (fun stratification =>
       String.eqb (stratification_name stratification) name
       && list_eqb (sorted (stratification_categories stratification))
                   (sorted categories)
       && String.eqb (stratification_mapper stratification) mapper
       && Bool.eqb (stratification_is_vectorized stratification)
                   is_vectorized
       && list_eqb (sorted (stratification_sources stratification))
                   (sorted sources))
    stratification_list.

(** ** Example inputs *)

(** The [State] objects that the example transitions lead to. *)
Definition state_B : state_ref := mkRef 1 "B".

Definition state_C : state_ref := mkRef 2 "C".


Definition step_only_component : Component :=
  mkComponent "step_only" [] None []
    (mkRequirements [] [] []) None
    DEFAULT_EVENT_PRIORITY DEFAULT_EVENT_PRIORITY 7%Z DEFAULT_EVENT_PRIORITY
    DEFAULT_EVENT_PRIORITY DEFAULT_EVENT_PRIORITY
    (fun h => hook_eqb h on_time_step) None.

Definition empty_builder : Builder :=
  mkBuilder (fun _ => None) [] [] [] [].

Definition const_probability (q : Q) (agents : frame) : array :=
  np_full (length (rows agents)) (Fin q).

(** A probability function that tells agent 0 from the others. *)
Definition split_probability (q0 q : Q) (agents : frame) : array :=
  map (fun r => if rid r =? 0 then Fin q0 else Fin q) (rows agents).

Definition no_draw (agents : frame) : array :=
  np_full (length (rows agents)) fzero.

Definition two_agents : frame :=
  mkFrame ["age"; "state"]%string
          [mkRow 0 [VInt 30; VStr "A"]; mkRow 1 [VInt 41; VStr "A"]].

(** Agent 0 has total 6/5, agent 1 has total 1/10. *)
Definition overfull_state : State :=
  mkState "A"
    (mkTransitionSet true
       [mkTransition state_B (split_probability (9 # 10) (1 # 20));
        mkTransition state_C (split_probability (3 # 10) (1 # 20))]).

(** Two transitions built without a probability function. *)
Definition two_defaults : TransitionSet :=
  mkTransitionSet true [Transition_default state_B; Transition_default state_C].

Definition one_agent : frame :=
  mkFrame ["age"; "state"]%string [mkRow 0 [VInt 30; VStr "A"]].

(** To [B] with probability 3/10, to [C] with probability 2/10. *)
Definition three_two_set : TransitionSet :=
  mkTransitionSet true
    [mkTransition state_B (const_probability (3 # 10));
     mkTransition state_C (const_probability (2 # 10))].

Definition const_draw (q : Q) (agents : frame) : array :=
  np_full (length (rows agents)) (Fin q).

(** Null transitions disallowed, and no transition has any probability. *)
Definition zero_set : TransitionSet :=
  mkTransitionSet false
    [mkTransition state_B (const_probability 0);
     mkTransition state_C (const_probability 0)].

(** Null transitions disallowed: to [B] with 1/10, to [C] with 3/10. *)
Definition one_three_set : TransitionSet :=
  mkTransitionSet false
    [mkTransition state_B (const_probability (1 # 10));
     mkTransition state_C (const_probability (3 # 10))].

Definition machine_a : Machine :=
  mkMachine
    [mkState "A" three_two_set; State_init "B"; State_init "C"] "state".

(** A draw that depends on the agent's identity only. *)
Definition draw_by_rid (agents : frame) : array :=
  map (fun r => Fin (Z.of_nat (rid r) # 10)) (rows agents).

Definition population : frame :=
  mkFrame ["age"; "state"]%string
    [mkRow 0 [VInt 30; VStr "A"]; mkRow 1 [VInt 41; VStr "B"];
     mkRow 2 [VInt 52; VStr "A"]; mkRow 3 [VInt 63; VStr "A"];
     mkRow 4 [VInt 25; VStr "C"]; mkRow 7 [VInt 18; VStr "A"]].

(** A state with two transitions to the same target. *)
Definition twice_to_b : State :=
  mkState "A"
    (mkTransitionSet true
       [mkTransition state_B (const_probability (3 # 10));
        mkTransition state_B (const_probability (2 # 10))]).

(** [population] with one more agent, whose state no state of
    [machine_a] declares. *)
Definition population_with_stranger : frame :=
  mkFrame (columns population)
          (rows population ++ [mkRow 9 [VInt 50; VStr "Z"]]).

(** A component with two standard lookup tables, and a builder whose
    configuration was written with [build_lookup_table_config]: a constant
    rate, and weights loaded from data. *)
Definition lookup_component : Component :=
  mkComponent "risk" [] None ["rate"; "weights"]%string
    (mkRequirements [] [] []) None
    DEFAULT_EVENT_PRIORITY DEFAULT_EVENT_PRIORITY DEFAULT_EVENT_PRIORITY
    DEFAULT_EVENT_PRIORITY DEFAULT_EVENT_PRIORITY DEFAULT_EVENT_PRIORITY
    (fun _ => false) None.

Definition lookup_builder : Builder :=
  mkBuilder
    (fun component => Some (fun key =>
       if String.eqb key "rate" then
         read_lookup_config
           (build_lookup_table_config (VInt 3) [] [] None [])
       else if String.eqb key "weights" then
         read_lookup_config
           (build_lookup_table_config (VStr "data") ["age"]%string
              ["sex"]%string (Some "risk.weights"%string) [])
       else None))
    [] [] [] [].

(** The same, with the weights declared as data but without a key. *)
Definition keyless_builder : Builder :=
  mkBuilder
    (fun component => Some (fun key =>
       if String.eqb key "rate" then
         read_lookup_config
           (build_lookup_table_config (VInt 3) [] [] None [])
       else if String.eqb key "weights" then
         read_lookup_config
           (build_lookup_table_config (VStr "data") ["age"]%string
              ["sex"]%string None [])
       else None))
    [] [] [] [].

(** A component whose only standard lookup table is the weights. *)
Definition weights_component : Component :=
  mkComponent "risk" [] None ["weights"]%string
    (mkRequirements [] [] []) None
    DEFAULT_EVENT_PRIORITY DEFAULT_EVENT_PRIORITY DEFAULT_EVENT_PRIORITY
    DEFAULT_EVENT_PRIORITY DEFAULT_EVENT_PRIORITY DEFAULT_EVENT_PRIORITY
    (fun _ => false) None.

(** Four simulants at a screening: normotensive at 45, hypertensive at
    70 on both medications, of unknown age, and severely hypertensive. *)
Definition screened : list simulant :=
  [mkSimulant (Fin 45) (Fin 130) None false false;
   mkSimulant (Fin 70) (Fin 160) (Some 10%Q) true true;
   mkSimulant NaN (Fin 150) None false false;
   mkSimulant (Fin 50) (Fin 190) None false true].

(** As [twice_to_b], with a second [State] object of the same
    identifier as the target of the second transition. *)
Definition twice_to_b_objects : State :=
  mkState "A"
    (mkTransitionSet true
       [mkTransition state_B (const_probability (3 # 10));
        mkTransition (mkRef 5 "B") (const_probability (2 # 10))]).

(** Four agents, each with the total 1/2: over the cohort the totals
    add up to 2. *)
Definition four_agents : frame :=
  mkFrame ["age"; "state"]%string
          [mkRow 0 [VInt 30; VStr "A"]; mkRow 1 [VInt 41; VStr "A"];
           mkRow 2 [VInt 52; VStr "A"]; mkRow 3 [VInt 63; VStr "A"]].

Definition half_state : State :=
  mkState "A"
    (mkTransitionSet true
       [mkTransition state_B (const_probability (3 # 10));
        mkTransition state_C (const_probability (2 # 10))]).

(** * Properties *)

Unset Implicit Arguments.

(** ** Component setup *)

(** C7. [_set_population_view] follows the precedence of the spec: a
    non-empty [columns_required] gives a view on the created plus the
    required columns, the empty list a view on all columns, [None] with
    created columns a view on the created columns only, and [None] without
    created columns creates no view (instance and builder are left as they
    were). *)
Theorem C7_set_population_view_precedence
    (c : Component) (self : instance) (b : Builder)
    (table_columns : list string) :
  match spec_view_columns (columns_created c) (columns_required c)
                          table_columns with
  | Some cols =>
      exists v,
        population_view (fst (_set_population_view c self b)) = Some v /\
        view_columns table_columns v = cols /\
        view_query v = population_view_query c /\
        views (snd (_set_population_view c self b)) = views b ++ [v]
  | None =>
      _set_population_view c self b = (self, b)
  end.
Proof.
  unfold _set_population_view, spec_view_columns.
  destruct (columns_required c) as [[| r rs] |]; simpl.
  - eexists. repeat split.
  - eexists. repeat split.
    unfold view_columns; simpl.
    destruct (columns_created c); reflexivity.
  - destruct (columns_created c) as [| x xs]; simpl.
    + reflexivity.
    + eexists. repeat split.
Qed.

Lemma build_lookup_tables_loop_Ok (c : Component) (b : Builder)
    (names : list string) :
  forallb (fun n =>
             match configuration_entry b (name c) n with
             | None => false
             | Some cfg =>
                 if value_eqb (cfg_value cfg) (VStr "data")
                 then negb (is_None (key_name cfg))
                 else true
             end) names = true ->
  forall tables, exists tables',
    build_lookup_tables_loop c b names tables = Ok tables'.
Proof.
  induction names as [| n names IH]; simpl; intros H tables.
  - exists tables. reflexivity.
  - apply andb_true_iff in H. destruct H as [Hn Hrest].
    unfold configuration_entry in Hn.
    destruct (configuration b (name c)) as [component_configuration |];
      [| discriminate Hn].
    destruct (component_configuration n) as [cfg |]; [| discriminate Hn].
    destruct (value_eqb (cfg_value cfg) (VStr "data")).
    + destruct (key_name cfg) as [key |]; [| discriminate Hn].
      simpl. apply IH. exact Hrest.
    + simpl. apply IH. exact Hrest.
Qed.

Lemma set_population_view_listeners (c : Component) (self : instance)
    (b : Builder) :
  listeners (snd (_set_population_view c self b)) = listeners b.
Proof.
  unfold _set_population_view.
  destruct (opt_truthy (columns_required c)); [reflexivity |].
  destruct (is_empty_list (columns_required c)); [reflexivity |].
  destruct (is_None (columns_required c) && truthy (columns_created c));
    reflexivity.
Qed.

Ltac split_overrides c :=
  destruct (overrides c on_post_setup);
  destruct (overrides c on_initialize_simulants);
  destruct (overrides c on_time_step_prepare);
  destruct (overrides c on_time_step);
  destruct (overrides c on_time_step_cleanup);
  destruct (overrides c on_collect_metrics);
  destruct (overrides c on_simulation_end).

Lemma register_chain_listeners (c : Component) (b : Builder) :
  listeners
    (_register_simulation_end_listener c
       (_register_collect_metrics_listener c
          (_register_time_step_cleanup_listener c
             (_register_time_step_listener c
                (_register_time_step_prepare_listener c
                   (_register_simulant_initializer c
                      (_register_post_setup_listener c b)))))))
  = listeners b ++ spec_listeners c.
Proof.
  unfold _register_simulation_end_listener,
    _register_collect_metrics_listener, _register_time_step_cleanup_listener,
    _register_time_step_listener, _register_time_step_prepare_listener,
    _register_simulant_initializer, _register_post_setup_listener,
    spec_listeners, event_hooks.
  simpl flat_map.
  split_overrides c; simpl; repeat rewrite <- app_assoc; simpl;
    try rewrite app_nil_r; reflexivity.
Qed.

Lemma set_population_view_initializers (c : Component) (self : instance)
    (b : Builder) :
  initializers (snd (_set_population_view c self b)) = initializers b.
Proof.
  unfold _set_population_view.
  destruct (opt_truthy (columns_required c)); [reflexivity |].
  destruct (is_empty_list (columns_required c)); [reflexivity |].
  destruct (is_None (columns_required c) && truthy (columns_created c));
    reflexivity.
Qed.

Lemma register_chain_initializers (c : Component) (b : Builder) :
  initializers
    (_register_simulation_end_listener c
       (_register_collect_metrics_listener c
          (_register_time_step_cleanup_listener c
             (_register_time_step_listener c
                (_register_time_step_prepare_listener c
                   (_register_simulant_initializer c
                      (_register_post_setup_listener c b)))))))
  = initializers b
    ++ if overrides c on_initialize_simulants
       then [mkInitializer (name c, on_initialize_simulants)
                           (columns_created c)
                           (initialization_requirements c)]
       else [].
Proof.
  unfold _register_simulation_end_listener,
    _register_collect_metrics_listener, _register_time_step_cleanup_listener,
    _register_time_step_listener, _register_time_step_prepare_listener,
    _register_simulant_initializer, _register_post_setup_listener.
  split_overrides c; simpl; try rewrite app_nil_r; reflexivity.
Qed.

Lemma spec_listeners_count (c : Component) (h : hook) :
  In h event_hooks ->
  count_event (hook_event h) (spec_listeners c)
  = if overrides c h then 1 else 0.
Proof.
  intros Hin. unfold spec_listeners, event_hooks, count_event.
  simpl flat_map.
  simpl in Hin.
  destruct Hin as [<- | [<- | [<- | [<- | [<- | [<- | []]]]]]];
    split_overrides c; reflexivity.
Qed.

Lemma spec_listeners_shape (c : Component) (x : string * callback * Z) :
  In x (spec_listeners c) ->
  exists h, In h event_hooks /\ overrides c h = true /\
            x = (hook_event h, (name c, h), hook_priority c h).
Proof.
  unfold spec_listeners. intros Hx.
  apply in_flat_map in Hx. destruct Hx as [h [Hh Hx]].
  exists h. destruct (overrides c h).
  - simpl in Hx. destruct Hx as [<- | []]. repeat split. exact Hh.
  - contradiction Hx.
Qed.

(** C6. When the lookup tables are configured and the custom setup
    returns, [setup_component] returns, and the listeners it adds after the
    custom setup are: on every phase, one listener if the phase's hook is
    overridden and none otherwise, each bound to the component's own hook
    at the declared priority of that phase; a simulant initializer is
    added under the same condition on [on_initialize_simulants].  A
    component that overrides [on_time_step] only (and inherits [setup])
    adds exactly the listener on ["time_step"] at [time_step_priority]. *)
Theorem C6_setup_component_registers_overridden
    (c : Component) (self : instance) (b b1 : Builder) :
  tables_configured c b = true ->
  run_setup c (snd (get_logger b (name c))) = Ok b1 ->
  exists self' b' new,
    setup_component c self b = Ok (self', b') /\
    listeners b' = listeners b1 ++ new /\
    (forall h, In h event_hooks ->
       count_event (hook_event h) new = if overrides c h then 1 else 0) /\
    (forall x, In x new ->
       exists h, In h event_hooks /\ overrides c h = true /\
                 x = (hook_event h, (name c, h), hook_priority c h)) /\
    initializers b' =
      initializers b1
      ++ (if overrides c on_initialize_simulants
          then [mkInitializer (name c, on_initialize_simulants)
                              (columns_created c)
                              (initialization_requirements c)]
          else []) /\
    (setup c = None ->
     (forall h, overrides c h = hook_eqb h on_time_step) ->
     listeners b' =
     listeners b ++ [("time_step"%string, (name c, on_time_step),
                      time_step_priority c)]).
Proof.
  intros Hcfg Hsetup.
  unfold setup_component.
  destruct (build_lookup_tables_loop_Ok c (snd (get_logger b (name c)))
              (standard_lookup_tables c) Hcfg
              (lookup_tables (mkInstance (Some (fst (get_logger b (name c))))
                                (population_view self) (lookup_tables self))))
    as [tables Htables].
  unfold build_lookup_tables. rewrite Htables.
  unfold bind at 1. cbv beta iota.
  rewrite Hsetup. unfold bind.
  eexists. eexists. exists (spec_listeners c).
  split; [reflexivity |].
  simpl snd. simpl fst.
  rewrite register_chain_listeners, set_population_view_listeners.
  split; [reflexivity |].
  split; [apply spec_listeners_count |].
  split; [apply spec_listeners_shape |].
  split.
  { rewrite register_chain_initializers, set_population_view_initializers.
    reflexivity. }
  intros Hnone Honly.
  unfold run_setup in Hsetup. rewrite Hnone in Hsetup.
  injection Hsetup as <-. simpl.
  unfold spec_listeners, event_hooks. simpl flat_map.
  rewrite !Honly. reflexivity.
Qed.

Lemma C6_setup_component_registers_overridden_witness :
  exists self' b' new,
    setup_component step_only_component Component_init empty_builder
    = Ok (self', b') /\
    listeners b' = [] ++ new /\
    (forall h, In h event_hooks ->
       count_event (hook_event h) new
       = if overrides step_only_component h then 1 else 0) /\
    (forall x, In x new ->
       exists h, In h event_hooks /\ overrides step_only_component h = true /\
                 x = (hook_event h, (name step_only_component, h),
                      hook_priority step_only_component h)) /\
    initializers b' = [] ++ [] /\
    (setup step_only_component = None ->
     (forall h, overrides step_only_component h = hook_eqb h on_time_step) ->
     listeners b' =
     [] ++ [("time_step"%string, ("step_only"%string, on_time_step), 7%Z)]).
Proof.
  apply (C6_setup_component_registers_overridden
           step_only_component Component_init empty_builder
           (snd (get_logger empty_builder "step_only"))).
  - reflexivity.
  - reflexivity.
Defined.

(** ** The result monad *)

Lemma bind_Ok_inv {A B : Type} (r : result A) (k : A -> result B) (b : B) :
  bind r k = Ok b -> exists a, r = Ok a /\ k a = Ok b.
Proof.
  destruct r as [a | e]; simpl; intros H.
  - exists a. split; [reflexivity | exact H].
  - discriminate H.
Qed.

(** ** Arrays: columns of the vectorised operations *)

Lemma zip_with_length {A B C : Type} (f : A -> B -> C) (a : list A)
    (b : list B) :
  length (zip_with f a b) = Nat.min (length a) (length b).
Proof.
  unfold zip_with. rewrite length_map, length_combine. reflexivity.
Qed.

Lemma zip_with_nth {A B C : Type} (f : A -> B -> C) (a : list A) (b : list B)
    (j : nat) (da : A) (db : B) (dc : C) :
  j < length a -> j < length b ->
  nth j (zip_with f a b) dc = f (nth j a da) (nth j b db).
Proof.
  revert b j. induction a as [| x a IH]; intros [| y b] j Ha Hb;
    simpl in *; try lia.
  destruct j as [| j]; [reflexivity |].
  apply IH; lia.
Qed.

Lemma all_length_forallb (n : nat) (m : matrix) :
  forallb (fun p => length p =? n) m = true <-> all_length n m.
Proof.
  unfold all_length. rewrite forallb_forall, Forall_forall.
  split; intros H x Hx.
  - apply Nat.eqb_eq, H, Hx.
  - apply Nat.eqb_eq, H, Hx.
Qed.

Lemma fold_zip_with_length {A B : Type} (f : A -> B -> A) (n : nat)
    (m : list (list B)) (acc : list A) :
  Forall (fun r => length r = n) m -> length acc = n ->
  length (fold_left (zip_with f) m acc) = n.
Proof.
  revert acc. induction m as [| r m IH]; intros acc Hm Hacc; simpl.
  - exact Hacc.
  - inversion Hm as [| r' m' Hr Hm']; subst.
    apply IH; [exact Hm' |].
    rewrite zip_with_length. lia.
Qed.

Lemma fold_zip_with_nth (n : nat) (m : matrix) (acc : array) (j : nat) :
  all_length n m -> length acc = n -> j < n ->
  nth j (fold_left (zip_with fadd) m acc) NaN
  = fold_left fadd (column j m) (nth j acc NaN).
Proof.
  revert acc. induction m as [| r m IH]; intros acc Hm Hacc Hj; simpl.
  - reflexivity.
  - inversion Hm as [| r' m' Hr Hm']; subst.
    rewrite IH; [| exact Hm' | rewrite zip_with_length; lia | exact Hj].
    rewrite (zip_with_nth fadd acc r j NaN NaN NaN) by lia.
    reflexivity.
Qed.

Lemma np_sum_axis0_length (n : nat) (m : matrix) :
  all_length n m -> length (np_sum_axis0 n m) = n.
Proof.
  intros Hm. destruct m as [| r m]; simpl.
  - apply repeat_length.
  - inversion Hm as [| r' m' Hr Hm']; subst.
    apply fold_zip_with_length; auto.
Qed.

Lemma np_sum_axis0_nth (n : nat) (m : matrix) (j : nat) :
  all_length n m -> m <> [] -> j < n ->
  nth j (np_sum_axis0 n m) NaN = fsum (column j m).
Proof.
  intros Hm Hne Hj. destruct m as [| r m]; [contradiction Hne; reflexivity |].
  inversion Hm as [| r' m' Hr Hm']; subst. simpl.
  apply fold_zip_with_nth with (n := length r); auto.
Qed.

Lemma np_any_gt_intro (a : array) (bound : float) (j : nat) :
  j < length a -> fgt (nth j a NaN) bound = true ->
  np_any_gt a bound = true.
Proof.
  intros Hj Hgt. unfold np_any_gt. apply existsb_exists.
  exists (nth j a NaN). split; [apply nth_In; exact Hj | exact Hgt].
Qed.

Lemma probabilities_shaped_all_length (ts : TransitionSet) (agents : frame) :
  probabilities_shaped ts agents = true ->
  all_length (length (rows agents))
             (map (fun t => probability t agents) (transitions ts)).
Proof.
  unfold probabilities_shaped, all_length. intros H.
  apply Forall_forall. intros r Hr.
  apply in_map_iff in Hr. destruct Hr as [t [<- Ht]].
  rewrite forallb_forall in H. apply Nat.eqb_eq, H, Ht.
Qed.

(** ** The conservation check *)

Lemma outcome_probabilities_conservation
    (ts : TransitionSet) (agents : frame) (j : nat) :
  allow_null_transition ts = true ->
  probabilities_shaped ts agents = true ->
  j < length (rows agents) ->
  fgt (agent_total ts agents j) fone = true ->
  outcome_probabilities ts agents = Err conservation_error.
Proof.
  intros Hnull Hshape Hj Hgt.
  pose proof (probabilities_shaped_all_length ts agents Hshape) as Hlen.
  unfold outcome_probabilities.
  destruct (transitions ts) as [| t l] eqn:Hts.
  - unfold agent_total, agent_probabilities, raw_probabilities in Hgt. rewrite Hts in Hgt.
    simpl in Hgt. discriminate Hgt.
  - rewrite <- Hts in *.
    pose proof (proj2 (all_length_forallb _ _) Hlen) as Hb.
    rewrite Hb. simpl negb.
    cbv iota. rewrite Hnull. simpl negb. cbv iota.
    rewrite (np_any_gt_intro _ fone j).
    + reflexivity.
    + rewrite np_sum_axis0_length; [exact Hj | exact Hlen].
    + rewrite np_sum_axis0_nth; [exact Hgt | exact Hlen | | exact Hj].
      rewrite Hts. discriminate.
Qed.

Lemma agent_total_nonempty (ts : TransitionSet) (agents : frame) (j : nat) :
  fgt (agent_total ts agents j) fone = true -> transitions ts <> [].
Proof.
  intros Hgt Hnil. unfold agent_total, agent_probabilities, raw_probabilities in Hgt.
  rewrite Hnil in Hgt. discriminate Hgt.
Qed.

Lemma groupby_new_state_Err (gd : frame -> array) (ts : TransitionSet)
    (agents : frame) (e : error) :
  outcome_probabilities ts agents = Err e ->
  groupby_new_state gd ts agents = Err e.
Proof.
  intros H. unfold groupby_new_state, output_indexes. rewrite H. reflexivity.
Qed.

Lemma next_state_Err (gd : frame -> array) (s : State) (agents : frame)
    (col : string) (e : error) :
  transitions (transition_set s) <> [] ->
  groupby_new_state gd (transition_set s) agents = Err e ->
  next_state gd s agents col = Err e.
Proof.
  intros Hne H. unfold next_state.
  destruct (transitions (transition_set s)) as [| t l];
    [contradiction Hne; reflexivity |].
  simpl. rewrite H. reflexivity.
Qed.

Lemma np_any_gt_elim (a : array) (bound : float) :
  np_any_gt a bound = true ->
  exists j, j < length a /\ fgt (nth j a NaN) bound = true.
Proof.
  unfold np_any_gt. intros H. apply existsb_exists in H.
  destruct H as [x [Hin Hgt]].
  destruct (In_nth a x NaN Hin) as [j [Hj Hx]].
  exists j. split; [exact Hj | rewrite Hx; exact Hgt].
Qed.

Lemma outcome_probabilities_conservation_inv
    (ts : TransitionSet) (agents : frame) :
  probabilities_shaped ts agents = true ->
  outcome_probabilities ts agents = Err conservation_error ->
  exists j, j < length (rows agents) /\
            fgt (agent_total ts agents j) fone = true.
Proof.
  intros Hshape H.
  pose proof (probabilities_shaped_all_length ts agents Hshape) as Hlen.
  unfold outcome_probabilities in H.
  destruct (transitions ts) as [| t l] eqn:Hts; [discriminate H |].
  rewrite <- Hts in *.
  rewrite (proj2 (all_length_forallb _ _) Hlen) in H.
  simpl negb in H. cbv iota in H.
  destruct (negb (allow_null_transition ts)); [discriminate H |].
  destruct (np_any_gt _ fone) eqn:Hany; [| discriminate H].
  apply np_any_gt_elim in Hany. destruct Hany as [j [Hj Hgt]].
  rewrite np_sum_axis0_length in Hj by exact Hlen.
  rewrite np_sum_axis0_nth in Hgt;
    [| exact Hlen | rewrite Hts; discriminate | exact Hj].
  exists j. split; [exact Hj | exact Hgt].
Qed.

Lemma groups_dict_Err (outputs : list outcome) (groups : list (nat * frame))
    (acc : dict frame) (e : error) :
  groups_dict outputs groups acc = Err e -> e = IndexError.
Proof.
  revert acc. induction groups as [| [k sub] groups IH]; intros acc H;
    simpl in H; [discriminate H |].
  destruct (nth_error outputs k); [apply (IH _ H) |].
  injection H as <-. reflexivity.
Qed.

Lemma groupby_new_state_conservation_inv (get_draw : frame -> array)
    (ts : TransitionSet) (agents : frame) :
  groupby_new_state get_draw ts agents = Err conservation_error ->
  outcome_probabilities ts agents = Err conservation_error.
Proof.
  unfold groupby_new_state, output_indexes. intros H.
  destruct (outcome_probabilities ts agents) as [op | e];
    [| simpl in H; injection H as ->; reflexivity].
  cbn [bind] in H.
  destruct (negb (length (get_draw agents) =? length (rows agents)));
    [discriminate H |].
  cbn [bind fst snd] in H. apply groups_dict_Err in H. discriminate H.
Qed.

Lemma insert_by_str_not_nil {V : Type} (x : outcome * V)
    (l : list (outcome * V)) :
  insert_by_str x l <> [].
Proof.
  destruct l as [| y l]; simpl; [discriminate |].
  destruct (String.leb (outcome_str (fst x)) (outcome_str (fst y)));
    discriminate.
Qed.

Lemma next_state_Err_inv (get_draw : frame -> array) (s : State)
    (agents : frame) (col : string) (e : error) :
  next_state get_draw s agents col = Err e ->
  groupby_new_state get_draw (transition_set s) agents = Err e.
Proof.
  unfold next_state. intros H.
  destruct (length (transitions (transition_set s)) =? 0); [discriminate H |].
  destruct (groupby_new_state get_draw (transition_set s) agents)
    as [groups | e']; [| simpl in H; injection H as ->; reflexivity].
  cbn [bind] in H. destruct groups as [| g groups]; [discriminate H |].
  unfold sorted_by_str in H. cbn [fold_right] in H.
  destruct (insert_by_str g (fold_right insert_by_str [] groups)) eqn:E;
    [apply insert_by_str_not_nil in E; contradiction |].
  discriminate H.
Qed.

(** C1. With null transitions allowed (and one probability per agent
    from every transition), [groupby_new_state] raises the conservation
    error exactly when some agent's own probabilities add up to more than
    1: one such agent is enough, whatever the other agents' totals are,
    and totals that exceed 1 only when added up over the cohort raise
    nothing.  The same holds of the state's [next_state], which raises
    the error in place of a result, so that no sub-cohort is formed and no
    [transition_effect] writes a state column. *)
Theorem C1_conservation_error_per_agent
    (get_draw : frame -> array) (s : State) (agents : frame)
    (state_column : string) :
  allow_null_transition (transition_set s) = true ->
  probabilities_shaped (transition_set s) agents = true ->
  (groupby_new_state get_draw (transition_set s) agents
   = Err conservation_error
   <-> exists j, j < length (rows agents) /\
                 fgt (agent_total (transition_set s) agents j) fone = true) /\
  (next_state get_draw s agents state_column = Err conservation_error
   <-> exists j, j < length (rows agents) /\
                 fgt (agent_total (transition_set s) agents j) fone = true).
Proof.
  intros Hnull Hshape.
  assert (Hraise : (exists j, j < length (rows agents) /\
                      fgt (agent_total (transition_set s) agents j) fone
                      = true) ->
                   groupby_new_state get_draw (transition_set s) agents
                   = Err conservation_error).
  { intros [j [Hj Hgt]]. apply groupby_new_state_Err.
    apply outcome_probabilities_conservation with (j := j); assumption. }
  assert (Hinv : groupby_new_state get_draw (transition_set s) agents
                 = Err conservation_error ->
                 exists j, j < length (rows agents) /\
                   fgt (agent_total (transition_set s) agents j) fone = true).
  { intros H. apply outcome_probabilities_conservation_inv; [exact Hshape |].
    apply (groupby_new_state_conservation_inv get_draw). exact H. }
  split; split.
  - exact Hinv.
  - exact Hraise.
  - intros H. apply Hinv. apply (next_state_Err_inv _ _ _ state_column).
    exact H.
  - intros Hex. apply next_state_Err; [| apply Hraise; exact Hex].
    destruct Hex as [j [_ Hgt]].
    apply agent_total_nonempty with (agents := agents) (j := j). exact Hgt.
Qed.

Lemma C1_conservation_error_per_agent_witness :
  (fgt (agent_total (transition_set overfull_state) two_agents 1) fone
   = false /\
   groupby_new_state no_draw (transition_set overfull_state) two_agents
   = Err conservation_error /\
   next_state no_draw overfull_state two_agents "state"
   = Err conservation_error) /\
  (fgt (fold_left fadd
          (np_sum_axis0 4 (raw_probabilities (transition_set half_state)
                                             four_agents))
          fzero) fone = true /\
   groupby_new_state no_draw (transition_set half_state) four_agents
   <> Err conservation_error /\
   next_state no_draw half_state four_agents "state"
   <> Err conservation_error).
Proof.
  split.
  - split; [reflexivity |].
    destruct (C1_conservation_error_per_agent
                no_draw overfull_state two_agents "state"%string
                eq_refl eq_refl) as [Hg Hn].
    split; [apply (proj2 Hg) | apply (proj2 Hn)];
      (exists 0; split; [simpl; lia | reflexivity]).
  - split; [reflexivity |].
    destruct (C1_conservation_error_per_agent
                no_draw half_state four_agents "state"%string
                eq_refl eq_refl) as [Hg Hn].
    assert (Hnone : ~ exists j, j < length (rows four_agents) /\
                      fgt (agent_total (transition_set half_state)
                                       four_agents j) fone = true).
    { intros [j [Hj Hgt]].
      do 4 (destruct j as [| j]; [discriminate Hgt |]).
      simpl in Hj. lia. }
    split; intros H; apply Hnone; [apply (proj1 Hg) | apply (proj1 Hn)];
      exact H.
Defined.

(** C8. A state without transitions gives the cohort back as it is. *)
Theorem C8_next_state_empty_transition_set
    (get_draw : frame -> array) (id : string) (allow_null : bool)
    (agents : frame) (state_column : string) :
  next_state get_draw (mkState id (mkTransitionSet allow_null [])) agents
             state_column
  = Ok agents.
Proof.
  reflexivity.
Qed.

(** ** Sums of finite, non-negative floats *)

Lemma fin_ge_weaken (lo lo' : Q) (x : float) :
  (lo' <= lo)%Q -> fin_ge lo x -> fin_ge lo' x.
Proof.
  destruct x as [q | | |]; simpl; intros H1 H2; try contradiction.
  lra.
Qed.

Lemma fadd_fin_ge (a b : Q) (x y : float) :
  fin_ge a x -> fin_ge b y -> fin_ge (a + b) (fadd x y).
Proof.
  destruct x as [p | | |], y as [q | | |]; simpl; intros H1 H2;
    try contradiction.
  lra.
Qed.

Lemma fold_fadd_fin_ge (l : list float) (lo : Q) (a : float) :
  Forall (fin_ge 0) l -> fin_ge lo a -> fin_ge lo (fold_left fadd l a).
Proof.
  revert a. induction l as [| x l IH]; intros a Hl Ha; simpl.
  - exact Ha.
  - inversion Hl as [| x' l' Hx Hl']; subst.
    apply IH; [exact Hl' |].
    apply fin_ge_weaken with (lo := (lo + 0)%Q); [lra |].
    apply fadd_fin_ge; assumption.
Qed.

Lemma fin_ge_gt_one (x : float) : fin_ge 2 x -> fgt x fone = true.
Proof.
  destruct x as [q | | |]; simpl; intros H; try contradiction.
  unfold Qltb. apply negb_true_iff.
  destruct (Qle_bool q 1) eqn:E; [| reflexivity].
  apply Qle_bool_iff in E. lra.
Qed.

Lemma nonneg_finite_fin_ge (x : float) :
  nonneg_finite x = true -> fin_ge 0 x.
Proof.
  destruct x as [q | | |]; simpl; intros H; try discriminate H.
  apply Qle_bool_iff. exact H.
Qed.

Lemma fold_fadd_one (c c' : list float) (a : float) (lo : Q) :
  Forall (fin_ge 0) c -> Forall (fin_ge 0) c' -> fin_ge lo a ->
  fin_ge (lo + 1) (fold_left fadd (c ++ fone :: c') a).
Proof.
  intros Hc Hc' Ha. rewrite fold_left_app. simpl.
  apply fold_fadd_fin_ge; [exact Hc' |].
  apply fadd_fin_ge; [| simpl; lra].
  apply fold_fadd_fin_ge; assumption.
Qed.

Lemma fold_fadd_two (c1 c2 c3 : list float) (a : float) (lo : Q) :
  Forall (fin_ge 0) c1 -> Forall (fin_ge 0) c2 -> Forall (fin_ge 0) c3 ->
  fin_ge lo a ->
  fin_ge (lo + 1 + 1) (fold_left fadd (c1 ++ fone :: c2 ++ fone :: c3) a).
Proof.
  intros H1 H2 H3 Ha. rewrite fold_left_app. simpl.
  apply fold_fadd_one; [exact H2 | exact H3 |].
  apply fadd_fin_ge; [| simpl; lra].
  apply fold_fadd_fin_ge; assumption.
Qed.

Lemma fsum_two_ones (c1 c2 c3 : list float) :
  Forall (fin_ge 0) c1 -> Forall (fin_ge 0) c2 -> Forall (fin_ge 0) c3 ->
  fin_ge 2 (fsum (c1 ++ fone :: c2 ++ fone :: c3)).
Proof.
  intros H1 H2 H3. destruct c1 as [| y c1]; simpl.
  - apply fin_ge_weaken with (lo := (1 + 1)%Q); [lra |].
    apply fold_fadd_one; [exact H2 | exact H3 | simpl; lra].
  - inversion H1 as [| y' c1' Hy Hc1]; subst.
    apply fin_ge_weaken with (lo := (0 + 1 + 1)%Q); [lra |].
    apply fold_fadd_two; assumption.
Qed.

Lemma np_full_nth (n : nat) (v : float) (j : nat) :
  j < n -> nth j (np_full n v) NaN = v.
Proof.
  unfold np_full. revert j. induction n as [| n IH]; intros j Hj; [lia |].
  destruct j as [| j]; simpl; [reflexivity |]. apply IH. lia.
Qed.

Lemma valid_column_fin_ge (agents : frame) (l : list Transition) (j : nat) :
  forallb (probabilities_valid agents) l = true ->
  j < length (rows agents) ->
  Forall (fin_ge 0) (column j (map (fun t => probability t agents) l)).
Proof.
  intros Hl Hj. unfold column. rewrite map_map.
  apply Forall_forall. intros x Hx.
  apply in_map_iff in Hx. destruct Hx as [t [<- Ht]].
  rewrite forallb_forall in Hl. specialize (Hl t Ht).
  unfold probabilities_valid in Hl. apply andb_true_iff in Hl.
  destruct Hl as [Hlen Hval]. apply Nat.eqb_eq in Hlen.
  apply nonneg_finite_fin_ge.
  rewrite forallb_forall in Hval. apply Hval.
  apply nth_In. lia.
Qed.

Lemma valid_shaped (agents : frame) (l : list Transition) :
  forallb (probabilities_valid agents) l = true ->
  forallb (fun t => length (probability t agents) =? length (rows agents)) l
  = true.
Proof.
  intros H. apply forallb_forall. intros t Ht.
  rewrite forallb_forall in H. specialize (H t Ht).
  unfold probabilities_valid in H. apply andb_true_iff in H. tauto.
Qed.

(** C10. A transition built without a probability function gives every
    agent of every cohort the probability 1.  Hence, with null transitions
    allowed, a set that holds two such transitions (next to transitions
    with finite, non-negative probabilities) gives every agent of a
    non-empty cohort a total above 1, and [groupby_new_state] raises the
    conservation error. *)
Theorem C10_two_default_transitions_overflow
    (get_draw : frame -> array) (ts : TransitionSet) (agents : frame)
    (l1 l2 l3 : list Transition) (o1 o2 : state_ref) :
  transitions ts
  = l1 ++ Transition_default o1 :: l2 ++ Transition_default o2 :: l3 ->
  allow_null_transition ts = true ->
  forallb (probabilities_valid agents) (l1 ++ l2 ++ l3) = true ->
  rows agents <> [] ->
  probability (Transition_default o1) agents
  = np_full (length (rows agents)) fone /\
  (forall j, j < length (rows agents) ->
     nth j (probability (Transition_default o1) agents) NaN = fone /\
     fgt (agent_total ts agents j) fone = true) /\
  groupby_new_state get_draw ts agents = Err conservation_error.
Proof.
  intros Hts Hnull Hvalid Hne.
  rewrite !forallb_app in Hvalid.
  apply andb_true_iff in Hvalid. destruct Hvalid as [Hv1 Hv23].
  apply andb_true_iff in Hv23. destruct Hv23 as [Hv2 Hv3].
  assert (Htotal : forall j, j < length (rows agents) ->
                     fgt (agent_total ts agents j) fone = true).
  { intros j Hj. apply fin_ge_gt_one.
    unfold agent_total, agent_probabilities, raw_probabilities, column.
    rewrite Hts.
    rewrite !map_app. simpl. rewrite !map_app. simpl.
    unfold default_probability_func. rewrite (np_full_nth _ fone j Hj).
    apply fsum_two_ones; apply valid_column_fin_ge; assumption. }
  split; [reflexivity |].
  split.
  - intros j Hj. split; [| apply Htotal; exact Hj].
    simpl. unfold default_probability_func. apply np_full_nth. exact Hj.
  - apply groupby_new_state_Err.
    apply outcome_probabilities_conservation with (j := 0).
    + exact Hnull.
    + unfold probabilities_shaped. rewrite Hts.
      rewrite forallb_app. simpl. rewrite forallb_app. simpl.
      unfold default_probability_func, np_full. rewrite repeat_length.
      rewrite Nat.eqb_refl.
      rewrite (valid_shaped agents l1 Hv1), (valid_shaped agents l2 Hv2),
        (valid_shaped agents l3 Hv3).
      reflexivity.
    + destruct (rows agents); [contradiction Hne; reflexivity | simpl; lia].
    + apply Htotal.
      destruct (rows agents); [contradiction Hne; reflexivity | simpl; lia].
Qed.

Lemma C10_two_default_transitions_overflow_witness :
  probability (Transition_default state_B) two_agents
  = np_full (length (rows two_agents)) fone /\
  (forall j, j < length (rows two_agents) ->
     nth j (probability (Transition_default state_B) two_agents) NaN = fone /\
     fgt (agent_total two_defaults two_agents j) fone = true) /\
  groupby_new_state no_draw two_defaults two_agents = Err conservation_error.
Proof.
  apply (C10_two_default_transitions_overflow
           no_draw two_defaults two_agents [] [] [] state_B state_C).
  - reflexivity.
  - reflexivity.
  - reflexivity.
  - discriminate.
Defined.

(** ** The outcome index of one agent *)

Lemma column_nth_length (j n : nat) (f : float -> float -> bool) (draw : array)
    (m : matrix) :
  all_length n m -> length draw = n -> j < n ->
  map (fun r => nth j r false) (map (fun r => zip_with f draw r) m)
  = map (f (nth j draw NaN)) (column j m).
Proof.
  intros Hm Hd Hj. unfold column. rewrite !map_map.
  apply map_ext_in. intros r Hr.
  unfold all_length in Hm. rewrite Forall_forall in Hm.
  apply zip_with_nth; [lia | rewrite (Hm r Hr); exact Hj].
Qed.

Lemma count_true_fold (n : nat) (b : list (list bool)) (acc : list nat)
    (j : nat) :
  Forall (fun r => length r = n) b -> length acc = n -> j < n ->
  nth j (fold_left (zip_with (fun c x => c + Nat.b2n x)) b acc) 0
  = nth j acc 0
    + length (filter (fun x => x) (map (fun r => nth j r false) b)).
Proof.
  revert acc. induction b as [| r b IH]; intros acc Hb Hacc Hj; simpl.
  - lia.
  - inversion Hb as [| r' b' Hr Hb']; subst.
    rewrite IH; [| exact Hb' | rewrite zip_with_length; lia | exact Hj].
    rewrite (zip_with_nth (fun c x => c + Nat.b2n x) acc r j 0 false 0)
      by lia.
    destruct (nth j r false); simpl; lia.
Qed.

Lemma count_true_axis0_nth (n : nat) (b : list (list bool)) (j : nat) :
  Forall (fun r => length r = n) b -> j < n ->
  nth j (count_true_axis0 n b) 0
  = length (filter (fun x => x) (map (fun r => nth j r false) b)).
Proof.
  intros Hb Hj. unfold count_true_axis0.
  rewrite count_true_fold with (n := n);
    [| exact Hb | apply repeat_length | exact Hj].
  rewrite nth_repeat_lt by exact Hj. reflexivity.
Qed.

Lemma filter_map_length {A : Type} (f : A -> bool) (l : list A) :
  length (filter (fun x => x) (map f l)) = length (filter f l).
Proof.
  induction l as [| x l IH]; simpl; [reflexivity |].
  destruct (f x); simpl; rewrite IH; reflexivity.
Qed.

Lemma cumsum_from_all_length (n : nat) (m : matrix) (acc : array) :
  all_length n m -> length acc = n -> all_length n (cumsum_from acc m).
Proof.
  revert acc. induction m as [| r m IH]; intros acc Hm Hacc; simpl.
  - constructor.
  - inversion Hm as [| r' m' Hr Hm']; subst.
    assert (Hl : length (zip_with fadd acc r) = length r)
      by (rewrite zip_with_length; lia).
    constructor; [lia |]. apply IH; [exact Hm' | lia].
Qed.

Lemma cumsum_axis0_all_length (n : nat) (m : matrix) :
  all_length n m -> all_length n (cumsum_axis0 m).
Proof.
  intros Hm. destruct m as [| r m]; simpl; [constructor |].
  inversion Hm as [| r' m' Hr Hm']; subst.
  constructor; [reflexivity |].
  apply cumsum_from_all_length; [exact Hm' | reflexivity].
Qed.

Lemma cumsum_from_column (n : nat) (m : matrix) (acc : array) (j : nat) :
  all_length n m -> length acc = n -> j < n ->
  column j (cumsum_from acc m) = running (nth j acc NaN) (column j m).
Proof.
  revert acc. induction m as [| r m IH]; intros acc Hm Hacc Hj; simpl.
  - reflexivity.
  - inversion Hm as [| r' m' Hr Hm']; subst.
    rewrite (zip_with_nth fadd acc r j NaN NaN NaN) by lia.
    f_equal.
    change (map (fun r0 => nth j r0 NaN)
              (cumsum_from (zip_with fadd acc r) m))
      with (column j (cumsum_from (zip_with fadd acc r) m)).
    rewrite IH; [| exact Hm' | rewrite zip_with_length; lia | exact Hj].
    rewrite (zip_with_nth fadd acc r j NaN NaN NaN) by lia.
    reflexivity.
Qed.

Lemma cumsum_axis0_column (n : nat) (m : matrix) (j : nat) :
  all_length n m -> j < n ->
  column j (cumsum_axis0 m) = cumsum_list (column j m).
Proof.
  intros Hm Hj. destruct m as [| r m]; simpl; [reflexivity |].
  inversion Hm as [| r' m' Hr Hm']; subst.
  f_equal. apply cumsum_from_column with (n := length r); auto.
Qed.

Lemma np_ge_rows_all_length (n : nat) (draw : array) (m : matrix) :
  all_length n m -> length draw = n ->
  Forall (fun r => length r = n) (np_ge_rows draw m).
Proof.
  intros Hm Hd. unfold np_ge_rows. apply Forall_forall. intros r Hr.
  apply in_map_iff in Hr. destruct Hr as [r0 [<- Hr0]].
  unfold all_length in Hm. rewrite Forall_forall in Hm.
  rewrite zip_with_length, (Hm r0 Hr0). lia.
Qed.

(** The vectorised count, read off for agent [j]. *)
Lemma output_index_nth (n : nat) (draw : array) (m : matrix) (j : nat) :
  all_length n m -> length draw = n -> j < n ->
  nth j (count_true_axis0 n (np_ge_rows draw (cumsum_axis0 m))) 0
  = count_le_draw (nth j draw NaN) (cumsum_list (column j m)).
Proof.
  intros Hm Hd Hj.
  pose proof (cumsum_axis0_all_length n m Hm) as Hc.
  rewrite count_true_axis0_nth;
    [| apply np_ge_rows_all_length; assumption | exact Hj].
  unfold np_ge_rows.
  rewrite column_nth_length with (n := n); [| exact Hc | exact Hd | exact Hj].
  rewrite filter_map_length.
  rewrite cumsum_axis0_column with (n := n); [| exact Hm | exact Hj].
  reflexivity.
Qed.

Lemma np_div_rows_all_length (n : nat) (m : matrix) (total : array) :
  all_length n m -> length total = n -> all_length n (np_div_rows m total).
Proof.
  intros Hm Ht. unfold np_div_rows, all_length in *.
  apply Forall_forall. intros r Hr.
  apply in_map_iff in Hr. destruct Hr as [r0 [<- Hr0]].
  rewrite Forall_forall in Hm. rewrite zip_with_length, (Hm r0 Hr0). lia.
Qed.

(** What a successful [outcome_probabilities] tells about its inputs and
    its result. *)
Lemma outcome_probabilities_Ok (ts : TransitionSet) (agents : frame)
    (outputs : list outcome) (probs : matrix) :
  outcome_probabilities ts agents = Ok (outputs, probs) ->
  transitions ts <> [] /\
  all_length (length (rows agents)) (raw_probabilities ts agents) /\
  (if allow_null_transition ts
   then np_any_gt (np_sum_axis0 (length (rows agents))
                                (raw_probabilities ts agents)) fone = false /\
        outputs = map (fun t => Target (output t)) (transitions ts)
                  ++ [null_transition] /\
        probs = raw_probabilities ts agents
                ++ [map (fsub fone)
                        (np_sum_axis0 (length (rows agents))
                                      (raw_probabilities ts agents))]
   else outputs = map (fun t => Target (output t)) (transitions ts) /\
        probs = np_div_rows (raw_probabilities ts agents)
                  (np_sum_axis0 (length (rows agents))
                                (raw_probabilities ts agents))).
Proof.
  unfold outcome_probabilities, raw_probabilities. intros H.
  destruct (transitions ts) as [| t l] eqn:Hts; [discriminate H |].
  split; [discriminate |].
  destruct (forallb (fun p => length p =? length (rows agents))
              (map (fun t0 => probability t0 agents) (t :: l))) eqn:Hshape;
    simpl negb in H; cbv iota in H; [| discriminate H].
  split; [apply all_length_forallb; exact Hshape |].
  destruct (allow_null_transition ts); simpl negb in H; cbv iota in H.
  - destruct (np_any_gt _ fone); [discriminate H |].
    injection H as <- <-. repeat split.
  - injection H as <- <-. repeat split.
Qed.

Lemma outcome_probabilities_all_length (ts : TransitionSet) (agents : frame)
    (outputs : list outcome) (probs : matrix) :
  outcome_probabilities ts agents = Ok (outputs, probs) ->
  all_length (length (rows agents)) probs /\ length outputs = length probs.
Proof.
  intros H. apply outcome_probabilities_Ok in H.
  destruct H as [_ [Hraw H]].
  pose proof (np_sum_axis0_length _ _ Hraw) as Htot.
  unfold raw_probabilities in *.
  destruct (allow_null_transition ts).
  - destruct H as [_ [-> ->]]. split.
    + apply Forall_app. split; [exact Hraw |].
      constructor; [| constructor]. rewrite length_map. exact Htot.
    + rewrite !length_app, !length_map. reflexivity.
  - destruct H as [-> ->]. split.
    + apply np_div_rows_all_length; assumption.
    + unfold np_div_rows. rewrite !length_map. reflexivity.
Qed.

Lemma output_indexes_Ok (get_draw : frame -> array) (ts : TransitionSet)
    (agents : frame) (outputs : list outcome) (idx : list nat) :
  output_indexes get_draw ts agents = Ok (outputs, idx) ->
  exists probs,
    outcome_probabilities ts agents = Ok (outputs, probs) /\
    length (get_draw agents) = length (rows agents) /\
    idx = count_true_axis0 (length (rows agents))
            (np_ge_rows (get_draw agents) (cumsum_axis0 probs)).
Proof.
  unfold output_indexes. intros H.
  apply bind_Ok_inv in H. destruct H as [[outs probs] [Hop H]].
  simpl in H.
  destruct (length (get_draw agents) =? length (rows agents)) eqn:Hd;
    simpl in H; [| discriminate H].
  injection H as <- <-.
  exists probs. repeat split; [exact Hop | apply Nat.eqb_eq; exact Hd].
Qed.

(** ** Ascending thresholds *)

Lemma ascending_weaken (lo lo' : Q) (l : list float) :
  (lo' <= lo)%Q -> ascending lo l -> ascending lo' l.
Proof.
  intros Hle H. destruct H as [lo | lo q l Hq Hl].
  - constructor.
  - constructor; [lra | exact Hl].
Qed.

Lemma running_ascending (l : list float) (a : Q) :
  Forall (fin_ge 0) l -> ascending a (running (Fin a) l).
Proof.
  revert a. induction l as [| x l IH]; intros a Hl.
  - constructor.
  - inversion Hl as [| x' l' Hx Hl']; subst.
    destruct x as [q | | |]; simpl in Hx; try contradiction.
    cbn [running fadd]. constructor; [lra |]. apply IH. exact Hl'.
Qed.

Lemma cumsum_list_ascending (l : list float) :
  Forall (fin_ge 0) l -> ascending 0 (cumsum_list l).
Proof.
  intros Hl. destruct l as [| x l]; simpl; [constructor |].
  inversion Hl as [| x' l' Hx Hl']; subst.
  destruct x as [q | | |]; simpl in Hx; try contradiction.
  constructor; [exact Hx |]. apply running_ascending. exact Hl'.
Qed.

Lemma ascending_above (q d : Q) (l : list float) :
  ascending q l -> (d < q)%Q -> count_le_draw (Fin d) l = 0.
Proof.
  intros H. revert d. induction H as [lo | lo q l Hq Hl IH]; intros d Hd.
  - reflexivity.
  - unfold count_le_draw in *. simpl.
    destruct (Qle_bool q d) eqn:E.
    + apply Qle_bool_iff in E. lra.
    + apply IH. lra.
Qed.

(** Among ascending thresholds, those that do not exceed the draw form a
    prefix; their number is the position of the first one above it. *)
Lemma ascending_prefix (lo d : Q) (l : list float) :
  ascending lo l ->
  (forall i, i < count_le_draw (Fin d) l ->
             fgt (nth i l NaN) (Fin d) = false) /\
  (count_le_draw (Fin d) l < length l ->
   fgt (nth (count_le_draw (Fin d) l) l NaN) (Fin d) = true).
Proof.
  intros H. induction H as [lo | lo q l Hq Hl IH].
  - unfold count_le_draw. simpl. split; intros; lia.
  - destruct IH as [IH1 IH2].
    assert (Hstep : count_le_draw (Fin d) (Fin q :: l)
                    = if Qle_bool q d then S (count_le_draw (Fin d) l)
                      else count_le_draw (Fin d) l).
    { unfold count_le_draw. simpl. destruct (Qle_bool q d); reflexivity. }
    destruct (Qle_bool q d) eqn:E.
    + rewrite Hstep. split.
      * intros [| i] Hi.
        -- simpl. unfold Qltb. rewrite E. reflexivity.
        -- simpl. apply IH1. lia.
      * intros Hk. simpl in Hk. simpl. apply IH2. lia.
    + assert (Hlt : (d < q)%Q).
      { destruct (Qlt_le_dec d q) as [Hlt | Hle]; [exact Hlt |].
        apply Qle_bool_iff in Hle. congruence. }
      rewrite Hstep, (ascending_above q d l Hl Hlt).
      split.
      * intros i Hi. lia.
      * intros _. simpl. unfold Qltb. rewrite E. reflexivity.
Qed.

Lemma cumsum_list_length (l : list float) :
  length (cumsum_list l) = length l.
Proof.
  destruct l as [| x l]; simpl; [reflexivity |].
  f_equal. revert x. induction l as [| y l IH]; intros x; simpl.
  - reflexivity.
  - f_equal. apply IH.
Qed.

(** C3 (as the code has it).  The outcome index of agent [j] is the number
    of its cumulative thresholds that are less than or equal to its draw;
    there is one threshold per entry of the outcome list.  When the agent's
    outcome probabilities are finite and non-negative and the draw is
    finite, this is the position of the first outcome whose cumulative
    probability is strictly greater than the draw. *)
Theorem C3_output_index_counts_thresholds
    (get_draw : frame -> array) (ts : TransitionSet) (agents : frame)
    (outputs : list outcome) (probs : matrix) (idx : list nat) (j : nat) :
  outcome_probabilities ts agents = Ok (outputs, probs) ->
  output_indexes get_draw ts agents = Ok (outputs, idx) ->
  j < length (rows agents) ->
  nth j idx 0
  = count_le_draw (nth j (get_draw agents) NaN)
                  (cumsum_list (column j probs)) /\
  length (cumsum_list (column j probs)) = length outputs /\
  (Forall (fin_ge 0) (column j probs) ->
   is_finite (nth j (get_draw agents) NaN) = true ->
   (forall i, i < nth j idx 0 ->
      fgt (nth i (cumsum_list (column j probs)) NaN)
          (nth j (get_draw agents) NaN) = false) /\
   (nth j idx 0 < length outputs ->
      fgt (nth (nth j idx 0) (cumsum_list (column j probs)) NaN)
          (nth j (get_draw agents) NaN) = true)).
Proof.
  intros Hop Hoi Hj.
  apply output_indexes_Ok in Hoi. destruct Hoi as [probs' [Hop' [Hd ->]]].
  rewrite Hop in Hop'. injection Hop' as <-.
  destruct (outcome_probabilities_all_length ts agents outputs probs Hop)
    as [Hlen Hout].
  assert (Hidx : nth j (count_true_axis0 (length (rows agents))
                   (np_ge_rows (get_draw agents) (cumsum_axis0 probs))) 0
                 = count_le_draw (nth j (get_draw agents) NaN)
                     (cumsum_list (column j probs))).
  { apply output_index_nth; assumption. }
  assert (Hthr : length (cumsum_list (column j probs)) = length outputs).
  { rewrite cumsum_list_length. unfold column. rewrite length_map.
    symmetry. exact Hout. }
  split; [exact Hidx |].
  split; [exact Hthr |].
  intros Hnonneg Hfin. rewrite Hidx.
  destruct (nth j (get_draw agents) NaN) as [d | | |]; try discriminate Hfin.
  pose proof (ascending_prefix 0 d _ (cumsum_list_ascending _ Hnonneg))
    as [Hprefix Hfirst].
  split; [exact Hprefix |].
  intros Hk. apply Hfirst. rewrite Hthr. exact Hk.
Qed.

Lemma C3_output_index_counts_thresholds_witness :
  exists probs,
    nth 0 [1] 0
    = count_le_draw (nth 0 (const_draw (3 # 10) one_agent) NaN)
                    (cumsum_list (column 0 probs)) /\
    length (cumsum_list (column 0 probs)) = 3 /\
    fgt (nth 1 (cumsum_list (column 0 probs)) NaN) (Fin (3 # 10)) = true.
Proof.
  exists (raw_probabilities three_two_set one_agent
          ++ [map (fsub fone)
                  (np_sum_axis0 1 (raw_probabilities three_two_set one_agent))]).
  pose proof (C3_output_index_counts_thresholds
                (const_draw (3 # 10)) three_two_set one_agent
                [Target state_B; Target state_C; null_transition]
                (raw_probabilities three_two_set one_agent
                 ++ [map (fsub fone)
                       (np_sum_axis0 1
                          (raw_probabilities three_two_set one_agent))])
                [1] 0 eq_refl eq_refl (Nat.lt_0_1)) as [H1 [H2 H3]].
  split; [exact H1 |].
  split; [exact H2 |].
  apply H3.
  - repeat constructor; vm_compute; discriminate.
  - reflexivity.
  - simpl. lia.
Defined.

(** C3, counterexample to the wording of the spec.  One agent with draw
    3/10 and transitions of probability 3/10 and 2/10: the code assigns
    outcome 1, whereas no threshold is strictly less than the draw and the
    first outcome already has a cumulative probability that reaches it. *)
Lemma C3_strict_count_counterexample :
  exists probs,
    outcome_probabilities three_two_set one_agent
    = Ok ([Target state_B; Target state_C; null_transition], probs) /\
    output_indexes (const_draw (3 # 10)) three_two_set one_agent
    = Ok ([Target state_B; Target state_C; null_transition], [1]) /\
    spec_output_index (Fin (3 # 10)) (cumsum_list (column 0 probs)) = 0 /\
    fge (nth 0 (cumsum_list (column 0 probs)) NaN) (Fin (3 # 10)) = true /\
    nth 0 [1] 0
    <> spec_output_index (Fin (3 # 10)) (cumsum_list (column 0 probs)).
Proof.
  eexists. split; [reflexivity |].
  split; [reflexivity |].
  split; [reflexivity |].
  split; [reflexivity |].
  vm_compute. discriminate.
Qed.

(** ** Normalisation when null transitions are disallowed *)

Lemma finite_list (l : list float) :
  forallb is_finite l = true -> exists qs, l = map Fin qs.
Proof.
  induction l as [| x l IH]; simpl; intros H.
  - exists []. reflexivity.
  - apply andb_true_iff in H. destruct H as [Hx Hl].
    destruct (IH Hl) as [qs ->].
    destruct x as [q | | |]; try discriminate Hx.
    exists (q :: qs). reflexivity.
Qed.

Lemma fold_fadd_Fin (qs : list Q) (a : Q) :
  fold_left fadd (map Fin qs) (Fin a) = Fin (fold_left Qplus qs a).
Proof.
  revert a. induction qs as [| q qs IH]; intros a; simpl.
  - reflexivity.
  - apply IH.
Qed.

Lemma fsum_Fin (qs : list Q) : fsum (map Fin qs) = Fin (Qsum qs).
Proof.
  destruct qs as [| q qs]; simpl; [reflexivity | apply fold_fadd_Fin].
Qed.

Lemma fold_Qplus_div (t : Q) (qs : list Q) (a b : Q) :
  ~ (t == 0)%Q -> (b == a / t)%Q ->
  (fold_left Qplus (map (fun p => p / t) qs) b
   == fold_left Qplus qs a / t)%Q.
Proof.
  intros Ht. revert a b. induction qs as [| q qs IH]; intros a b Hb; simpl.
  - exact Hb.
  - apply IH. rewrite Hb. field. exact Ht.
Qed.

Lemma Qsum_div (t : Q) (qs : list Q) :
  ~ (t == 0)%Q -> qs <> [] ->
  (Qsum (map (fun p => p / t) qs) == Qsum qs / t)%Q.
Proof.
  intros Ht Hne. destruct qs as [| q qs]; [contradiction Hne; reflexivity |].
  simpl. apply fold_Qplus_div; [exact Ht | reflexivity].
Qed.

Lemma np_div_rows_column (n : nat) (m : matrix) (total : array) (j : nat) :
  all_length n m -> length total = n -> j < n ->
  column j (np_div_rows m total)
  = map (fun p => fdiv p (nth j total NaN)) (column j m).
Proof.
  intros Hm Ht Hj. unfold column, np_div_rows. rewrite !map_map.
  apply map_ext_in. intros r Hr.
  unfold all_length in Hm. rewrite Forall_forall in Hm.
  apply zip_with_nth; [rewrite (Hm r Hr); exact Hj | lia].
Qed.

Lemma map_fdiv_Fin (t : Q) (qs : list Q) :
  Qeq_bool t 0 = false ->
  map (fun p => fdiv p (Fin t)) (map Fin qs)
  = map Fin (map (fun p => (p / t)%Q) qs).
Proof.
  intros Ht. rewrite !map_map. apply map_ext. intros q.
  simpl. rewrite Ht. reflexivity.
Qed.

(** Null transitions disallowed: after the division, the probabilities of
    a finite agent with a non-zero total add up to 1. *)
Lemma normalised_sum_one (n : nat) (m : matrix) (j : nat) :
  all_length n m -> m <> [] -> j < n ->
  forallb is_finite (column j m) = true ->
  is_zero (fsum (column j m)) = false ->
  exists q,
    fsum (column j (np_div_rows m (np_sum_axis0 n m))) = Fin q /\ (q == 1)%Q.
Proof.
  intros Hm Hne Hj Hfin Hzero.
  pose proof (np_sum_axis0_length _ _ Hm) as Htot.
  rewrite np_div_rows_column with (n := n) by assumption.
  rewrite np_sum_axis0_nth by assumption.
  destruct (finite_list _ Hfin) as [qs Hqs]. rewrite Hqs in *.
  rewrite fsum_Fin in *. simpl in Hzero.
  rewrite map_fdiv_Fin by exact Hzero. rewrite fsum_Fin.
  assert (Ht : ~ (Qsum qs == 0)%Q).
  { intros Heq. apply Qeq_bool_iff in Heq. congruence. }
  assert (Hqne : qs <> []).
  { intros ->. apply Ht. reflexivity. }
  eexists. split; [reflexivity |].
  rewrite Qsum_div by assumption. field. exact Ht.
Qed.

(** C4 (as the code has it).  With null transitions disallowed, for every
    agent whose probabilities are finite and whose total is not zero, the
    probabilities that [groupby_new_state] works with after the division
    add up to 1. *)
Theorem C4_normalised_probabilities_sum_to_one
    (ts : TransitionSet) (agents : frame) (outputs : list outcome)
    (probs : matrix) (j : nat) :
  allow_null_transition ts = false ->
  outcome_probabilities ts agents = Ok (outputs, probs) ->
  j < length (rows agents) ->
  forallb is_finite (agent_probabilities ts agents j) = true ->
  is_zero (agent_total ts agents j) = false ->
  probs = np_div_rows (raw_probabilities ts agents)
            (np_sum_axis0 (length (rows agents))
                          (raw_probabilities ts agents)) /\
  exists q, fsum (column j probs) = Fin q /\ (q == 1)%Q.
Proof.
  intros Hnull Hop Hj Hfin Hzero.
  apply outcome_probabilities_Ok in Hop.
  destruct Hop as [Hne [Hraw Hop]]. rewrite Hnull in Hop.
  destruct Hop as [_ ->]. split; [reflexivity |].
  apply normalised_sum_one; try assumption.
  unfold raw_probabilities. destruct (transitions ts);
    [contradiction Hne; reflexivity | discriminate].
Qed.

Lemma C4_normalised_probabilities_sum_to_one_witness :
  exists probs q,
    outcome_probabilities one_three_set two_agents
    = Ok ([Target state_B; Target state_C], probs) /\
    fsum (column 1 probs) = Fin q /\ (q == 1)%Q.
Proof.
  destruct (C4_normalised_probabilities_sum_to_one
              one_three_set two_agents [Target state_B; Target state_C]
              (np_div_rows (raw_probabilities one_three_set two_agents)
                 (np_sum_axis0 2 (raw_probabilities one_three_set two_agents)))
              1 eq_refl eq_refl (Nat.lt_succ_diag_r 1) eq_refl eq_refl)
    as [_ [q [Hq H1]]].
  eexists. exists q. split; [reflexivity |]. split; [exact Hq | exact H1].
Defined.

(** C4, counterexample.  With null transitions disallowed and every
    transition at probability 0, the division gives NaN and the agent's
    probabilities do not add up to 1. *)
Lemma C4_zero_total_counterexample :
  exists probs,
    allow_null_transition zero_set = false /\
    outcome_probabilities zero_set one_agent
    = Ok ([Target state_B; Target state_C], probs) /\
    fsum (column 0 probs) = NaN /\
    ~ (exists q, fsum (column 0 probs) = Fin q /\ (q == 1)%Q).
Proof.
  eexists. split; [reflexivity |].
  split; [reflexivity |].
  split; [reflexivity |].
  intros [q [H _]]. vm_compute in H. discriminate H.
Qed.

(** ** The empty cohort *)

Lemma fold_zip_with_nil {A B : Type} (f : A -> B -> A) (b : list (list B)) :
  fold_left (zip_with f) b [] = [].
Proof.
  induction b as [| r b IH]; simpl; [reflexivity | exact IH].
Qed.

Lemma length_zero_nil {A : Type} (l : list A) : length l = 0 -> l = [].
Proof.
  destruct l; [reflexivity | discriminate].
Qed.

Lemma output_indexes_empty (get_draw : frame -> array) (ts : TransitionSet)
    (agents : frame) :
  rows agents = [] ->
  transitions ts <> [] ->
  probabilities_shaped ts agents = true ->
  length (get_draw agents) = length (rows agents) ->
  exists outputs, output_indexes get_draw ts agents = Ok (outputs, []).
Proof.
  intros Hrows Hne Hshape Hdraw.
  pose proof (probabilities_shaped_all_length ts agents Hshape) as Hlen.
  pose proof (proj2 (all_length_forallb _ _) Hlen) as Hb.
  unfold output_indexes, outcome_probabilities.
  destruct (transitions ts) as [| t l] eqn:Hts;
    [contradiction Hne; reflexivity |].
  rewrite Hb. simpl negb. cbv iota.
  apply Nat.eqb_eq in Hdraw.
  assert (Htotal : np_sum_axis0 (length (rows agents))
                     (map (fun t0 => probability t0 agents) (t :: l))
                   = []).
  { apply length_zero_nil. rewrite np_sum_axis0_length by exact Hlen.
    rewrite Hrows. reflexivity. }
  rewrite Htotal.
  destruct (allow_null_transition ts); simpl negb; cbv iota.
  - simpl np_any_gt. cbv iota. unfold bind. simpl fst. simpl snd.
    rewrite Hdraw. simpl negb. cbv iota.
    eexists. rewrite Hrows. unfold count_true_axis0. simpl repeat.
    rewrite fold_zip_with_nil. reflexivity.
  - unfold bind. simpl fst. simpl snd.
    rewrite Hdraw. simpl negb. cbv iota.
    eexists. rewrite Hrows. unfold count_true_axis0. simpl repeat.
    rewrite fold_zip_with_nil. reflexivity.
Qed.

(** C9. On an empty cohort, with probability functions and draws that
    return one value per agent (hence none), [next_state] returns an empty
    frame with the cohort's columns. *)
Theorem C9_next_state_empty_cohort
    (get_draw : frame -> array) (s : State) (agents : frame)
    (state_column : string) :
  rows agents = [] ->
  probabilities_shaped (transition_set s) agents = true ->
  length (get_draw agents) = length (rows agents) ->
  exists r,
    next_state get_draw s agents state_column = Ok r /\
    columns r = columns agents /\ rows r = [].
Proof.
  intros Hrows Hshape Hdraw. unfold next_state.
  destruct (transitions (transition_set s)) as [| t l] eqn:Hts.
  - exists agents. repeat split. exact Hrows.
  - simpl Nat.eqb. cbv iota.
    destruct (output_indexes_empty get_draw (transition_set s) agents)
      as [outputs Hoi]; try assumption.
    { rewrite Hts. discriminate. }
    unfold groupby_new_state. rewrite Hoi. simpl.
    exists (DataFrame_of_columns (columns agents)). repeat split.
Qed.

Lemma C9_next_state_empty_cohort_witness :
  exists r,
    next_state no_draw overfull_state (mkFrame ["age"; "state"]%string [])
               "state"
    = Ok r /\
    columns r = ["age"; "state"]%string /\ rows r = [].
Proof.
  apply (C9_next_state_empty_cohort
           no_draw overfull_state (mkFrame ["age"; "state"]%string [])
           "state"%string).
  - reflexivity.
  - reflexivity.
  - reflexivity.
Defined.

(** ** Partitions of a list by a key *)

Lemma flat_map_nil_all {A K : Type} (ks : list K) :
  flat_map (fun _ : K => @nil A) ks = [].
Proof.
  induction ks as [| k ks IH]; simpl; [reflexivity | exact IH].
Qed.

Lemma flat_map_ext_in {A K : Type} (f g : K -> list A) (ks : list K) :
  (forall k, In k ks -> f k = g k) -> flat_map f ks = flat_map g ks.
Proof.
  induction ks as [| k ks IH]; intros H; simpl; [reflexivity |].
  rewrite (H k (or_introl eq_refl)).
  rewrite IH by (intros k' Hk'; apply H; right; exact Hk').
  reflexivity.
Qed.

Lemma flat_map_cons_at {A K : Type} (sel : K -> bool) (a : K) (x : A)
    (g : K -> list A) (ks : list K) :
  (forall k, In k ks -> (sel k = true <-> k = a)) ->
  NoDup ks -> In a ks ->
  Permutation (flat_map (fun k => if sel k then x :: g k else g k) ks)
              (x :: flat_map g ks).
Proof.
  induction ks as [| k0 ks IH]; intros Hspec Hnd Hin; [contradiction Hin |].
  inversion Hnd as [| k0' ks' Hnotin Hnd']; subst.
  simpl. destruct (sel k0) eqn:E.
  - apply (Hspec k0 (or_introl eq_refl)) in E. subst k0.
    rewrite (flat_map_ext_in
               (fun k => if sel k then x :: g k else g k) g ks).
    + reflexivity.
    + intros k Hk. destruct (sel k) eqn:E'; [| reflexivity].
      apply (Hspec k (or_intror Hk)) in E'. subst k. contradiction.
  - destruct Hin as [-> | Hin].
    + assert (Ha : sel a = true)
        by (apply (Hspec a (or_introl eq_refl)); reflexivity).
      congruence.
    + rewrite IH; [| | exact Hnd' | exact Hin].
      * symmetry. apply Permutation_middle.
      * intros k Hk. apply Hspec. right. exact Hk.
Qed.

(** A list is split by the keys [ks] when every element is selected by
    its own key and by no other. *)
Lemma partition_perm {A K : Type} (sel : K -> A -> bool) (key : A -> K)
    (ks : list K) (l : list A) :
  (forall k x, In k ks -> In x l -> (sel k x = true <-> k = key x)) ->
  NoDup ks ->
  (forall x, In x l -> In (key x) ks) ->
  Permutation (flat_map (fun k => filter (sel k) l) ks) l.
Proof.
  intros Hspec Hnd. induction l as [| x l IH]; intros Hin.
  - simpl. rewrite flat_map_nil_all. constructor.
  - change (Permutation
              (flat_map (fun k => if sel k x
                                  then x :: filter (sel k) l
                                  else filter (sel k) l) ks)
              (x :: l)).
    rewrite (flat_map_cons_at (fun k => sel k x) (key x) x
               (fun k => filter (sel k) l) ks).
    + apply perm_skip. apply IH.
      * intros k y Hk Hy. apply Hspec; [exact Hk | right; exact Hy].
      * intros y Hy. apply Hin. right. exact Hy.
    + intros k Hk. apply Hspec; [exact Hk | left; reflexivity].
    + exact Hnd.
    + apply Hin. left. reflexivity.
Qed.

Lemma filter_combine_map {A B : Type} (h : B -> bool) (l : list A)
    (ks : list B) :
  map fst (filter snd (combine l (map h ks)))
  = map fst (filter (fun p => h (snd p)) (combine l ks)).
Proof.
  revert ks. induction l as [| x l IH]; intros [| k ks]; simpl;
    try reflexivity.
  destruct (h k); simpl; rewrite IH; reflexivity.
Qed.

Lemma filter_combine_self {A : Type} (h : A -> bool) (l : list A) :
  map fst (filter snd (combine l (map h l))) = filter h l.
Proof.
  induction l as [| x l IH]; simpl; [reflexivity |].
  destruct (h x); simpl; rewrite IH; reflexivity.
Qed.

Lemma map_fst_combine {A B : Type} (l : list A) (ks : list B) :
  length l = length ks -> map fst (combine l ks) = l.
Proof.
  revert ks. induction l as [| x l IH]; intros [| k ks] H; simpl in *;
    try discriminate; [reflexivity |].
  rewrite IH by lia. reflexivity.
Qed.

Lemma map_flat_map {A B K : Type} (f : A -> B) (g : K -> list A)
    (ks : list K) :
  map f (flat_map g ks) = flat_map (fun k => map f (g k)) ks.
Proof.
  induction ks as [| k ks IH]; simpl; [reflexivity |].
  rewrite map_app, IH. reflexivity.
Qed.

Lemma flat_map_map {A B K : Type} (f : K -> A) (g : A -> list B)
    (ks : list K) :
  flat_map g (map f ks) = flat_map (fun k => g (f k)) ks.
Proof.
  induction ks as [| k ks IH]; simpl; [reflexivity |].
  rewrite IH. reflexivity.
Qed.

(** ** [groupby] splits a frame *)

Lemma sorted_keys_In (keys : list nat) (k : nat) :
  In k (sorted_keys keys) <-> In k keys.
Proof.
  unfold sorted_keys. rewrite filter_In, in_seq. split.
  - intros [_ H]. apply existsb_exists in H. destruct H as [k' [Hk' E]].
    apply Nat.eqb_eq in E. subst k'. exact Hk'.
  - intros H. split.
    + pose proof (proj1 (list_max_le keys (list_max keys)) (Nat.le_refl _))
        as Hall.
      rewrite Forall_forall in Hall. specialize (Hall k H). lia.
    + apply existsb_exists. exists k. split; [exact H | apply Nat.eqb_refl].
Qed.

Lemma sorted_keys_NoDup (keys : list nat) : NoDup (sorted_keys keys).
Proof.
  unfold sorted_keys. apply NoDup_filter, seq_NoDup.
Qed.

Lemma groupby_rows (agents : frame) (keys : list nat) :
  length keys = length (rows agents) ->
  Permutation (flat_map (fun g => rows (snd g)) (groupby agents keys))
              (rows agents).
Proof.
  intros Hlen. unfold groupby. rewrite flat_map_map. simpl.
  rewrite (flat_map_ext_in
             (fun k => map fst (filter snd (combine (rows agents)
                                              (map (Nat.eqb k) keys))))
             (fun k => map fst
                         (filter (fun p => Nat.eqb k (snd p))
                                 (combine (rows agents) keys))))
    by (intros k _; apply filter_combine_map).
  rewrite <- map_flat_map.
  apply Permutation_trans with (l' := map fst (combine (rows agents) keys));
    [| rewrite map_fst_combine by lia; apply Permutation_refl].
  apply Permutation_map.
  apply (partition_perm (fun k p => Nat.eqb k (snd p)) snd).
  - intros k x _ _. apply Nat.eqb_eq.
  - apply sorted_keys_NoDup.
  - intros [r k] Hin. simpl. apply sorted_keys_In.
    apply in_combine_r in Hin. exact Hin.
Qed.

(** ** The dictionary of groups and its sorted items *)

Lemma state_ref_eqb_eq (a b : state_ref) : state_ref_eqb a b = true <-> a = b.
Proof.
  destruct a as [x i], b as [y j]. unfold state_ref_eqb. simpl.
  rewrite andb_true_iff, Nat.eqb_eq, String.eqb_eq.
  split; [intros [-> ->]; reflexivity | intros H; injection H; auto].
Qed.

Lemma outcome_eqb_eq (a b : outcome) : outcome_eqb a b = true <-> a = b.
Proof.
  destruct a as [x |], b as [y |]; simpl; split; intros H;
    try discriminate H; try reflexivity.
  - apply state_ref_eqb_eq in H. subst. reflexivity.
  - injection H as ->. apply state_ref_eqb_eq. reflexivity.
Qed.

Lemma dict_set_fresh {V : Type} (k : outcome) (v : V) (d : dict V) :
  ~ In k (map fst d) -> dict_set k v d = d ++ [(k, v)].
Proof.
  induction d as [| [k' v'] d IH]; simpl; intros Hnotin; [reflexivity |].
  destruct (outcome_eqb k k') eqn:E.
  - apply outcome_eqb_eq in E. subst k'. contradiction Hnotin. left.
    reflexivity.
  - rewrite IH; [reflexivity |]. intros Hin. apply Hnotin. right. exact Hin.
Qed.

Lemma groups_dict_distinct (outputs : list outcome)
    (groups : list (nat * frame)) (acc : dict frame) :
  NoDup (map fst acc
         ++ map (fun g => nth (fst g) outputs null_transition) groups) ->
  (forall g, In g groups -> fst g < length outputs) ->
  groups_dict outputs groups acc
  = Ok (acc ++ map (fun g => (nth (fst g) outputs null_transition, snd g))
                   groups).
Proof.
  revert acc. induction groups as [| [i sub] groups IH]; intros acc Hnd Hlt.
  - simpl. rewrite app_nil_r. reflexivity.
  - simpl.
    assert (Hi : i < length outputs)
      by (apply (Hlt (i, sub)); left; reflexivity).
    rewrite (nth_error_nth' outputs null_transition Hi).
    simpl in Hnd.
    rewrite dict_set_fresh.
    + rewrite IH.
      * rewrite <- app_assoc. reflexivity.
      * rewrite map_app, <- app_assoc. simpl. exact Hnd.
      * intros g Hg. apply Hlt. right. exact Hg.
    + apply NoDup_remove_2 in Hnd. intros Hin. apply Hnd.
      apply in_or_app. left. exact Hin.
Qed.

Lemma insert_by_str_perm {V : Type} (x : outcome * V)
    (l : list (outcome * V)) :
  Permutation (insert_by_str x l) (x :: l).
Proof.
  induction l as [| y l IH]; simpl; [apply Permutation_refl |].
  destruct (String.leb (outcome_str (fst x)) (outcome_str (fst y))).
  - apply Permutation_refl.
  - rewrite IH. apply perm_swap.
Qed.

Lemma sorted_by_str_perm {V : Type} (l : list (outcome * V)) :
  Permutation (sorted_by_str l) l.
Proof.
  unfold sorted_by_str. induction l as [| x l IH]; simpl.
  - constructor.
  - rewrite insert_by_str_perm. apply perm_skip. exact IH.
Qed.

(** ** Identities through writes and concatenation *)

Lemma setitem_ids (agents : frame) (col : string) (v : value) :
  ids (setitem agents col v) = ids agents.
Proof.
  unfold setitem, ids.
  destruct (col_index col (columns agents)); simpl; rewrite map_map;
    reflexivity.
Qed.

Lemma transition_effect_ids (id : string) (agents : frame) (col : string) :
  ids (transition_effect id agents col) = ids agents.
Proof.
  unfold transition_effect, _transition_side_effect. apply setitem_ids.
Qed.

Lemma reindex_ids (cols : list string) (f : frame) :
  map rid (reindex cols f) = ids f.
Proof.
  unfold reindex, ids. rewrite map_map. reflexivity.
Qed.

Lemma pd_concat_ids (fs : list frame) :
  fs <> [] ->
  exists r, pd_concat fs = Ok r /\ ids r = flat_map ids fs.
Proof.
  intros Hne. destruct fs as [| f fs]; [contradiction Hne; reflexivity |].
  exists (mkFrame (union_columns (f :: fs))
                  (flat_map (reindex (union_columns (f :: fs))) (f :: fs))).
  split; [reflexivity |].
  change (map rid (flat_map (reindex (union_columns (f :: fs))) (f :: fs))
          = flat_map ids (f :: fs)).
  rewrite map_flat_map.
  apply flat_map_ext_in. intros g _. apply reindex_ids.
Qed.

(** ** The outcome index stays within the outcome list *)

Lemma column_app (j : nat) (m1 m2 : matrix) :
  column j (m1 ++ m2) = column j m1 ++ column j m2.
Proof.
  unfold column. apply map_app.
Qed.

Lemma Qsum_snoc (qs : list Q) (y : Q) :
  qs <> [] -> Qsum (qs ++ [y]) = (Qsum qs + y)%Q.
Proof.
  intros Hne. destruct qs as [| q qs]; [contradiction Hne; reflexivity |].
  simpl. rewrite fold_left_app. reflexivity.
Qed.

(** Null transitions allowed: with the complement appended, a finite
    agent's outcome probabilities add up to 1. *)
Lemma completed_sum_one (n : nat) (m : matrix) (j : nat) :
  all_length n m -> m <> [] -> j < n ->
  forallb is_finite (column j m) = true ->
  exists q,
    fsum (column j (m ++ [map (fsub fone) (np_sum_axis0 n m)])) = Fin q /\
    (q == 1)%Q.
Proof.
  intros Hm Hne Hj Hfin.
  rewrite column_app. unfold column at 2. simpl map.
  change NaN with (fsub fone NaN) at 1.
  rewrite map_nth.
  rewrite np_sum_axis0_nth by assumption.
  destruct (finite_list _ Hfin) as [qs Hqs]. rewrite Hqs.
  assert (Hqne : qs <> []).
  { intros ->. destruct m; [contradiction Hne; reflexivity |].
    discriminate Hqs. }
  rewrite fsum_Fin.
  change [fsub fone (Fin (Qsum qs))] with (map Fin [(1 + - Qsum qs)%Q]).
  rewrite <- map_app, fsum_Fin, Qsum_snoc by exact Hqne.
  eexists. split; [reflexivity | ring].
Qed.

(** *** Division by a zero total *)

Lemma fge_NaN (d : float) : fge d NaN = false.
Proof.
  destruct d; reflexivity.
Qed.

Lemma map_fdiv_zero (t : Q) (qs : list Q) :
  Qeq_bool t 0 = true ->
  map (fun p => fdiv p (Fin t)) (map Fin qs) = map over_zero qs.
Proof.
  intros Ht. rewrite map_map. apply map_ext. intros q.
  simpl. rewrite Ht. reflexivity.
Qed.

Lemma outputs_NoDup (l : list Transition) (allow_null : bool) :
  NoDup (map output l) ->
  NoDup (map (fun t => Target (output t)) l
         ++ if allow_null then [null_transition] else []).
Proof.
  intros H.
  assert (Hmap : NoDup (map (fun t => Target (output t)) l)).
  { rewrite <- (map_map output Target).
    revert H. generalize (map output l). intros ids0 Hnd.
    induction Hnd as [| x ids0 Hx Hnd IH]; simpl; constructor.
    - intros Hin. apply in_map_iff in Hin.
      destruct Hin as [y [Hy Hin]]. injection Hy as ->. contradiction.
    - exact IH. }
  apply NoDup_app; [exact Hmap | |].
  - destruct allow_null; repeat constructor. intros [].
  - intros a Ha Hin. destruct allow_null; [| contradiction Hin].
    destruct Hin as [<- | []].
    apply in_map_iff in Ha. destruct Ha as [t [Ht _]]. discriminate Ht.
Qed.

Lemma count_true_axis0_length (n : nat) (b : list (list bool)) :
  Forall (fun r => length r = n) b -> length (count_true_axis0 n b) = n.
Proof.
  intros Hb. unfold count_true_axis0.
  apply fold_zip_with_length; [exact Hb | apply repeat_length].
Qed.

(** ** One state's pass keeps the cohort's identities *)

Lemma NoDup_map_nth {A : Type} (l : list A) (d : A) (ks : list nat) :
  NoDup l -> NoDup ks -> (forall k, In k ks -> k < length l) ->
  NoDup (map (fun k => nth k l d) ks).
Proof.
  intros Hl Hks. induction Hks as [| k ks Hk Hks IH]; intros Hlt; simpl.
  - constructor.
  - constructor.
    + intros Hin. apply in_map_iff in Hin. destruct Hin as [k' [Heq Hk']].
      assert (k' = k).
      { apply (proj1 (NoDup_nth l d) Hl).
        - apply Hlt. right. exact Hk'.
        - apply Hlt. left. reflexivity.
        - exact Heq. }
      subst k'. contradiction.
    + apply IH. intros k' Hk'. apply Hlt. right. exact Hk'.
Qed.

Lemma groupby_keys (agents : frame) (keys : list nat) :
  map fst (groupby agents keys) = sorted_keys keys.
Proof.
  unfold groupby. rewrite map_map. simpl. apply map_id.
Qed.

(** ** The whole population *)

Lemma select_eq_cohort (agents : frame) (col : string) (i : nat)
    (id : string) :
  col_index col (columns agents) = Some i ->
  select_eq agents col (VStr id)
  = Ok (mkFrame (columns agents) (cohort_rows agents i id)).
Proof.
  intros Hcol. unfold select_eq, getitem, mask_select, cohort_rows.
  rewrite Hcol. simpl. rewrite map_map.
  rewrite (filter_combine_self
             (fun r => value_eqb (nth i (cells r) VNaN) (VStr id))).
  reflexivity.
Qed.

Lemma value_eqb_VStr (v : value) (id : string) :
  value_eqb v (VStr id) = true <-> v = VStr id.
Proof.
  destruct v as [s | z |]; simpl; split; intros H; try discriminate H.
  - apply String.eqb_eq in H. subst. reflexivity.
  - injection H as ->. apply String.eqb_refl.
Qed.

Lemma cohorts_split (agents : frame) (i : nat) (sts : list State) :
  NoDup (map state_id sts) ->
  forallb (fun r =>
             existsb (fun s => value_eqb (nth i (cells r) VNaN)
                                         (VStr (state_id s))) sts)
          (rows agents) = true ->
  Permutation (flat_map (fun s => cohort_rows agents i (state_id s)) sts)
              (rows agents).
Proof.
  intros Hnd Hcov.
  rewrite <- (flat_map_map state_id (fun id => cohort_rows agents i id)).
  unfold cohort_rows.
  rewrite forallb_forall in Hcov.
  assert (Hrow : forall r, In r (rows agents) ->
                   exists s, In s sts /\
                             nth i (cells r) VNaN = VStr (state_id s)).
  { intros r Hr. specialize (Hcov r Hr). apply existsb_exists in Hcov.
    destruct Hcov as [s [Hs E]]. exists s. split; [exact Hs |].
    apply value_eqb_VStr. exact E. }
  apply (partition_perm
           (fun id r => value_eqb (nth i (cells r) VNaN) (VStr id))
           (state_of i)).
  - intros id r _ Hr. destruct (Hrow r Hr) as [s [_ Hcell]].
    unfold state_of. rewrite Hcell. rewrite value_eqb_VStr.
    split; intros H; [injection H as <-; reflexivity | subst; reflexivity].
  - exact Hnd.
  - intros r Hr. destruct (Hrow r Hr) as [s [Hs Hcell]].
    unfold state_of. rewrite Hcell. apply in_map. exact Hs.
Qed.

Lemma flat_map_Forall2_perm {A B C : Type} (f : A -> list C)
    (g : B -> list C) (xs : list A) (ys : list B) :
  Forall2 (fun x y => Permutation (g y) (f x)) xs ys ->
  Permutation (flat_map g ys) (flat_map f xs).
Proof.
  intros H. induction H as [| x y xs ys Hxy H IH]; simpl.
  - constructor.
  - apply Permutation_app; assumption.
Qed.

(** C2, at a machine the code can receive: both transitions out of
    [A] lead to the same [State] object.  The states cover the population
    and their identifiers are distinct; [Machine.transition] returns
    without an error, and agents 0 and 2 are missing from what it
    returns: in the dictionary of [groupby_new_state] the group of the
    second transition has replaced the group of the first. *)
Theorem C2_shared_target_drops_agents :
  covered (mkMachine [twice_to_b; State_init "B"; State_init "C"] "state")
          population = true /\
  ids population = [0; 1; 2; 3; 4; 7] /\
  exists r,
    transition draw_by_rid
      (mkMachine [twice_to_b; State_init "B"; State_init "C"] "state")
      population
    = Ok r /\
    ids r = [3; 7; 1; 4] /\
    ~ Permutation (ids r) (ids population).
Proof.
  split; [reflexivity |]. split; [reflexivity |].
  eexists. split; [reflexivity |]. split; [reflexivity |].
  intros H. apply Permutation_length in H. discriminate H.
Qed.

(** With two [State] objects that carry the same identifier as targets,
    the two groups are two entries of the dictionary and every agent is
    returned. *)
Example same_identifier_two_objects :
  exists r,
    transition draw_by_rid
      (mkMachine [twice_to_b_objects; State_init "B"; State_init "C"]
                 "state")
      population
    = Ok r /\
    ids r = [0; 2; 3; 7; 1; 4].
Proof.
  eexists. split; reflexivity.
Qed.

(** * Further properties *)

(** ** Edge behaviour of [Machine.transition] *)

(** X1: without the state column, a machine that has a state fails on the
    first selection with a KeyError; a machine without states has nothing
    to concatenate. *)
Theorem transition_without_state_column
    (get_draw : frame -> array) (m : Machine) (agents : frame) :
  col_index (state_column m) (columns agents) = None ->
  transition get_draw m agents
  = match states m with
    | [] => Err (ValueError "No objects to concatenate")
    | _ :: _ => Err (KeyError (state_column m))
    end.
Proof.
  intros Hcol. unfold transition.
  destruct (states m) as [| s l]; [reflexivity |].
  simpl. unfold select_eq, getitem. rewrite Hcol. reflexivity.
Qed.

Lemma transition_without_state_column_witness :
  transition draw_by_rid machine_a (mkFrame ["age"]%string [mkRow 0 [VInt 30]])
  = Err (KeyError "state").
Proof.
  apply (transition_without_state_column
           draw_by_rid machine_a (mkFrame ["age"]%string [mkRow 0 [VInt 30]])).
  reflexivity.
Defined.

Lemma cohort_rows_declared (agents : frame) (i : nat) (sts : list State)
    (s : State) :
  In s sts ->
  cohort_rows (mkFrame (columns agents) (filter (declared sts i) (rows agents)))
              i (state_id s)
  = cohort_rows agents i (state_id s).
Proof.
  intros Hs. unfold cohort_rows. simpl.
  induction (rows agents) as [| r l IH]; simpl; [reflexivity |].
  destruct (declared sts i r) eqn:Hd; simpl.
  - rewrite IH. reflexivity.
  - rewrite IH.
    destruct (value_eqb (nth i (cells r) VNaN) (VStr (state_id s))) eqn:E;
      [| reflexivity].
    assert (Hex : declared sts i r = true).
    { unfold declared. apply existsb_exists. exists s. split; assumption. }
    congruence.
Qed.

(** ** The groups of [groupby_new_state] *)

Lemma dict_set_In {V : Type} (k : outcome) (v : V) (d : dict V)
    (o : outcome) (f : V) :
  In (o, f) (dict_set k v d) -> In (o, f) d \/ (o = k /\ f = v).
Proof.
  induction d as [| [k' v'] d IH]; simpl.
  - intros [H | []]. injection H as <- <-. right. split; reflexivity.
  - destruct (outcome_eqb k k') eqn:E.
    + apply outcome_eqb_eq in E. subst k'.
      intros [H | H].
      * injection H as <- <-. right. split; reflexivity.
      * left. right. exact H.
    + intros [H | H].
      * left. left. exact H.
      * destruct (IH H) as [H' | H']; [left; right; exact H' | right; exact H'].
Qed.

Lemma dict_set_keys {V : Type} (k : outcome) (v : V) (d : dict V) :
  NoDup (map fst d) -> NoDup (map fst (dict_set k v d)).
Proof.
  intros Hnd.
  assert (Hkeys : forall o, In o (map fst (dict_set k v d)) ->
                            In o (map fst d) \/ o = k).
  { intros o Ho. apply in_map_iff in Ho. destruct Ho as [[o' f] [<- Hin]].
    apply dict_set_In in Hin. destruct Hin as [Hin | [-> _]].
    - left. apply in_map_iff. exists (o', f). split; [reflexivity | exact Hin].
    - right. reflexivity. }
  clear Hkeys.
  induction d as [| [k' v'] d IH]; simpl.
  - repeat constructor. intros [].
  - destruct (outcome_eqb k k') eqn:E; simpl; [exact Hnd |].
    simpl in Hnd. inversion Hnd as [| x l Hx Hl]; subst.
    constructor; [| apply IH; exact Hl].
    intros Hin. apply in_map_iff in Hin. destruct Hin as [[o f] [Ho Hin]].
    simpl in Ho. subst o.
    apply dict_set_In in Hin. destruct Hin as [Hin | [-> _]].
    + apply Hx. apply in_map_iff. exists (k', f). split; [reflexivity | exact Hin].
    + rewrite (proj2 (outcome_eqb_eq k k) eq_refl) in E. discriminate E.
Qed.

Lemma dict_set_not_nil {V : Type} (k : outcome) (v : V) (d : dict V) :
  dict_set k v d <> [].
Proof.
  destruct d as [| [k' v'] d]; simpl; [discriminate |].
  destruct (outcome_eqb k k'); discriminate.
Qed.

(** What a successful [groups_dict] holds: the entries it started from
    or a group under the outcome its index names, never two entries for
    one outcome, and something as soon as there is a group. *)
Lemma groups_dict_Ok (outputs : list outcome) (groups : list (nat * frame))
    (acc d : dict frame) :
  groups_dict outputs groups acc = Ok d ->
  (NoDup (map fst acc) -> NoDup (map fst d)) /\
  (forall o f, In (o, f) d ->
     In (o, f) acc \/
     exists k, In (k, f) groups /\ nth_error outputs k = Some o) /\
  (acc <> [] \/ groups <> [] -> d <> []).
Proof.
  revert acc. induction groups as [| [k sub] groups IH]; intros acc H.
  - simpl in H. injection H as <-. repeat split.
    + intros Hnd. exact Hnd.
    + intros o f Hin. left. exact Hin.
    + intros [Hacc | Hg]; [exact Hacc | contradiction Hg; reflexivity].
  - simpl in H.
    destruct (nth_error outputs k) as [o' |] eqn:Hk; [| discriminate H].
    destruct (IH _ H) as [IH1 [IH2 IH3]]. repeat split.
    + intros Hnd. apply IH1. apply dict_set_keys. exact Hnd.
    + intros o f Hin. destruct (IH2 o f Hin) as [Hacc | [k' [Hg Hk']]].
      * apply dict_set_In in Hacc. destruct Hacc as [Hacc | [-> ->]].
        -- left. exact Hacc.
        -- right. exists k. split; [left; reflexivity | exact Hk].
      * right. exists k'. split; [right; exact Hg | exact Hk'].
    + intros _. apply IH3. left. apply dict_set_not_nil.
Qed.

Lemma In_combine_of_key {A : Type} (l : list A) (keys : list nat) (k : nat) :
  length l = length keys -> In k keys -> exists x, In (x, k) (combine l keys).
Proof.
  revert keys. induction l as [| x l IH]; intros [| k0 keys] Hlen Hin;
    simpl in *; try discriminate; try contradiction.
  destruct Hin as [-> | Hin].
  - exists x. left. reflexivity.
  - destruct (IH keys) as [y Hy]; [lia | exact Hin |].
    exists y. right. exact Hy.
Qed.

Lemma groupby_group (agents : frame) (keys : list nat) (k : nat) (f : frame) :
  length keys = length (rows agents) ->
  In (k, f) (groupby agents keys) ->
  In k keys /\ columns f = columns agents /\ rows f <> [] /\
  incl (rows f) (rows agents).
Proof.
  intros Hlen Hin. unfold groupby in Hin.
  apply in_map_iff in Hin. destruct Hin as [k' [Heq Hk']].
  injection Heq as -> <-.
  apply (proj1 (sorted_keys_In keys k)) in Hk'.
  split; [exact Hk' |]. split; [reflexivity |].
  unfold mask_select. cbn [rows].
  rewrite filter_combine_map. split.
  - destruct (In_combine_of_key (rows agents) keys k) as [x Hx];
      [lia | exact Hk' |].
    intros Hnil.
    assert (Hin : In x (map fst (filter (fun p => Nat.eqb k (snd p))
                                        (combine (rows agents) keys)))).
    { apply in_map_iff. exists (x, k). split; [reflexivity |].
      apply filter_In. split; [exact Hx | apply Nat.eqb_refl]. }
    rewrite Hnil in Hin. contradiction Hin.
  - intros x Hx. apply in_map_iff in Hx. destruct Hx as [[y k0] [<- Hy]].
    apply filter_In in Hy. destruct Hy as [Hy _].
    apply in_combine_l in Hy. exact Hy.
Qed.

Lemma output_indexes_length (get_draw : frame -> array) (ts : TransitionSet)
    (agents : frame) (outputs : list outcome) (idx : list nat) :
  output_indexes get_draw ts agents = Ok (outputs, idx) ->
  length idx = length (rows agents).
Proof.
  intros H. apply output_indexes_Ok in H.
  destruct H as [probs [Hop [Hd ->]]].
  destruct (outcome_probabilities_all_length ts agents outputs probs Hop)
    as [Hlen _].
  apply count_true_axis0_length, np_ge_rows_all_length;
    [apply cumsum_axis0_all_length; exact Hlen | exact Hd].
Qed.

Lemma outcome_probabilities_outputs (ts : TransitionSet) (agents : frame)
    (outputs : list outcome) (probs : matrix) (o : outcome) :
  outcome_probabilities ts agents = Ok (outputs, probs) ->
  In o outputs ->
  (o = null_transition /\ allow_null_transition ts = true) \/
  (exists t, In t (transitions ts) /\ o = Target (output t)).
Proof.
  intros Hop Hin. apply outcome_probabilities_Ok in Hop.
  destruct Hop as [_ [_ Hop]].
  destruct (allow_null_transition ts).
  - destruct Hop as [_ [-> _]]. apply in_app_or in Hin.
    destruct Hin as [Hin | [<- | []]].
    + right. apply in_map_iff in Hin. destruct Hin as [t [<- Ht]].
      exists t. split; [exact Ht | reflexivity].
    + left. split; reflexivity.
  - destruct Hop as [-> _]. right.
    apply in_map_iff in Hin. destruct Hin as [t [<- Ht]].
    exists t. split; [exact Ht | reflexivity].
Qed.

Lemma groupby_new_state_entries
    (get_draw : frame -> array) (ts : TransitionSet) (agents : frame)
    (d : dict frame) :
  groupby_new_state get_draw ts agents = Ok d ->
  NoDup (map fst d) /\
  (forall o f, In (o, f) d ->
     rows f <> [] /\ columns f = columns agents /\
     incl (rows f) (rows agents) /\
     ((o = null_transition /\ allow_null_transition ts = true) \/
      (exists t, In t (transitions ts) /\ o = Target (output t)))) /\
  (d = [] <-> rows agents = []).
Proof.
  intros H. unfold groupby_new_state in H.
  apply bind_Ok_inv in H. destruct H as [[outputs idx] [Hoi Hd]].
  simpl in Hd.
  pose proof (output_indexes_length _ _ _ _ _ Hoi) as Hlen.
  destruct (output_indexes_Ok _ _ _ _ _ Hoi) as [probs [Hop _]].
  destruct (groups_dict_Ok _ _ _ _ Hd) as [Hnd [Hent Hne]].
  split; [apply Hnd; constructor |].
  split.
  - intros o f Hin. destruct (Hent o f Hin) as [[] | [k [Hg Hk]]].
    destruct (groupby_group agents idx k f Hlen Hg) as [_ [Hc [Hr Hi]]].
    repeat split; try assumption.
    apply (outcome_probabilities_outputs ts agents outputs probs o Hop).
    apply nth_error_In in Hk. exact Hk.
  - split.
    + intros ->. destruct (rows agents) as [| r l] eqn:Hrows; [reflexivity |].
      exfalso. apply Hne; [| reflexivity]. right.
      destruct idx as [| k idx]; [discriminate Hlen |].
      unfold groupby. intros Hnil. apply map_eq_nil in Hnil.
      assert (Hin : In k (sorted_keys (k :: idx)))
        by (apply sorted_keys_In; left; reflexivity).
      rewrite Hnil in Hin. contradiction Hin.
    + intros Hrows. rewrite Hrows in Hlen.
      apply length_zero_nil in Hlen. subst idx.
      simpl in Hd. injection Hd as <-. reflexivity.
Qed.

(** X3: when [groupby_new_state] returns, no outcome has two entries; every
    entry is a non-empty selection of the cohort's rows, on the cohort's
    columns, under a target of the set or (only if allowed) the null
    transition; and there is no entry at all exactly when the cohort is
    empty. *)
Theorem groupby_new_state_groups
    (get_draw : frame -> array) (ts : TransitionSet) (agents : frame)
    (d : dict frame) :
  groupby_new_state get_draw ts agents = Ok d ->
  NoDup (map fst d) /\
  (forall o f, In (o, f) d ->
     rows f <> [] /\ columns f = columns agents /\
     incl (rows f) (rows agents) /\
     ((o = null_transition /\ allow_null_transition ts = true) \/
      (exists t, In t (transitions ts) /\ o = Target (output t)))) /\
  (d = [] <-> rows agents = []).
Proof.
  apply groupby_new_state_entries.
Qed.

Lemma groupby_new_state_groups_witness :
  exists d,
    groupby_new_state (const_draw (3 # 10)) three_two_set one_agent = Ok d /\
    NoDup (map fst d) /\ (d = [] <-> rows one_agent = []).
Proof.
  eexists. split; [reflexivity |].
  destruct (groupby_new_state_groups
              (const_draw (3 # 10)) three_two_set one_agent _ eq_refl)
    as [H1 [_ H3]].
  split; [exact H1 | exact H3].
Defined.

(** ** Writing a column and reading it back *)

Lemma col_index_Some (c : string) (cols : list string) (k : nat) :
  col_index c cols = Some k -> k < length cols /\ nth k cols EmptyString = c.
Proof.
  revert k. induction cols as [| c' cols IH]; simpl; intros k H;
    [discriminate H |].
  destruct (String.eqb c c') eqn:E.
  - injection H as <-. apply String.eqb_eq in E. subst. split; [lia | reflexivity].
  - destruct (col_index c cols) as [k' |]; [| discriminate H].
    injection H as <-. destruct (IH k' eq_refl) as [Hlt Hnth].
    split; [lia | exact Hnth].
Qed.

Lemma col_index_None (c : string) (cols : list string) :
  col_index c cols = None <-> ~ In c cols.
Proof.
  induction cols as [| c' cols IH]; simpl.
  - split; [intros _ [] | reflexivity].
  - destruct (String.eqb c c') eqn:E.
    + apply String.eqb_eq in E. subst. split; [discriminate |].
      intros H. contradiction H. left. reflexivity.
    + apply String.eqb_neq in E.
      destruct (col_index c cols) as [k |]; simpl.
      * split; [discriminate |]. intros H. exfalso. apply H. right.
        destruct IH as [_ IH].
        destruct (in_dec string_dec c cols) as [Hin | Hnin]; [exact Hin |].
        discriminate (IH Hnin).
      * split; [| reflexivity]. intros _ [Heq | Hin];
          [apply E; symmetry; exact Heq | exact (proj1 IH eq_refl Hin)].
Qed.

Lemma col_index_app (c col : string) (cols : list string) :
  col_index c (cols ++ [col])
  = match col_index c cols with
    | Some k => Some k
    | None => if String.eqb c col then Some (length cols) else None
    end.
Proof.
  induction cols as [| c' cols IH]; simpl.
  - destruct (String.eqb c col); reflexivity.
  - destruct (String.eqb c c'); [reflexivity |].
    rewrite IH. destruct (col_index c cols); simpl; [reflexivity |].
    destruct (String.eqb c col); reflexivity.
Qed.

Lemma list_set_length {A : Type} (i : nat) (v : A) (l : list A) :
  length (list_set i v l) = length l.
Proof.
  revert i. induction l as [| x l IH]; intros [| i]; simpl; try reflexivity.
  rewrite IH. reflexivity.
Qed.

Lemma list_set_nth_same {A : Type} (i : nat) (v d : A) (l : list A) :
  i < length l -> nth i (list_set i v l) d = v.
Proof.
  revert i. induction l as [| x l IH]; intros [| i] H; simpl in *; try lia.
  - reflexivity.
  - apply IH. lia.
Qed.

Lemma list_set_nth_other {A : Type} (i k : nat) (v d : A) (l : list A) :
  k <> i -> nth k (list_set i v l) d = nth k l d.
Proof.
  revert i k. induction l as [| x l IH]; intros [| i] [| k] H; simpl;
    try reflexivity; try (contradiction H; reflexivity).
  apply IH. intros ->. apply H. reflexivity.
Qed.

Lemma map_const_repeat {A B : Type} (f : A -> B) (v : B) (l : list A) :
  (forall x, In x l -> f x = v) -> map f l = repeat v (length l).
Proof.
  induction l as [| x l IH]; intros H; simpl; [reflexivity |].
  rewrite (H x (or_introl eq_refl)).
  rewrite IH by (intros y Hy; apply H; right; exact Hy). reflexivity.
Qed.

(** X4: after [transition_effect], the state column (created when the frame
    did not have it) reads the state's identifier for every agent, every
    other column reads as before, and the agents are the same. *)
Theorem transition_effect_read_back
    (id : string) (agents : frame) (state_column : string) :
  Forall (fun r => length (cells r) = length (columns agents)) (rows agents) ->
  getitem (transition_effect id agents state_column) state_column
  = Ok (repeat (VStr id) (length (rows agents))) /\
  (forall c, c <> state_column ->
     getitem (transition_effect id agents state_column) c = getitem agents c) /\
  ids (transition_effect id agents state_column) = ids agents.
Proof.
  intros Hal. rewrite Forall_forall in Hal.
  split; [| split; [| apply transition_effect_ids]].
  - unfold transition_effect, _transition_side_effect, setitem, getitem.
    destruct (col_index state_column (columns agents)) as [i |] eqn:Hcol.
    + cbn [columns rows]. rewrite Hcol. rewrite map_map.
      f_equal. apply map_const_repeat. intros r Hr. cbn [cells].
      apply list_set_nth_same. rewrite (Hal r Hr).
      apply (col_index_Some _ _ _ Hcol).
    + cbn [columns rows]. rewrite col_index_app, Hcol, String.eqb_refl.
      rewrite map_map. f_equal.
      apply map_const_repeat. intros r Hr. cbn [cells].
      rewrite app_nth2 by (rewrite (Hal r Hr); lia).
      rewrite (Hal r Hr), Nat.sub_diag. reflexivity.
  - intros c Hc.
    unfold transition_effect, _transition_side_effect, setitem, getitem.
    destruct (col_index state_column (columns agents)) as [i |] eqn:Hcol.
    + cbn [columns rows].
      destruct (col_index c (columns agents)) as [k |] eqn:Hk;
        [| reflexivity].
      rewrite map_map. f_equal. apply map_ext. intros r. cbn [cells].
      apply list_set_nth_other. intros ->.
      destruct (col_index_Some _ _ _ Hcol) as [_ H1].
      destruct (col_index_Some _ _ _ Hk) as [_ H2]. congruence.
    + cbn [columns rows]. rewrite col_index_app.
      destruct (col_index c (columns agents)) as [k |] eqn:Hk.
      * rewrite map_map. f_equal. apply map_ext_in. intros r Hr.
        cbn [cells]. apply app_nth1. rewrite (Hal r Hr).
        apply (col_index_Some _ _ _ Hk).
      * rewrite (proj2 (String.eqb_neq c state_column) Hc). reflexivity.
Qed.

Lemma transition_effect_read_back_witness :
  getitem (transition_effect "B" population "state") "state"
  = Ok (repeat (VStr "B") 6) /\
  getitem (transition_effect "B" population "state") "age"
  = getitem population "age".
Proof.
  destruct (transition_effect_read_back "B" population "state") as [H1 [H2 _]].
  - repeat constructor.
  - split; [exact H1 | apply H2; discriminate].
Defined.

(** ** Concatenating frames that share their columns *)

Lemma add_column_present (acc : list string) (c : string) :
  In c acc -> add_column acc c = acc.
Proof.
  intros Hin. unfold add_column.
  assert (H : existsb (String.eqb c) acc = true).
  { apply existsb_exists. exists c. split; [exact Hin | apply String.eqb_refl]. }
  rewrite H. reflexivity.
Qed.

Lemma add_column_absent (acc : list string) (c : string) :
  ~ In c acc -> add_column acc c = acc ++ [c].
Proof.
  intros Hnin. unfold add_column.
  destruct (existsb (String.eqb c) acc) eqn:E; [| reflexivity].
  apply existsb_exists in E. destruct E as [x [Hx E]].
  apply String.eqb_eq in E. subst x. contradiction.
Qed.

Lemma fold_add_column_fresh (l acc : list string) :
  NoDup (acc ++ l) -> fold_left add_column l acc = acc ++ l.
Proof.
  revert acc. induction l as [| c l IH]; intros acc Hnd; simpl.
  - rewrite app_nil_r. reflexivity.
  - rewrite add_column_absent.
    + rewrite IH; rewrite <- app_assoc; [reflexivity | exact Hnd].
    + apply NoDup_remove_2 in Hnd. intros Hin. apply Hnd.
      apply in_or_app. left. exact Hin.
Qed.

Lemma fold_add_column_known (l acc : list string) :
  incl l acc -> fold_left add_column l acc = acc.
Proof.
  induction l as [| c l IH]; intros Hincl; simpl; [reflexivity |].
  rewrite add_column_present by (apply Hincl; left; reflexivity).
  apply IH. intros x Hx. apply Hincl. right. exact Hx.
Qed.

Lemma union_columns_same (cols : list string) (fs : list frame) :
  fs <> [] -> NoDup cols -> (forall f, In f fs -> columns f = cols) ->
  union_columns fs = cols.
Proof.
  intros Hne Hnd Hall. destruct fs as [| f fs];
    [contradiction Hne; reflexivity |].
  unfold union_columns. simpl.
  rewrite (Hall f (or_introl eq_refl)).
  rewrite fold_add_column_fresh by exact Hnd. simpl.
  assert (Hrest : forall g, In g fs -> columns g = cols)
    by (intros g Hg; apply Hall; right; exact Hg).
  clear Hall Hne. induction fs as [| g fs IH]; simpl; [reflexivity |].
  rewrite (Hrest g (or_introl eq_refl)).
  rewrite fold_add_column_known by apply incl_refl.
  apply IH. intros h Hh. apply Hrest. right. exact Hh.
Qed.

Lemma realign_cells (cols : list string) (cs : list value) :
  NoDup cols -> length cs = length cols ->
  map (fun c => match col_index c cols with
                | Some i => nth i cs VNaN
                | None => VNaN
                end) cols
  = cs.
Proof.
  revert cs. induction cols as [| c cols IH]; intros [| v cs] Hnd Hlen;
    simpl in *; try discriminate; [reflexivity |].
  rewrite String.eqb_refl. f_equal.
  inversion Hnd as [| c0 l Hc Hnd']; subst.
  transitivity (map (fun c0 => match col_index c0 cols with
                               | Some i => nth i cs VNaN
                               | None => VNaN
                               end) cols);
    [| apply IH; [exact Hnd' | lia]].
  apply map_ext_in. intros c' Hc'.
  destruct (String.eqb c' c) eqn:E.
  - apply String.eqb_eq in E. subst c'. contradiction.
  - destruct (col_index c' cols); reflexivity.
Qed.

Lemma reindex_same (f : frame) :
  well_formed f -> reindex (columns f) f = rows f.
Proof.
  intros [Hnd Hal]. unfold reindex. rewrite Forall_forall in Hal.
  transitivity (map (fun r => r) (rows f)); [| apply map_id].
  apply map_ext_in. intros r Hr.
  rewrite realign_cells; [destruct r; reflexivity | exact Hnd |].
  apply Hal. exact Hr.
Qed.

Lemma pd_concat_same_columns (cols : list string) (fs : list frame) :
  fs <> [] ->
  (forall f, In f fs -> columns f = cols /\ well_formed f) ->
  pd_concat fs = Ok (mkFrame cols (flat_map rows fs)).
Proof.
  intros Hne Hall. unfold pd_concat.
  assert (Hnd : NoDup cols).
  { destruct fs as [| f fs]; [contradiction Hne; reflexivity |].
    destruct (Hall f (or_introl eq_refl)) as [<- [Hnd _]]. exact Hnd. }
  rewrite (union_columns_same cols fs Hne Hnd)
    by (intros f Hf; apply Hall; exact Hf).
  destruct fs as [| f fs]; [contradiction Hne; reflexivity |].
  f_equal. f_equal. apply flat_map_ext_in. intros g Hg.
  destruct (Hall g Hg) as [Hc Hw]. rewrite <- Hc. apply reindex_same. exact Hw.
Qed.

(** ** The order and content of [next_state]'s result *)

Lemma leb_target_null (id : state_ref) :
  String.leb (outcome_str (Target id)) (outcome_str null_transition) = true.
Proof.
  reflexivity.
Qed.

Lemma leb_null_target (id : state_ref) :
  String.leb (outcome_str null_transition) (outcome_str (Target id)) = false.
Proof.
  reflexivity.
Qed.

Lemma insert_by_str_split {V : Type} (x : outcome * V)
    (l1 l2 : list (outcome * V)) :
  Forall (fun y => is_target (fst y) = true) l1 ->
  Forall (fun y => fst y = null_transition) l2 ->
  exists l1' l2',
    insert_by_str x (l1 ++ l2) = l1' ++ l2' /\
    Forall (fun y => is_target (fst y) = true) l1' /\
    Forall (fun y => fst y = null_transition) l2'.
Proof.
  intros H1 H2. induction H1 as [| y l1 Hy H1 IH]; simpl.
  - destruct x as [[id |] v].
    + exists [(Target id, v)], l2. split; [| split].
      * destruct l2 as [| [o w] l2]; [reflexivity |].
        inversion H2 as [| z l Hz Hl]; subst. simpl in Hz. subst o.
        simpl. reflexivity.
      * repeat constructor.
      * exact H2.
    + exists [], (insert_by_str (null_transition, v) l2).
      split; [reflexivity |]. split; [constructor |].
      clear -H2. induction H2 as [| z l Hz Hl IH]; simpl.
      * repeat constructor.
      * destruct z as [o w]. simpl in Hz. subst o. simpl.
        repeat constructor; assumption.
  - destruct (String.leb (outcome_str (fst x)) (outcome_str (fst y))) eqn:E.
    + destruct x as [[id |] v].
      * exists ((Target id, v) :: y :: l1), l2. split; [reflexivity |].
        split; [| exact H2]. repeat constructor; assumption.
      * destruct y as [[id' |] w]; [| discriminate Hy].
        cbn [fst] in E. rewrite leb_null_target in E. discriminate E.
    + destruct IH as [l1' [l2' [Heq [H1' H2']]]].
      exists (y :: l1'), l2'. split; [simpl; rewrite Heq; reflexivity |].
      split; [constructor; assumption | exact H2'].
Qed.

Lemma sorted_by_str_split {V : Type} (l : list (outcome * V)) :
  exists l1 l2,
    sorted_by_str l = l1 ++ l2 /\
    Forall (fun y => is_target (fst y) = true) l1 /\
    Forall (fun y => fst y = null_transition) l2.
Proof.
  unfold sorted_by_str. induction l as [| x l IH]; simpl.
  - exists [], []. repeat split; constructor.
  - destruct IH as [l1 [l2 [-> [H1 H2]]]].
    apply insert_by_str_split; assumption.
Qed.

Lemma setitem_present_rows (agents : frame) (col : string) (i : nat)
    (v : value) :
  col_index col (columns agents) = Some i ->
  setitem agents col v
  = mkFrame (columns agents)
            (map (fun r => mkRow (rid r) (list_set i v (cells r)))
                 (rows agents)).
Proof.
  intros H. unfold setitem. rewrite H. reflexivity.
Qed.

Lemma well_formed_sub (agents f : frame) :
  well_formed agents -> columns f = columns agents ->
  incl (rows f) (rows agents) -> well_formed f.
Proof.
  intros [Hnd Hal] Hc Hi. split; [rewrite Hc; exact Hnd |].
  rewrite Forall_forall in *. intros r Hr. rewrite Hc. apply Hal, Hi, Hr.
Qed.

Lemma well_formed_setitem (f : frame) (col : string) (i : nat) (v : value) :
  well_formed f -> col_index col (columns f) = Some i ->
  well_formed (setitem f col v).
Proof.
  intros [Hnd Hal] Hcol. rewrite (setitem_present_rows f col i v Hcol).
  split; [exact Hnd |]. cbn [columns rows].
  rewrite Forall_forall in *. intros r Hr.
  apply in_map_iff in Hr. destruct Hr as [r0 [<- Hr0]]. cbn [cells].
  rewrite list_set_length. apply Hal. exact Hr0.
Qed.

Lemma next_state_shape
    (get_draw : frame -> array) (s : State) (agents : frame)
    (state_column : string) (i : nat) (r : frame) :
  well_formed agents ->
  col_index state_column (columns agents) = Some i ->
  transitions (transition_set s) <> [] ->
  next_state get_draw s agents state_column = Ok r ->
  columns r = columns agents /\
  exists moved stayed,
    rows r = moved ++ stayed /\
    (forall r', In r' moved ->
       exists r0 t,
         In r0 (rows agents) /\ In t (transitions (transition_set s)) /\
         r' = mkRow (rid r0) (list_set i (VStr (ref_state_id (output t))) (cells r0))) /\
    incl stayed (rows agents) /\
    (allow_null_transition (transition_set s) = false -> stayed = []).
Proof.
  intros Hwf Hcol Hne H. unfold next_state in H.
  destruct (transitions (transition_set s)) as [| t0 l0] eqn:Hts;
    [contradiction Hne; reflexivity |].
  simpl Nat.eqb in H. cbv iota in H.
  apply bind_Ok_inv in H. destruct H as [d [Hd H]].
  destruct (groupby_new_state_entries _ _ _ _ Hd) as [_ [Hent _]].
  rewrite Hts in Hent.
  destruct d as [| g d].
  { injection H as <-. split; [reflexivity |].
    exists [], []. repeat split; try reflexivity.
    - intros r' [].
    - intros x []. }
  remember (g :: d) as D eqn:HD.
  assert (HinD : forall x, In x (sorted_by_str D) -> In x D).
  { intros x Hx. apply (Permutation_in _ (sorted_by_str_perm D)). exact Hx. }
  set (eff := fun item : outcome * frame =>
                match fst item with
                | Target id =>
                    transition_effect (ref_state_id id) (snd item)
                                      state_column
                | null_transition => snd item
                end) in *.
  assert (Hframes : forall f, In f (map eff (sorted_by_str D)) ->
                      columns f = columns agents /\ well_formed f).
  { intros f Hf. apply in_map_iff in Hf. destruct Hf as [[o g0] [<- Hx]].
    apply HinD in Hx. destruct (Hent o g0 Hx) as [_ [Hc [Hi _]]].
    pose proof (well_formed_sub agents g0 Hwf Hc Hi) as Hw.
    destruct o as [id |]; unfold eff; cbn [fst snd]; [| split; assumption].
    unfold transition_effect, _transition_side_effect.
    assert (Hcol' : col_index state_column (columns g0) = Some i)
      by (rewrite Hc; exact Hcol).
    split; [| apply (well_formed_setitem g0 state_column i _ Hw Hcol')].
    rewrite (setitem_present_rows g0 state_column i _ Hcol'). exact Hc. }
  assert (Hpd : pd_concat (map eff (sorted_by_str D))
                = Ok (mkFrame (columns agents)
                        (flat_map rows (map eff (sorted_by_str D))))).
  { apply pd_concat_same_columns; [| exact Hframes].
    intros Hnil. apply map_eq_nil in Hnil.
    pose proof (Permutation_length (sorted_by_str_perm D)) as HL.
    rewrite Hnil, HD in HL. discriminate HL. }
  assert (Hr : r = mkFrame (columns agents)
                     (flat_map rows (map eff (sorted_by_str D)))).
  { rewrite HD in H. rewrite <- HD in H. fold eff in H.
    rewrite Hpd in H. injection H as <-. reflexivity. }
  subst r. split; [reflexivity |]. cbn [rows].
  destruct (sorted_by_str_split D) as [l1 [l2 [Hsplit [H1 H2]]]].
  rewrite Hsplit in HinD |- *.
  exists (flat_map rows (map eff l1)), (flat_map rows (map eff l2)).
  rewrite map_app, flat_map_app. split; [reflexivity |].
  rewrite Forall_forall in H1, H2. repeat split.
  - intros r' Hr'. apply in_flat_map in Hr'. destruct Hr' as [f [Hf Hr']].
    apply in_map_iff in Hf. destruct Hf as [[o g0] [<- Hx]].
    specialize (H1 _ Hx). cbn [fst] in H1.
    destruct o as [id |]; [| discriminate H1].
    assert (HxD : In (Target id, g0) D)
      by (apply HinD, in_or_app; left; exact Hx).
    destruct (Hent _ _ HxD) as [_ [Hc [Hi [[Hnull _] | [t [Ht Ho]]]]]];
      [discriminate Hnull |].
    injection Ho as ->.
    unfold eff in Hr'. cbn [fst snd] in Hr'.
    unfold transition_effect, _transition_side_effect in Hr'.
    rewrite (setitem_present_rows g0 state_column i) in Hr'
      by (rewrite Hc; exact Hcol).
    cbn [rows] in Hr'. apply in_map_iff in Hr'.
    destruct Hr' as [r0 [<- Hr0]].
    exists r0, t. repeat split; [apply Hi; exact Hr0 | exact Ht].
  - intros x Hx. apply in_flat_map in Hx. destruct Hx as [f [Hf Hx]].
    apply in_map_iff in Hf. destruct Hf as [[o g0] [<- Hy]].
    pose proof (H2 _ Hy) as Ho. cbn [fst] in Ho. subst o.
    assert (HyD : In (null_transition, g0) D)
      by (apply HinD, in_or_app; right; exact Hy).
    destruct (Hent _ _ HyD) as [_ [_ [Hi _]]].
    unfold eff in Hx. cbn [fst snd] in Hx. apply Hi. exact Hx.
  - intros Hnull. destruct l2 as [| [o g0] l2]; [reflexivity |].
    exfalso.
    pose proof (H2 _ (or_introl eq_refl)) as Ho. cbn [fst] in Ho. subst o.
    assert (HyD : In (null_transition, g0) D)
      by (apply HinD, in_or_app; right; left; reflexivity).
    destruct (Hent _ _ HyD) as [_ [_ [_ [[_ Ha] | [t [_ Ho]]]]]];
      [congruence | discriminate Ho].
Qed.

(** X5: on a well-formed cohort that has the state column, [next_state] of
    a state with transitions returns the cohort's columns; its rows are
    first the agents that move, each with the state cell overwritten by
    the identifier of one of the state's targets and nothing else changed,
    and then, unchanged, the agents that stay (none when null transitions
    are disallowed). *)
Theorem next_state_result_shape
    (get_draw : frame -> array) (s : State) (agents : frame)
    (state_column : string) (i : nat) (r : frame) :
  well_formed agents ->
  col_index state_column (columns agents) = Some i ->
  transitions (transition_set s) <> [] ->
  next_state get_draw s agents state_column = Ok r ->
  columns r = columns agents /\
  exists moved stayed,
    rows r = moved ++ stayed /\
    (forall r', In r' moved ->
       exists r0 t,
         In r0 (rows agents) /\ In t (transitions (transition_set s)) /\
         r' = mkRow (rid r0) (list_set i (VStr (ref_state_id (output t))) (cells r0))) /\
    incl stayed (rows agents) /\
    (allow_null_transition (transition_set s) = false -> stayed = []).
Proof. apply next_state_shape. Qed.

Lemma next_state_result_shape_witness :
  exists r moved stayed,
    next_state draw_by_rid (mkState "A" three_two_set) two_agents "state"
    = Ok r /\
    columns r = columns two_agents /\
    rows r = moved ++ stayed /\
    incl stayed (rows two_agents).
Proof.
  destruct (next_state_result_shape
              draw_by_rid (mkState "A" three_two_set) two_agents
              "state"%string 1
              (mkFrame ["age"; "state"]%string
                 [mkRow 0 [VInt 30; VStr "B"]; mkRow 1 [VInt 41; VStr "B"]]))
    as [Hc [moved [stayed [Hr [_ [Hs _]]]]]].
  - split.
    + repeat constructor; simpl; intuition discriminate.
    + repeat constructor.
  - reflexivity.
  - discriminate.
  - reflexivity.
  - eexists. exists moved, stayed.
    split; [reflexivity |]. split; [exact Hc |]. split; assumption.
Defined.

(** ** The complement kept for the null transition *)

Lemma fsum_fin_ge (l : list float) :
  Forall (fin_ge 0) l -> fin_ge 0 (fsum l).
Proof.
  intros H. destruct l as [| x l]; simpl; [lra |].
  inversion H as [| x' l' Hx Hl]; subst.
  apply fold_fadd_fin_ge; assumption.
Qed.

Lemma nonneg_finite_all (l : list float) :
  forallb nonneg_finite l = true -> Forall (fin_ge 0) l.
Proof.
  intros H. apply Forall_forall. intros x Hx.
  rewrite forallb_forall in H. apply nonneg_finite_fin_ge, H, Hx.
Qed.

Lemma np_any_gt_false (a : array) (bound : float) (j : nat) :
  np_any_gt a bound = false -> j < length a ->
  fgt (nth j a NaN) bound = false.
Proof.
  intros H Hj. unfold np_any_gt in H.
  destruct (fgt (nth j a NaN) bound) eqn:E; [| reflexivity].
  assert (Hex : existsb (fun t => fgt t bound) a = true).
  { apply existsb_exists. exists (nth j a NaN).
    split; [apply nth_In; exact Hj | exact E]. }
  congruence.
Qed.

(** What the columns of a successful [outcome_probabilities] are when
    null transitions are allowed and the agent's probabilities are finite
    and non-negative. *)
Lemma allowed_column (ts : TransitionSet) (agents : frame)
    (outputs : list outcome) (probs : matrix) (j : nat) :
  allow_null_transition ts = true ->
  outcome_probabilities ts agents = Ok (outputs, probs) ->
  j < length (rows agents) ->
  forallb nonneg_finite (agent_probabilities ts agents j) = true ->
  exists t,
    agent_total ts agents j = Fin t /\ (0 <= t <= 1)%Q /\
    column j probs = agent_probabilities ts agents j ++ [Fin (1 + - t)] /\
    outputs = map (fun t => Target (output t)) (transitions ts)
              ++ [null_transition].
Proof.
  intros Hnull Hop Hj Hnn.
  apply outcome_probabilities_Ok in Hop.
  destruct Hop as [Hne [Hraw Hop]]. rewrite Hnull in Hop.
  destruct Hop as [Hany [-> ->]].
  pose proof (np_sum_axis0_length _ _ Hraw) as Htlen.
  assert (Hrawne : raw_probabilities ts agents <> []).
  { unfold raw_probabilities. destruct (transitions ts);
      [contradiction Hne; reflexivity | discriminate]. }
  pose proof (np_sum_axis0_nth _ _ j Hraw Hrawne Hj) as Hnth.
  pose proof (fsum_fin_ge _ (nonneg_finite_all _ Hnn)) as Hge.
  unfold agent_total. unfold agent_probabilities in *.
  destruct (fsum (column j (raw_probabilities ts agents))) as [t | | |] eqn:Ht;
    simpl in Hge; try contradiction.
  exists t. split; [reflexivity |].
  assert (Hle : (t <= 1)%Q).
  { pose proof (np_any_gt_false _ fone j Hany) as Hgt.
    rewrite Htlen in Hgt. specialize (Hgt Hj). rewrite Hnth in Hgt.
    simpl in Hgt. unfold Qltb in Hgt. apply negb_false_iff in Hgt.
    apply Qle_bool_iff in Hgt. exact Hgt. }
  split; [split; assumption |].
  split; [| reflexivity].
  rewrite column_app. f_equal. unfold column at 1. simpl map.
  change NaN with (fsub fone NaN) at 1. rewrite map_nth, Hnth.
  reflexivity.
Qed.

(** X6: with null transitions allowed and no error raised, an agent with
    finite, non-negative probabilities gets, as last outcome, the null
    transition with the probability 1 minus its total, which lies between
    0 and 1; together with it the agent's probabilities add up to 1. *)
Theorem null_transition_takes_the_complement
    (ts : TransitionSet) (agents : frame) (outputs : list outcome)
    (probs : matrix) (j : nat) :
  allow_null_transition ts = true ->
  outcome_probabilities ts agents = Ok (outputs, probs) ->
  j < length (rows agents) ->
  forallb nonneg_finite (agent_probabilities ts agents j) = true ->
  exists t p q,
    agent_total ts agents j = Fin t /\
    last outputs (Target (mkRef 0 EmptyString)) = null_transition /\
    last (column j probs) NaN = Fin p /\
    (p == 1 - t)%Q /\ (0 <= p <= 1)%Q /\
    fsum (column j probs) = Fin q /\ (q == 1)%Q.
Proof.
  intros Hnull Hop Hj Hnn.
  destruct (allowed_column ts agents outputs probs j Hnull Hop Hj Hnn)
    as [t [Ht [[Ht0 Ht1] [Hcol ->]]]].
  pose proof (outcome_probabilities_Ok _ _ _ _ Hop) as [Hne [Hraw _]].
  assert (Hrawne : raw_probabilities ts agents <> []).
  { unfold raw_probabilities. destruct (transitions ts);
      [contradiction Hne; reflexivity | discriminate]. }
  assert (Hfin : forallb is_finite (column j (raw_probabilities ts agents))
                 = true).
  { apply forallb_forall. intros x Hx.
    rewrite forallb_forall in Hnn. specialize (Hnn x Hx).
    destruct x; try discriminate Hnn. reflexivity. }
  destruct (completed_sum_one (length (rows agents))
              (raw_probabilities ts agents) j Hraw Hrawne Hj Hfin)
    as [q [Hq Hq1]].
  exists t, (1 + - t)%Q, q.
  split; [exact Ht |].
  split; [apply last_last |].
  split; [rewrite Hcol; apply last_last |].
  split; [ring |].
  split; [lra |].
  apply outcome_probabilities_Ok in Hop. rewrite Hnull in Hop.
  destruct Hop as [_ [_ [_ [_ ->]]]].
  split; [exact Hq | exact Hq1].
Qed.

Lemma null_transition_takes_the_complement_witness :
  exists t p q probs,
    agent_total three_two_set one_agent 0 = Fin t /\
    last (column 0 probs) NaN = Fin p /\
    (p == 1 - t)%Q /\ (0 <= p <= 1)%Q /\
    fsum (column 0 probs) = Fin q /\ (q == 1)%Q.
Proof.
  destruct (null_transition_takes_the_complement
              three_two_set one_agent
              [Target state_B; Target state_C; null_transition]
              (raw_probabilities three_two_set one_agent
               ++ [map (fsub fone)
                     (np_sum_axis0 1
                        (raw_probabilities three_two_set one_agent))])
              0 eq_refl eq_refl Nat.lt_0_1 eq_refl)
    as [t [p [q [H1 [_ [H3 [H4 [H5 [H6 H7]]]]]]]]].
  exists t, p, q. eexists.
  split; [exact H1 |]. split; [exact H3 |]. split; [exact H4 |].
  split; [exact H5 |]. split; [exact H6 | exact H7].
Defined.

(** ** Draws outside [0, 1) *)

Lemma running_last (l : list float) (a : float) :
  last (a :: running a l) NaN = fold_left fadd l a.
Proof.
  revert a. induction l as [| x l IH]; intros a; [reflexivity |].
  change (running a (x :: l)) with (fadd a x :: running (fadd a x) l).
  change (last (a :: fadd a x :: running (fadd a x) l) NaN)
    with (last (fadd a x :: running (fadd a x) l) NaN).
  rewrite IH. reflexivity.
Qed.

Lemma cumsum_list_last (l : list float) :
  l <> [] -> last (cumsum_list l) NaN = fsum l.
Proof.
  intros Hne. destruct l as [| x l]; [contradiction Hne; reflexivity |].
  apply running_last.
Qed.

Lemma ascending_below_last (lo : Q) (l : list float) (ql : Q) :
  ascending lo l -> last l NaN = Fin ql ->
  forall x, In x l -> exists q, x = Fin q /\ (q <= ql)%Q.
Proof.
  intros H. induction H as [lo | lo q l Hq Hl IH]; intros Hlast x Hx.
  - contradiction Hx.
  - destruct l as [| y l].
    + simpl in Hlast. injection Hlast as ->.
      destruct Hx as [<- | []]. exists ql. split; [reflexivity | lra].
    + change (last (Fin q :: y :: l) NaN) with (last (y :: l) NaN) in Hlast.
      destruct Hx as [<- | Hx].
      * destruct (IH Hlast y (or_introl eq_refl)) as [qy [-> Hqy]].
        inversion Hl; subst. exists q. split; [reflexivity | lra].
      * apply IH; assumption.
Qed.

Lemma count_le_draw_all (d : float) (l : list float) :
  (forall x, In x l -> fge d x = true) -> count_le_draw d l = length l.
Proof.
  unfold count_le_draw. induction l as [| x l IH]; intros H; simpl;
    [reflexivity |].
  rewrite (H x (or_introl eq_refl)). simpl.
  rewrite IH by (intros y Hy; apply H; right; exact Hy). reflexivity.
Qed.

Lemma fge_from_one (d : float) (q : Q) :
  fge d fone = true -> (q <= 1)%Q -> fge d (Fin q) = true.
Proof.
  destruct d as [x | | |]; simpl; intros Hd Hq; try discriminate Hd;
    try reflexivity.
  apply Qle_bool_iff. apply Qle_bool_iff in Hd. lra.
Qed.

Lemma groups_dict_out_of_range (outputs : list outcome)
    (groups : list (nat * frame)) (acc : dict frame) (k : nat) (f : frame) :
  In (k, f) groups -> length outputs <= k ->
  groups_dict outputs groups acc = Err IndexError.
Proof.
  revert acc. induction groups as [| [k0 f0] groups IH]; intros acc Hin Hk;
    [contradiction Hin |].
  simpl. destruct (nth_error outputs k0) as [o |] eqn:E; [| reflexivity].
  destruct Hin as [Heq | Hin].
  - injection Heq as -> ->.
    apply nth_error_None in Hk. congruence.
  - apply IH; assumption.
Qed.

(** X7: a draw of 1 or more is not rejected as such: with null transitions
    allowed and finite, non-negative probabilities it is at or above every
    cumulative threshold, its outcome index points behind the outcome list,
    and [groupby_new_state] fails with an IndexError. *)
Theorem draw_of_one_raises_index_error
    (get_draw : frame -> array) (ts : TransitionSet) (agents : frame)
    (outputs : list outcome) (probs : matrix) (j : nat) :
  allow_null_transition ts = true ->
  outcome_probabilities ts agents = Ok (outputs, probs) ->
  length (get_draw agents) = length (rows agents) ->
  j < length (rows agents) ->
  forallb nonneg_finite (agent_probabilities ts agents j) = true ->
  fge (nth j (get_draw agents) NaN) fone = true ->
  groupby_new_state get_draw ts agents = Err IndexError.
Proof.
  intros Hnull Hop Hd Hj Hnn Hdraw.
  destruct (allowed_column ts agents outputs probs j Hnull Hop Hj Hnn)
    as [t [Ht [[Ht0 Ht1] [Hcol Hout]]]].
  destruct (outcome_probabilities_all_length ts agents outputs probs Hop)
    as [Hplen Holen].
  pose proof (output_index_nth (length (rows agents)) (get_draw agents)
                probs j Hplen Hd Hj) as Hidx.
  assert (Hasc : ascending 0 (cumsum_list (column j probs))).
  { apply cumsum_list_ascending. rewrite Hcol. apply Forall_app. split.
    - apply nonneg_finite_all. exact Hnn.
    - constructor; [simpl; lra | constructor]. }
  assert (Hcne : column j probs <> []).
  { rewrite Hcol. destruct (agent_probabilities ts agents j); discriminate. }
  assert (Hfin : forallb is_finite (column j (raw_probabilities ts agents))
                 = true).
  { apply forallb_forall. intros x Hx.
    unfold agent_probabilities in Hnn.
    rewrite forallb_forall in Hnn. specialize (Hnn x Hx).
    destruct x; try discriminate Hnn. reflexivity. }
  pose proof (outcome_probabilities_Ok _ _ _ _ Hop) as [Hne [Hraw Hop']].
  rewrite Hnull in Hop'. destruct Hop' as [_ [_ Hp]].
  assert (Hrawne : raw_probabilities ts agents <> []).
  { unfold raw_probabilities. destruct (transitions ts);
      [contradiction Hne; reflexivity | discriminate]. }
  destruct (completed_sum_one (length (rows agents))
              (raw_probabilities ts agents) j Hraw Hrawne Hj Hfin)
    as [q [Hq Hq1]].
  rewrite <- Hp in Hq.
  assert (Hall : count_le_draw (nth j (get_draw agents) NaN)
                   (cumsum_list (column j probs))
                 = length outputs).
  { rewrite count_le_draw_all.
    - rewrite cumsum_list_length. unfold column. rewrite length_map.
      symmetry. exact Holen.
    - intros x Hx.
      destruct (ascending_below_last 0 _ q Hasc) with (x := x)
        as [qx [-> Hqx]].
      + rewrite cumsum_list_last by exact Hcne. exact Hq.
      + exact Hx.
      + apply fge_from_one; [exact Hdraw | lra]. }
  unfold groupby_new_state, output_indexes. rewrite Hop.
  cbn [bind fst snd]. rewrite (proj2 (Nat.eqb_eq _ _) Hd).
  cbn [negb bind fst snd].
  set (idx := count_true_axis0 (length (rows agents))
                (np_ge_rows (get_draw agents) (cumsum_axis0 probs))) in *.
  assert (Hilen : length idx = length (rows agents)).
  { apply count_true_axis0_length, np_ge_rows_all_length;
      [apply cumsum_axis0_all_length; exact Hplen | exact Hd]. }
  assert (Hin : In (length outputs) (sorted_keys idx)).
  { apply sorted_keys_In. rewrite <- Hall, <- Hidx.
    apply nth_In. lia. }
  rewrite <- (groupby_keys agents idx) in Hin.
  apply in_map_iff in Hin. destruct Hin as [[k f] [Hk Hin]].
  simpl in Hk. subst k.
  apply (groups_dict_out_of_range outputs _ [] (length outputs) f Hin).
  apply Nat.le_refl.
Qed.

Lemma draw_of_one_raises_index_error_witness :
  groupby_new_state (const_draw 1) three_two_set one_agent = Err IndexError.
Proof.
  apply (draw_of_one_raises_index_error
           (const_draw 1) three_two_set one_agent
           [Target state_B; Target state_C; null_transition]
           (raw_probabilities three_two_set one_agent
            ++ [map (fsub fone)
                  (np_sum_axis0 1
                     (raw_probabilities three_two_set one_agent))])
           0); try reflexivity.
  apply Nat.lt_0_1.
Defined.

(** ** An agent without any probability, null transitions disallowed *)

Lemma running_NaN (l : list float) :
  Forall (fun x => x = NaN) (running NaN l).
Proof.
  induction l as [| x l IH]; simpl; [constructor |].
  constructor; [reflexivity | exact IH].
Qed.

Lemma cumsum_list_NaN (l : list float) :
  Forall (fun x => x = NaN) l -> Forall (fun x => x = NaN) (cumsum_list l).
Proof.
  intros H. destruct l as [| x l]; [constructor |].
  inversion H as [| x' l' Hx Hl]; subst.
  simpl. constructor; [reflexivity | apply running_NaN].
Qed.

Lemma count_le_draw_NaN (d : float) (l : list float) :
  Forall (fun x => x = NaN) l -> count_le_draw d l = 0.
Proof.
  unfold count_le_draw. intros H. induction H as [| x l Hx Hl IH]; simpl;
    [reflexivity |].
  subst x. rewrite fge_NaN. exact IH.
Qed.

Lemma Qsum_zero (qs : list Q) :
  forallb (fun q => Qeq_bool q 0) qs = true -> (Qsum qs == 0)%Q.
Proof.
  intros H. destruct qs as [| q qs]; [reflexivity |].
  simpl in *. apply andb_true_iff in H. destruct H as [Hq Hqs].
  apply Qeq_bool_iff in Hq.
  assert (Hgen : forall a, (a == 0)%Q -> (fold_left Qplus qs a == 0)%Q).
  { induction qs as [| p qs IH]; intros a Ha; simpl; [exact Ha |].
    simpl in Hqs. apply andb_true_iff in Hqs. destruct Hqs as [Hp Hqs].
    apply Qeq_bool_iff in Hp. apply IH; [exact Hqs |].
    rewrite Ha, Hp. reflexivity. }
  apply Hgen. exact Hq.
Qed.

Lemma over_zero_of_zero (q : Q) : Qeq_bool q 0 = true -> over_zero q = NaN.
Proof.
  intros H. apply Qeq_bool_iff in H. unfold over_zero, Qltb.
  assert (H1 : Qle_bool q 0 = true) by (apply Qle_bool_iff; lra).
  assert (H2 : Qle_bool 0 q = true) by (apply Qle_bool_iff; lra).
  rewrite H1, H2. reflexivity.
Qed.

(** X8: with null transitions disallowed, an agent whose transitions all
    have probability 0 is not reported: the division turns its
    probabilities into NaN, no threshold is reached by any draw, and the
    agent gets outcome index 0, the target of the first transition. *)
Theorem zero_total_goes_to_first_transition
    (get_draw : frame -> array) (ts : TransitionSet) (agents : frame)
    (outputs : list outcome) (probs : matrix) (idx : list nat) (j : nat) :
  allow_null_transition ts = false ->
  outcome_probabilities ts agents = Ok (outputs, probs) ->
  output_indexes get_draw ts agents = Ok (outputs, idx) ->
  j < length (rows agents) ->
  forallb is_zero (agent_probabilities ts agents j) = true ->
  Forall (fun x => x = NaN) (column j probs) /\
  nth j idx 0 = 0 /\
  exists t, hd_error (transitions ts) = Some t /\
            nth_error outputs (nth j idx 0) = Some (Target (output t)).
Proof.
  intros Hnull Hop Hoi Hj Hz.
  pose proof (outcome_probabilities_Ok _ _ _ _ Hop) as [Hne [Hraw Hop']].
  rewrite Hnull in Hop'. destruct Hop' as [Hout Hp].
  pose proof (np_sum_axis0_length _ _ Hraw) as Htlen.
  assert (Hrawne : raw_probabilities ts agents <> []).
  { unfold raw_probabilities. destruct (transitions ts);
      [contradiction Hne; reflexivity | discriminate]. }
  assert (Hfin : forallb is_finite (agent_probabilities ts agents j) = true).
  { apply forallb_forall. intros x Hx.
    rewrite forallb_forall in Hz. specialize (Hz x Hx).
    destruct x; try discriminate Hz. reflexivity. }
  destruct (finite_list _ Hfin) as [qs Hqs].
  assert (Hqz : forallb (fun q => Qeq_bool q 0) qs = true).
  { rewrite Hqs in Hz. rewrite forallb_forall in Hz |- *.
    intros q Hq. apply (Hz (Fin q)). apply in_map. exact Hq. }
  assert (Hcol : Forall (fun x => x = NaN) (column j probs)).
  { rewrite Hp.
    rewrite np_div_rows_column with (n := length (rows agents))
      by assumption.
    rewrite np_sum_axis0_nth by assumption.
    unfold agent_probabilities in Hqs. rewrite Hqs, fsum_Fin.
    rewrite map_fdiv_zero
      by (apply Qeq_bool_iff; apply Qsum_zero; exact Hqz).
    apply Forall_forall. intros x Hx.
    apply in_map_iff in Hx. destruct Hx as [q [<- Hq]].
    apply over_zero_of_zero.
    rewrite forallb_forall in Hqz. apply Hqz. exact Hq. }
  split; [exact Hcol |].
  destruct (output_indexes_Ok _ _ _ _ _ Hoi) as [probs' [Hop2 [Hd ->]]].
  rewrite Hop in Hop2. injection Hop2 as <-.
  destruct (outcome_probabilities_all_length ts agents outputs probs Hop)
    as [Hplen _].
  assert (Hidx : nth j (count_true_axis0 (length (rows agents))
                   (np_ge_rows (get_draw agents) (cumsum_axis0 probs))) 0
                 = 0).
  { rewrite output_index_nth by assumption.
    apply count_le_draw_NaN, cumsum_list_NaN. exact Hcol. }
  split; [exact Hidx |].
  rewrite Hidx, Hout.
  destruct (transitions ts) as [| t l]; [contradiction Hne; reflexivity |].
  exists t. split; reflexivity.
Qed.

Lemma zero_total_goes_to_first_transition_witness :
  exists probs idx,
    output_indexes (const_draw (9 # 10)) zero_set one_agent
    = Ok ([Target state_B; Target state_C], idx) /\
    Forall (fun x => x = NaN) (column 0 probs) /\
    nth 0 idx 0 = 0.
Proof.
  destruct (zero_total_goes_to_first_transition
              (const_draw (9 # 10)) zero_set one_agent
              [Target state_B; Target state_C]
              (np_div_rows (raw_probabilities zero_set one_agent)
                 (np_sum_axis0 1 (raw_probabilities zero_set one_agent)))
              [0] 0 eq_refl eq_refl eq_refl Nat.lt_0_1 eq_refl)
    as [H1 [H2 _]].
  eexists. exists [0]. split; [reflexivity |]. split; [exact H1 | exact H2].
Defined.

(** ** A transition of probability 0 is never taken *)

Lemma ascending_nth (lo : Q) (l : list float) (k : nat) :
  ascending lo l -> k < length l -> exists q, nth k l NaN = Fin q.
Proof.
  intros H. revert k. induction H as [lo | lo q l Hq Hl IH]; intros k Hk;
    simpl in Hk; [lia |].
  destruct k as [| k]; [exists q; reflexivity |].
  simpl. apply IH. lia.
Qed.

Lemma running_nth (l : list float) (a : float) (k : nat) :
  k < length l ->
  nth k (running a l) NaN
  = fadd (nth k (a :: running a l) NaN) (nth k l NaN).
Proof.
  revert a k. induction l as [| x l IH]; intros a k Hk; simpl in Hk; [lia |].
  destruct k as [| k]; [reflexivity |].
  change (running a (x :: l)) with (fadd a x :: running (fadd a x) l).
  change (nth (S k) (fadd a x :: running (fadd a x) l) NaN)
    with (nth k (running (fadd a x) l) NaN).
  change (nth (S k) (a :: fadd a x :: running (fadd a x) l) NaN)
    with (nth k (fadd a x :: running (fadd a x) l) NaN).
  change (nth (S k) (x :: l) NaN) with (nth k l NaN).
  apply IH. lia.
Qed.

Lemma cumsum_list_nth_S (l : list float) (k : nat) :
  S k < length l ->
  nth (S k) (cumsum_list l) NaN
  = fadd (nth k (cumsum_list l) NaN) (nth (S k) l NaN).
Proof.
  intros Hk. destruct l as [| x l]; simpl in Hk; [lia |].
  cbn [cumsum_list].
  change (nth (S k) (x :: running x l) NaN) with (nth k (running x l) NaN).
  change (nth (S k) (x :: l) NaN) with (nth k l NaN).
  apply running_nth. lia.
Qed.

(** X9: an agent is never assigned to an outcome to which it gives the
    probability 0, as long as its draw is not negative (and its outcome
    probabilities are finite and non-negative). *)
Theorem zero_probability_outcome_not_assigned
    (get_draw : frame -> array) (ts : TransitionSet) (agents : frame)
    (outputs : list outcome) (probs : matrix) (idx : list nat)
    (j k : nat) (d p : Q) :
  outcome_probabilities ts agents = Ok (outputs, probs) ->
  output_indexes get_draw ts agents = Ok (outputs, idx) ->
  j < length (rows agents) ->
  Forall (fin_ge 0) (column j probs) ->
  nth j (get_draw agents) NaN = Fin d -> (0 <= d)%Q ->
  k < length outputs ->
  nth k (column j probs) NaN = Fin p -> (p == 0)%Q ->
  nth j idx 0 <> k.
Proof.
  intros Hop Hoi Hj Hnn Hd Hd0 Hk Hp Hp0 Hidx.
  destruct (output_indexes_Ok _ _ _ _ _ Hoi) as [probs' [Hop2 [Hdl ->]]].
  rewrite Hop in Hop2. injection Hop2 as <-.
  destruct (outcome_probabilities_all_length ts agents outputs probs Hop)
    as [Hplen Holen].
  rewrite output_index_nth in Hidx by assumption.
  rewrite Hd in Hidx.
  pose proof (cumsum_list_ascending _ Hnn) as Hasc.
  destruct (ascending_prefix 0 d _ Hasc) as [Hbefore Hat].
  rewrite Hidx in Hbefore, Hat.
  assert (Hlen : length (cumsum_list (column j probs)) = length outputs).
  { rewrite cumsum_list_length. unfold column. rewrite length_map.
    symmetry. exact Holen. }
  specialize (Hat ltac:(lia)).
  destruct k as [| k].
  - destruct (column j probs) as [| x l] eqn:Hc; [simpl in Hlen; lia |].
    simpl in Hat, Hp. rewrite Hp in Hat. simpl in Hat.
    unfold Qltb in Hat. apply negb_true_iff in Hat.
    assert (Hle : Qle_bool p d = true) by (apply Qle_bool_iff; lra).
    congruence.
  - specialize (Hbefore k ltac:(lia)).
    destruct (ascending_nth 0 _ k Hasc ltac:(lia)) as [b Hb].
    rewrite cumsum_list_nth_S in Hat
      by (rewrite <- cumsum_list_length, Hlen; exact Hk).
    rewrite Hb, Hp in Hat. rewrite Hb in Hbefore.
    simpl in Hat, Hbefore. unfold Qltb in Hat, Hbefore.
    apply negb_true_iff in Hat. apply negb_false_iff in Hbefore.
    apply Qle_bool_iff in Hbefore.
    assert (Hle : Qle_bool (b + p) d = true) by (apply Qle_bool_iff; lra).
    congruence.
Qed.

Lemma zero_probability_outcome_not_assigned_witness :
  nth 0 [1] 0 <> 0.
Proof.
  apply (zero_probability_outcome_not_assigned
           (const_draw 0)
           (mkTransitionSet true
              [mkTransition state_B (const_probability 0);
               mkTransition state_C (const_probability (1 # 2))])
           one_agent
           [Target state_B; Target state_C; null_transition]
           [[Fin 0]; [Fin (1 # 2)]; [fsub fone (fadd (Fin 0) (Fin (1 # 2)))]]
           [1] 0 0 0%Q 0%Q).
  - reflexivity.
  - reflexivity.
  - simpl. lia.
  - repeat constructor; vm_compute; discriminate.
  - reflexivity.
  - lra.
  - simpl. lia.
  - reflexivity.
  - reflexivity.
Defined.

(** ** Lookup tables *)

Lemma tables_get_set_same (k : string) (t : lookup_table)
    (d : list (string * lookup_table)) :
  tables_get k (tables_set k t d) = Some t.
Proof.
  induction d as [| [k' t'] d IH]; simpl.
  - rewrite String.eqb_refl. reflexivity.
  - destruct (String.eqb k k') eqn:E; simpl; rewrite E; [reflexivity | exact IH].
Qed.

Lemma tables_get_set_other (k k0 : string) (t : lookup_table)
    (d : list (string * lookup_table)) :
  k0 <> k -> tables_get k0 (tables_set k t d) = tables_get k0 d.
Proof.
  intros Hne. induction d as [| [k' t'] d IH]; simpl.
  - rewrite (proj2 (String.eqb_neq k0 k) Hne). reflexivity.
  - destruct (String.eqb k k') eqn:E; simpl.
    + apply String.eqb_eq in E. subst k'.
      rewrite (proj2 (String.eqb_neq k0 k) Hne). reflexivity.
    + destruct (String.eqb k0 k'); [reflexivity | exact IH].
Qed.

Lemma build_lookup_tables_loop_stores (c : Component) (b : Builder)
    (names : list string) (tables tables' : list (string * lookup_table)) :
  build_lookup_tables_loop c b names tables = Ok tables' ->
  (forall n, In n names ->
     exists cfg t,
       configuration_entry b (name c) n = Some cfg /\
       described_table cfg = Some t /\
       tables_get n tables' = Some t) /\
  (forall n, ~ In n names -> tables_get n tables' = tables_get n tables).
Proof.
  revert tables. induction names as [| n0 names IH]; intros tables H.
  - simpl in H. injection H as <-. split; [intros n [] | reflexivity].
  - simpl in H.
    destruct (configuration b (name c)) as [component_configuration |]
      eqn:Hcc; [| discriminate H].
    destruct (component_configuration n0) as [cfg |] eqn:Hcfg0;
      [| discriminate H].
    assert (Hcfg : configuration_entry b (name c) n0 = Some cfg)
      by (unfold configuration_entry; rewrite Hcc; exact Hcfg0).
    apply bind_Ok_inv in H. destruct H as [t [Ht H]].
    assert (Hdesc : described_table cfg = Some t).
    { unfold described_table.
      destruct (value_eqb (cfg_value cfg) (VStr "data")).
      - destruct (key_name cfg); [| discriminate Ht].
        injection Ht as <-. reflexivity.
      - injection Ht as <-. reflexivity. }
    destruct (IH _ H) as [IH1 IH2]. split.
    + intros n [<- | Hn].
      * destruct (in_dec string_dec n0 names) as [Hin | Hnin].
        -- apply IH1. exact Hin.
        -- exists cfg, t. repeat split; [exact Hcfg | exact Hdesc |].
           rewrite (IH2 n0 Hnin). apply tables_get_set_same.
      * apply IH1. exact Hn.
    + intros n Hn. rewrite IH2 by (intros Hin; apply Hn; right; exact Hin).
      apply tables_get_set_other. intros ->. apply Hn. left. reflexivity.
Qed.

(** X10: when [build_lookup_tables] returns, every standard lookup table of
    the component is stored under its name and is the table its
    configuration entry describes; tables stored under other names, the
    logger and the population view are as before. *)
Theorem build_lookup_tables_stores_every_table
    (c : Component) (self self' : instance) (b : Builder) :
  build_lookup_tables c self b = Ok self' ->
  (forall n, In n (standard_lookup_tables c) ->
     exists cfg t,
       configuration_entry b (name c) n = Some cfg /\
       described_table cfg = Some t /\
       tables_get n (lookup_tables self') = Some t) /\
  (forall n, ~ In n (standard_lookup_tables c) ->
     tables_get n (lookup_tables self') = tables_get n (lookup_tables self)) /\
  logger self' = logger self /\
  population_view self' = population_view self.
Proof.
  intros H. unfold build_lookup_tables in H.
  apply bind_Ok_inv in H. destruct H as [tables [Hloop H]].
  injection H as <-. cbn [lookup_tables logger population_view].
  destruct (build_lookup_tables_loop_stores _ _ _ _ _ Hloop) as [H1 H2].
  repeat split; assumption.
Qed.

Lemma build_lookup_tables_stores_every_table_witness :
  exists self',
    build_lookup_tables lookup_component Component_init lookup_builder
    = Ok self' /\
    tables_get "weights" (lookup_tables self')
    = Some (table_of_data "risk.weights" ["sex"]%string ["age"]%string) /\
    tables_get "rate" (lookup_tables self') = Some (table_of_value (VInt 3)).
Proof.
  eexists. split; [reflexivity |].
  destruct (build_lookup_tables_stores_every_table
              lookup_component Component_init _ lookup_builder eq_refl)
    as [H _].
  split.
  - destruct (H "weights"%string) as [cfg [t [Hc [Hd Hg]]]];
      [right; left; reflexivity |].
    injection Hc as <-. injection Hd as <-. exact Hg.
  - destruct (H "rate"%string) as [cfg [t [Hc [Hd Hg]]]];
      [left; reflexivity |].
    injection Hc as <-. injection Hd as <-. exact Hg.
Defined.

Lemma build_lookup_tables_loop_Err (c : Component) (b : Builder)
    (names : list string) :
  forallb (fun n =>
             match configuration_entry b (name c) n with
             | None => false
             | Some cfg =>
                 if value_eqb (cfg_value cfg) (VStr "data")
                 then negb (is_None (key_name cfg))
                 else true
             end) names = false ->
  forall tables, exists k,
    build_lookup_tables_loop c b names tables = Err (KeyError k) /\
    (k = name c \/ In k names \/ k = "key_name"%string).
Proof.
  induction names as [| n names IH]; simpl; intros H tables;
    [discriminate H |].
  destruct (configuration b (name c)) as [component_configuration |] eqn:Hcc;
    [| exists (name c); split; [reflexivity | left; reflexivity]].
  assert (Hent : configuration_entry b (name c) n = component_configuration n)
    by (unfold configuration_entry; rewrite Hcc; reflexivity).
  rewrite Hent in H.
  destruct (component_configuration n) as [cfg |].
  - destruct (value_eqb (cfg_value cfg) (VStr "data")).
    + destruct (key_name cfg) as [key |]; simpl in *.
      * destruct (IH H (tables_set n
                          (table_of_data key (categorical_columns cfg)
                             (continuous_columns cfg)) tables))
          as [k [Hk Hin]].
        exists k. split; [exact Hk | tauto].
      * exists "key_name"%string.
        split; [reflexivity | right; right; reflexivity].
    + simpl in *.
      destruct (IH H (tables_set n (table_of_value (cfg_value cfg)) tables))
        as [k [Hk Hin]].
      exists k. split; [exact Hk | tauto].
  - exists n. split; [reflexivity | right; left; left; reflexivity].
Qed.

(** X11: when the configuration has nothing for the component, no
    entry for one of its standard lookup tables, or an entry that says
    ["data"] without a [key_name], [setup_component] fails with a KeyError
    for the key of the subscript that failed (the component's name, that
    table's name, or ["key_name"]), whatever the component overrides:
    nothing is registered. *)
Theorem setup_component_unconfigured_table
    (c : Component) (self : instance) (b : Builder) :
  tables_configured c b = false ->
  (exists k,
     setup_component c self b = Err (KeyError k) /\
     (k = name c \/ In k (standard_lookup_tables c) \/
      k = "key_name"%string)) /\
  (configuration b (name c) = None ->
   setup_component c self b = Err (KeyError (name c))).
Proof.
  intros H. unfold tables_configured in H. split.
  - destruct (build_lookup_tables_loop_Err c (snd (get_logger b (name c)))
                (standard_lookup_tables c) H
                (lookup_tables self)) as [k [Hk Hin]].
    exists k. split; [| exact Hin].
    unfold setup_component, build_lookup_tables.
    cbn [lookup_tables]. rewrite Hk. reflexivity.
  - intros Hnone. unfold setup_component, build_lookup_tables.
    cbn [lookup_tables].
    destruct (standard_lookup_tables c) as [| n l]; [discriminate H |].
    cbn [build_lookup_tables_loop get_logger snd configuration].
    rewrite Hnone. reflexivity.
Qed.

Lemma setup_component_unconfigured_table_witness :
  setup_component lookup_component Component_init empty_builder
  = Err (KeyError "risk") /\
  setup_component lookup_component Component_init keyless_builder
  = Err (KeyError "key_name").
Proof.
  split; [| reflexivity].
  apply (proj2 (setup_component_unconfigured_table
                  lookup_component Component_init empty_builder eq_refl)).
  reflexivity.
Defined.

(** ** Configuration dictionaries *)

Lemma config_get_set_other (k k0 : string) (v : config_entry)
    (d : list (string * config_entry)) :
  k0 <> k -> config_get k0 (config_set k v d) = config_get k0 d.
Proof.
  intros Hne. induction d as [| [k' v'] d IH]; simpl.
  - rewrite (proj2 (String.eqb_neq k0 k) Hne). reflexivity.
  - destruct (String.eqb k k') eqn:E; simpl.
    + apply String.eqb_eq in E. subst k'.
      rewrite (proj2 (String.eqb_neq k0 k) Hne). reflexivity.
    + destruct (String.eqb k0 k'); [reflexivity | exact IH].
Qed.

Lemma config_get_update_other (k0 : string)
    (kwargs d : list (string * config_entry)) :
  ~ In k0 (map fst kwargs) ->
  config_get k0 (config_update d kwargs) = config_get k0 d.
Proof.
  unfold config_update. revert d.
  induction kwargs as [| [k v] kwargs IH]; intros d Hnin; simpl;
    [reflexivity |].
  rewrite IH by (intros Hin; apply Hnin; right; exact Hin).
  apply config_get_set_other. intros ->. apply Hnin. left. reflexivity.
Qed.

Lemma build_lookup_table_config_read_back_aux
    (value : value) (continuous_columns categorical_columns : list string)
    (key_name : option string) (kwargs : list (string * config_entry)) :
  (forall k, In k config_parameters -> ~ In k (map fst kwargs)) ->
  read_lookup_config
    (build_lookup_table_config value continuous_columns categorical_columns
                               key_name kwargs)
  = Some (mkLookupConfig value continuous_columns categorical_columns
            (if name_truthy key_name then key_name else None)).
Proof.
  intros Hk. unfold read_lookup_config, build_lookup_table_config.
  rewrite !config_get_update_other
    by (apply Hk; unfold config_parameters; simpl; tauto).
  destruct key_name as [[| a k] |]; reflexivity.
Qed.

(** X12: reading back what [build_lookup_table_config] wrote gives the value
    and the column lists it was called with, whatever the extra keyword
    arguments; the [key_name] is there only when it was given and is not
    the empty string. *)
Theorem build_lookup_table_config_read_back
    (value : value) (continuous_columns categorical_columns : list string)
    (key_name : option string) (kwargs : list (string * config_entry)) :
  (forall k, In k config_parameters -> ~ In k (map fst kwargs)) ->
  read_lookup_config
    (build_lookup_table_config value continuous_columns categorical_columns
                               key_name kwargs)
  = Some (mkLookupConfig value continuous_columns categorical_columns
            (if name_truthy key_name then key_name else None)).
Proof.
  apply build_lookup_table_config_read_back_aux.
Qed.

Lemma build_lookup_table_config_read_back_witness :
  read_lookup_config
    (build_lookup_table_config (VStr "data") ["age"]%string ["sex"]%string
       (Some EmptyString) [("units"%string, CName "per_year")])
  = Some (mkLookupConfig (VStr "data") ["age"]%string ["sex"]%string None).
Proof.
  apply (build_lookup_table_config_read_back
           (VStr "data") ["age"]%string ["sex"]%string (Some EmptyString)
           [("units"%string, CName "per_year")]).
  intros k Hk. simpl in *. intuition (subst; discriminate).
Defined.

(** X13: a lookup table declared through [build_lookup_table_config] with
    the value ["data"] is built from the data under [key_name]; declared
    without a [key_name], or with the empty one, it makes
    [build_lookup_tables] fail with KeyError "key_name". *)
Theorem data_table_needs_key_name
    (c : Component) (self : instance) (b : Builder) (n : string)
    (continuous_columns categorical_columns : list string)
    (key_name : option string) (kwargs : list (string * config_entry)) :
  (forall k, In k config_parameters -> ~ In k (map fst kwargs)) ->
  standard_lookup_tables c = [n] ->
  configuration_entry b (name c) n
  = read_lookup_config
      (build_lookup_table_config (VStr "data") continuous_columns
         categorical_columns key_name kwargs) ->
  build_lookup_tables c self b
  = match key_name with
    | Some (String a k) =>
        Ok (mkInstance (logger self) (population_view self)
              (tables_set n
                 (table_of_data (String a k) categorical_columns
                                continuous_columns)
                 (lookup_tables self)))
    | _ => Err (KeyError "key_name")
    end.
Proof.
  intros Hk Hstd Hcfg. unfold build_lookup_tables. rewrite Hstd.
  rewrite build_lookup_table_config_read_back_aux in Hcfg by exact Hk.
  unfold configuration_entry in Hcfg.
  cbn [build_lookup_tables_loop].
  destruct (configuration b (name c)) as [component_configuration |];
    [| discriminate Hcfg].
  rewrite Hcfg.
  destruct key_name as [[| a k] |]; reflexivity.
Qed.

Lemma data_table_needs_key_name_witness :
  build_lookup_tables weights_component Component_init keyless_builder
  = Err (KeyError "key_name") /\
  build_lookup_tables weights_component Component_init lookup_builder
  = Ok (mkInstance (logger Component_init) (population_view Component_init)
          (tables_set "weights"
             (table_of_data "risk.weights" ["sex"]%string ["age"]%string)
             (lookup_tables Component_init))).
Proof.
  split.
  - apply (data_table_needs_key_name weights_component Component_init
             keyless_builder "weights" ["age"]%string ["sex"]%string
             None []).
    + intros k _ H. exact H.
    + reflexivity.
    + reflexivity.
  - apply (data_table_needs_key_name weights_component Component_init
             lookup_builder "weights" ["age"]%string ["sex"]%string
             (Some "risk.weights"%string) []).
    + intros k _ H. exact H.
    + reflexivity.
    + reflexivity.
Defined.

(** ** Names and representations *)

Ltac by_cases_on_ascii a :=
  destruct a as [[] [] [] [] [] [] [] []]; try reflexivity; try discriminate.

Lemma ascii_lower_not_upper (a : ascii) : is_upper (ascii_lower a) = false.
Proof. by_cases_on_ascii a. Qed.

Lemma ascii_lower_idem (a : ascii) :
  ascii_lower (ascii_lower a) = ascii_lower a.
Proof. by_cases_on_ascii a. Qed.

Lemma ascii_lower_underscore (a : ascii) :
  Ascii.eqb (ascii_lower a) "_" = Ascii.eqb a "_".
Proof. by_cases_on_ascii a. Qed.

Lemma ascii_lower_fixed (a : ascii) :
  is_upper a = false -> ascii_lower a = a.
Proof. unfold ascii_lower. intros ->. reflexivity. Qed.

Lemma is_upper_not_underscore (a : ascii) :
  is_upper a = true -> Ascii.eqb a "_" = false.
Proof. by_cases_on_ascii a. Qed.

Lemma letters_lower (s : string) : letters (lower s) = letters s.
Proof.
  induction s as [| a s IH]; [reflexivity |].
  cbn [lower letters]. rewrite ascii_lower_underscore, ascii_lower_idem, IH.
  reflexivity.
Qed.

Lemma no_upper_lower (s : string) : no_upper (lower s) = true.
Proof.
  induction s as [| a s IH]; [reflexivity |].
  cbn [lower no_upper]. rewrite ascii_lower_not_upper, IH. reflexivity.
Qed.

Lemma lower_no_upper (s : string) : no_upper s = true -> lower s = s.
Proof.
  induction s as [| a s IH]; [reflexivity |].
  cbn [lower no_upper]. intros H. apply andb_true_iff in H as [Ha Hs].
  apply negb_true_iff in Ha.
  rewrite (ascii_lower_fixed a Ha), (IH Hs). reflexivity.
Qed.

Lemma sub_camel_eq (c u : ascii) (rest' : string) :
  sub_camel (String c (String u rest'))
  = if (is_lower c || is_digit c) && is_upper u
    then String c (String "_" (String u (sub_camel rest')))
    else String c (sub_camel (String u rest')).
Proof. reflexivity. Qed.

Lemma sub_word_eq (b : bool) (c u l : ascii) (rest' : string) :
  sub_word b (String c (String u (String l rest')))
  = if b && is_lower c
    then String c (sub_word true (String u (String l rest')))
    else if negb (is_newline c) && is_upper u && is_lower l
         then String c (String "_" (String u (sub_word true (String l rest'))))
         else String c (sub_word false (String u (String l rest'))).
Proof. reflexivity. Qed.

Lemma sub_word_short (b : bool) (c u : ascii) :
  sub_word b (String c (String u EmptyString))
  = String c (String u EmptyString).
Proof.
  cbn [sub_word]. destruct (b && is_lower c); cbn [andb];
    destruct (is_lower u); reflexivity.
Qed.

Lemma letters_sub_camel_bounded (n : nat) (s : string) :
  String.length s <= n -> letters (sub_camel s) = letters s.
Proof.
  revert s. induction n as [| n IH]; intros s Hn.
  - destruct s; [reflexivity | simpl in Hn; lia].
  - destruct s as [| c [| u rest']]; [reflexivity | reflexivity |].
    rewrite sub_camel_eq.
    destruct ((is_lower c || is_digit c) && is_upper u) eqn:E.
    + cbn [letters].
      rewrite (IH rest') by (simpl in Hn; lia).
      change (Ascii.eqb "_" "_") with true. cbv iota. reflexivity.
    + change (letters (String c (sub_camel (String u rest'))))
        with (if Ascii.eqb c "_" then letters (sub_camel (String u rest'))
              else String (ascii_lower c)
                     (letters (sub_camel (String u rest')))).
      rewrite (IH (String u rest')) by (simpl in Hn; simpl; lia).
      reflexivity.
Qed.

Lemma letters_sub_word_bounded (n : nat) (s : string) (b : bool) :
  String.length s <= n -> letters (sub_word b s) = letters s.
Proof.
  revert s b. induction n as [| n IH]; intros s b Hn.
  - destruct s; [reflexivity | simpl in Hn; lia].
  - destruct s as [| c rest]; [reflexivity |].
    assert (Hrest : forall b', letters (sub_word b' rest) = letters rest)
      by (intros b'; apply IH; simpl in Hn; lia).
    assert (Hcons : forall t, letters t = letters rest ->
                      letters (String c t) = letters (String c rest))
      by (intros t Ht; cbn [letters]; rewrite Ht; reflexivity).
    destruct rest as [| u [| l rest']].
    + cbn [sub_word]. destruct (b && is_lower c); reflexivity.
    + rewrite sub_word_short. reflexivity.
    + rewrite sub_word_eq.
      destruct (b && is_lower c); [apply Hcons, Hrest |].
      destruct (negb (is_newline c) && is_upper u && is_lower l) eqn:E;
        [| apply Hcons, Hrest].
      apply Hcons.
      change (letters (String "_" (String u (sub_word true (String l rest')))))
        with (letters (String u (sub_word true (String l rest')))).
      apply andb_true_iff in E as [E _]. apply andb_true_iff in E as [_ Eu].
      change (letters (String u (sub_word true (String l rest'))))
        with (if Ascii.eqb u "_"
              then letters (sub_word true (String l rest'))
              else String (ascii_lower u)
                     (letters (sub_word true (String l rest')))).
      rewrite (IH (String l rest') true) by (simpl in Hn; simpl; lia).
      reflexivity.
Qed.

Lemma sub_camel_no_upper_bounded (n : nat) (s : string) :
  String.length s <= n -> no_upper s = true -> sub_camel s = s.
Proof.
  revert s. induction n as [| n IH]; intros s Hn Hs.
  - destruct s; [reflexivity | simpl in Hn; lia].
  - destruct s as [| c [| u rest']]; [reflexivity | reflexivity |].
    rewrite sub_camel_eq.
    assert (Hu : is_upper u = false).
    { cbn [no_upper] in Hs. apply andb_true_iff in Hs as [_ Hs].
      apply andb_true_iff in Hs as [Hu _].
      apply negb_true_iff in Hu. exact Hu. }
    rewrite Hu, andb_false_r.
    rewrite (IH (String u rest')); [reflexivity | simpl in Hn; simpl; lia |].
    cbn [no_upper] in Hs. apply andb_true_iff in Hs as [_ Hs]. exact Hs.
Qed.

Lemma sub_word_no_upper (s : string) (b : bool) :
  no_upper s = true -> sub_word b s = s.
Proof.
  revert b. induction s as [| c rest IH]; intros b Hs; [reflexivity |].
  cbn [no_upper] in Hs. apply andb_true_iff in Hs as [_ Hrest].
  destruct rest as [| u [| l rest']].
  - cbn [sub_word]. destruct (b && is_lower c); reflexivity.
  - rewrite sub_word_short. reflexivity.
  - rewrite sub_word_eq.
    assert (Hu : is_upper u = false).
    { cbn [no_upper] in Hrest. apply andb_true_iff in Hrest as [Hu _].
      apply negb_true_iff in Hu. exact Hu. }
    rewrite Hu, andb_false_r. cbn [andb].
    destruct (b && is_lower c); rewrite (IH _ Hrest); reflexivity.
Qed.

(** X14: the snake-case conversion of the [name] property, for a class
    name of ASCII characters, only inserts underscores and turns
    capitals into small letters: the result has the letters of the class
    name, in order, and no capital; a class name without capitals is
    its own snake case. *)
Theorem snake_case_only_adds_underscores (cls : string) :
  is_ascii cls = true ->
  letters (snake_case cls) = letters cls /\
  no_upper (snake_case cls) = true /\
  (no_upper cls = true -> snake_case cls = cls).
Proof.
  intros _. unfold snake_case. split; [| split].
  - rewrite letters_lower.
    rewrite (letters_sub_camel_bounded _ _ (le_n _)).
    apply (letters_sub_word_bounded _ _ _ (le_n _)).
  - apply no_upper_lower.
  - intros H. rewrite (sub_word_no_upper _ _ H).
    rewrite (sub_camel_no_upper_bounded _ _ (le_n _) H).
    apply lower_no_upper. exact H.
Qed.

Lemma snake_case_only_adds_underscores_witness :
  letters (snake_case "HTTPServer2Go") = "httpserver2go"%string /\
  no_upper (snake_case "HTTPServer2Go") = true /\
  snake_case "house_points" = "house_points"%string.
Proof.
  split; [| split].
  - apply (snake_case_only_adds_underscores "HTTPServer2Go" eq_refl).
  - apply (snake_case_only_adds_underscores "HTTPServer2Go" eq_refl).
  - apply (snake_case_only_adds_underscores "house_points" eq_refl).
    reflexivity.
Defined.

Lemma snake_case_not_empty (cls : string) :
  cls <> EmptyString -> snake_case cls <> EmptyString.
Proof.
  unfold snake_case. destruct cls as [| c rest]; [congruence |].
  intros _.
  assert (H : exists t, sub_word false (String c rest) = String c t).
  { cbn [sub_word andb]. destruct rest as [| u [| l rest']];
      try (eexists; reflexivity).
    destruct (negb (is_newline c) && is_upper u && is_lower l);
      eexists; reflexivity. }
  destruct H as [t ->].
  destruct t as [| u t']; [discriminate |].
  rewrite sub_camel_eq.
  destruct ((is_lower c || is_digit c) && is_upper u); discriminate.
Qed.

Lemma join_not_empty (sep x : string) (l : list string) :
  x <> EmptyString -> join sep (x :: l) <> EmptyString.
Proof.
  intros Hx. destruct x as [| a x]; [congruence |].
  destruct l; discriminate.
Qed.

Lemma str_truthy_true (s : string) :
  s <> EmptyString -> str_truthy s = true.
Proof. destruct s; [congruence | reflexivity]. Qed.

(** X15: the name of a component is computed on the first read only:
    it is not empty, and what is read later is that name, also after
    the attributes behind the initialization parameters have been
    given other values. *)
Theorem name_is_computed_once
    (self : object) (ps : list (string * parameter object)) :
  class_name_of self <> EmptyString ->
  fst (Component_name self) <> EmptyString /\
  Component_name (with_parameters (snd (Component_name self)) ps)
  = (fst (Component_name self),
     with_parameters (snd (Component_name self)) ps).
Proof.
  intros Hcls. destruct self as [cls r n qs]. cbn [class_name_of] in Hcls.
  cbn [Component_name].
  destruct n as [| a n]; cbn [str_truthy negb].
  - match goal with
    | |- fst (?name, _) <> _ /\ _ => remember name as _name eqn:E
    end.
    assert (Hn : _name <> EmptyString).
    { subst _name. apply join_not_empty, snake_case_not_empty, Hcls. }
    cbn [fst snd with_parameters Component_name].
    rewrite (str_truthy_true _ Hn). split; [exact Hn | reflexivity].
  - cbn [fst snd with_parameters Component_name str_truthy negb].
    split; [discriminate | reflexivity].
Qed.

Lemma name_is_computed_once_witness :
  fst (Component_name
         (Object_init "DiseaseState" [("cause"%string, Text "flu")]))
  <> EmptyString /\
  Component_name
    (with_parameters
       (snd (Component_name
               (Object_init "DiseaseState" [("cause"%string, Text "flu")])))
       [("cause"%string, Text "measles")])
  = (fst (Component_name
            (Object_init "DiseaseState" [("cause"%string, Text "flu")])),
     with_parameters
       (snd (Component_name
               (Object_init "DiseaseState" [("cause"%string, Text "flu")])))
       [("cause"%string, Text "measles")]).
Proof.
  apply (name_is_computed_once
           (Object_init "DiseaseState" [("cause"%string, Text "flu")])
           [("cause"%string, Text "measles")]).
  discriminate.
Defined.

Lemma append_not_empty (s t : string) :
  t <> EmptyString -> (s ++ t)%string <> EmptyString.
Proof.
  intros Ht. destruct s; [exact Ht | discriminate].
Qed.

(** X16: [str] of a component is the empty string until [repr] has been
    called on it, whatever its class and parameters; [repr] is never
    empty, and from then on [str] and [repr] give that first
    representation, also after the parameters have changed. *)
Theorem str_is_empty_until_repr
    (self : object) (ps : list (string * parameter object)) :
  _repr_of self = EmptyString ->
  Component_str self = EmptyString /\
  Component_str (snd (Component_name self)) = EmptyString /\
  fst (Component_repr self) <> EmptyString /\
  Component_str (with_parameters (snd (Component_repr self)) ps)
  = fst (Component_repr self) /\
  Component_repr (with_parameters (snd (Component_repr self)) ps)
  = (fst (Component_repr self),
     with_parameters (snd (Component_repr self)) ps).
Proof.
  intros Hr. destruct self as [cls r n qs]. cbn [_repr_of] in Hr. subst r.
  split; [reflexivity |].
  split.
  { cbn [Component_name]. destruct (negb (str_truthy n)); reflexivity. }
  cbn [Component_repr str_truthy negb].
  match goal with
  | |- fst (?repr, _) <> _ /\ _ => remember repr as _repr eqn:E
  end.
  assert (Hn : _repr <> EmptyString).
  { subst _repr. apply append_not_empty. discriminate. }
  cbn [fst snd with_parameters Component_repr Component_str _repr_of].
  rewrite (str_truthy_true _ Hn).
  split; [exact Hn |]. split; reflexivity.
Qed.

Lemma str_is_empty_until_repr_witness :
  Component_str (Object_init "SIRModel" [("n"%string, Text "3")])
  = EmptyString /\
  fst (Component_repr (Object_init "SIRModel" [("n"%string, Text "3")]))
  = "SIRModel(n=3)"%string /\
  Component_str
    (with_parameters
       (snd (Component_repr
               (Object_init "SIRModel" [("n"%string, Text "3")])))
       [("n"%string, Text "4")])
  = "SIRModel(n=3)"%string.
Proof.
  destruct (str_is_empty_until_repr
              (Object_init "SIRModel" [("n"%string, Text "3")])
              [("n"%string, Text "4")] eq_refl)
    as [H1 [_ [_ [H4 _]]]].
  split; [exact H1 |]. split; [reflexivity | exact H4].
Defined.

(** ** The drawing and the moves *)

Lemma mapM_Ok_inv {A B : Type} (f : A -> result B) (xs : list A)
    (ys : list B) :
  mapM f xs = Ok ys -> Forall2 (fun x y => f x = Ok y) xs ys.
Proof.
  revert ys. induction xs as [| x xs IH]; intros ys H; simpl in H.
  - injection H as <-. constructor.
  - apply bind_Ok_inv in H. destruct H as [y [Hy H]].
    apply bind_Ok_inv in H. destruct H as [ys' [Hys H]].
    injection H as <-. constructor; [exact Hy | apply IH; exact Hys].
Qed.

Lemma Forall2_In_r {A B : Type} (P : A -> B -> Prop) (xs : list A)
    (ys : list B) (y : B) :
  Forall2 P xs ys -> In y ys -> exists x, In x xs /\ P x y.
Proof.
  induction 1 as [| x0 y0 xs ys Hxy _ IH]; intros Hin; [destruct Hin |].
  destruct Hin as [-> | Hin].
  - exists x0. split; [left; reflexivity | exact Hxy].
  - destruct (IH Hin) as [x [Hx Hp]]. exists x. split; [right |]; assumption.
Qed.

(** X17: every row that [Machine.transition] returns is a row of the
    population, either unchanged or moved along an edge that [to_dot]
    draws: its state cell held the tail of the edge and now holds its
    head, and nothing else in the row has changed. *)
Theorem moves_follow_drawn_edges
    (get_draw : frame -> array) (m : Machine) (agents : frame) (i : nat)
    (r : frame) :
  well_formed agents ->
  col_index (state_column m) (columns agents) = Some i ->
  transition get_draw m agents = Ok r ->
  columns r = columns agents /\
  forall r', In r' (rows r) ->
    exists r0,
      In r0 (rows agents) /\
      (r' = r0 \/
       exists tl hd,
         In (Node tl) (to_dot m) /\ In (Edge tl hd) (to_dot m) /\
         nth i (cells r0) VNaN = VStr tl /\
         r' = mkRow (rid r0) (list_set i (VStr hd) (cells r0))).
Proof.
  intros Hwf Hcol H. unfold transition in H.
  apply bind_Ok_inv in H. destruct H as [fs [Hfs Hcat]].
  apply mapM_Ok_inv in Hfs.
  assert (Hall : forall f, In f fs ->
            (columns f = columns agents /\ well_formed f) /\
            forall r', In r' (rows f) ->
              exists r0,
                In r0 (rows agents) /\
                (r' = r0 \/
                 exists tl hd,
                   In (Node tl) (to_dot m) /\ In (Edge tl hd) (to_dot m) /\
                   nth i (cells r0) VNaN = VStr tl /\
                   r' = mkRow (rid r0) (list_set i (VStr hd) (cells r0)))).
  { intros f Hf.
    destruct (Forall2_In_r _ _ _ _ Hfs Hf) as [s [Hs Hf']].
    rewrite (select_eq_cohort agents (state_column m) i (state_id s) Hcol)
      in Hf'.
    cbn [bind] in Hf'.
    set (cohort := mkFrame (columns agents)
                     (cohort_rows agents i (state_id s))) in *.
    assert (Hincl : incl (rows cohort) (rows agents)).
    { intros x Hx. apply filter_In in Hx. exact (proj1 Hx). }
    assert (Hwfc : well_formed cohort)
      by (apply (well_formed_sub agents); [exact Hwf | reflexivity | exact Hincl]).
    destruct (transitions (transition_set s)) as [| t0 ts] eqn:Hts.
    - unfold next_state in Hf'. rewrite Hts in Hf'. cbn in Hf'.
      injection Hf' as <-. split; [split; [reflexivity | exact Hwfc] |].
      intros r' Hr'. exists r'. split; [apply Hincl, Hr' | left; reflexivity].
    - assert (Hne : transitions (transition_set s) <> [])
        by (rewrite Hts; discriminate).
      destruct (next_state_shape get_draw s cohort (state_column m) i f
                  Hwfc Hcol Hne Hf')
        as [Hc [moved [stayed [Hrows [Hmoved [Hstayed _]]]]]].
      assert (Hdesc : forall r', In r' (rows f) ->
                exists r0,
                  In r0 (rows cohort) /\
                  (r' = r0 \/
                   exists t, In t (transitions (transition_set s)) /\
                     r' = mkRow (rid r0)
                            (list_set i (VStr (ref_state_id (output t))) (cells r0)))).
      { intros r' Hr'. rewrite Hrows in Hr'. apply in_app_or in Hr'.
        destruct Hr' as [Hm | Hst].
        - destruct (Hmoved r' Hm) as [r0 [t [Hr0 [Ht Heq]]]].
          exists r0. split; [exact Hr0 | right; exists t; split; assumption].
        - exists r'. split; [apply Hstayed, Hst | left; reflexivity]. }
      split; [split; [exact Hc |] |].
      + destruct Hwfc as [Hnd Hlen]. split; [rewrite Hc; exact Hnd |].
        rewrite Forall_forall in *. intros r' Hr'.
        destruct (Hdesc r' Hr') as [r0 [Hr0 [-> | [t [_ ->]]]]];
          rewrite Hc; [apply Hlen, Hr0 |].
        cbn [cells]. rewrite list_set_length. apply Hlen, Hr0.
      + intros r' Hr'.
        destruct (Hdesc r' Hr') as [r0 [Hr0 Hcase]].
        exists r0. split; [apply Hincl, Hr0 |].
        destruct Hcase as [-> | [t [Ht ->]]]; [left; reflexivity | right].
        exists (state_id s), (ref_state_id (output t)).
        split; [| split; [| split; [| reflexivity]]].
        * unfold to_dot. apply in_flat_map. exists s.
          split; [exact Hs | left; reflexivity].
        * unfold to_dot. apply in_flat_map. exists s.
          split; [exact Hs | right].
          apply in_map_iff. exists t. split; [reflexivity | exact Ht].
        * apply filter_In in Hr0. apply value_eqb_VStr. exact (proj2 Hr0). }
  destruct fs as [| f0 fs'].
  { discriminate Hcat. }
  rewrite (pd_concat_same_columns (columns agents) (f0 :: fs')) in Hcat;
    [| discriminate | intros f Hf; apply (Hall f Hf)].
  injection Hcat as <-. split; [reflexivity |].
  cbn [rows]. intros r' Hr'.
  change (rows f0 ++ flat_map rows fs') with (flat_map rows (f0 :: fs')) in Hr'.
  apply in_flat_map in Hr'.
  destruct Hr' as [f [Hf Hr']]. exact (proj2 (Hall f Hf) r' Hr').
Qed.

Lemma moves_follow_drawn_edges_witness :
  columns
    (mkFrame ["age"; "state"]%string
       [mkRow 0 [VInt 30; VStr "B"]; mkRow 2 [VInt 52; VStr "B"];
        mkRow 3 [VInt 63; VStr "C"]; mkRow 7 [VInt 18; VStr "A"];
        mkRow 1 [VInt 41; VStr "B"]; mkRow 4 [VInt 25; VStr "C"]])
  = columns population /\
  forall r',
    In r' [mkRow 0 [VInt 30; VStr "B"]; mkRow 2 [VInt 52; VStr "B"];
           mkRow 3 [VInt 63; VStr "C"]; mkRow 7 [VInt 18; VStr "A"];
           mkRow 1 [VInt 41; VStr "B"]; mkRow 4 [VInt 25; VStr "C"]] ->
    exists r0,
      In r0 (rows population) /\
      (r' = r0 \/
       exists tl hd,
         In (Node tl) (to_dot machine_a) /\
         In (Edge tl hd) (to_dot machine_a) /\
         nth 1 (cells r0) VNaN = VStr tl /\
         r' = mkRow (rid r0) (list_set 1 (VStr hd) (cells r0))).
Proof.
  apply (moves_follow_drawn_edges draw_by_rid machine_a population 1
           (mkFrame ["age"; "state"]%string
              [mkRow 0 [VInt 30; VStr "B"]; mkRow 2 [VInt 52; VStr "B"];
               mkRow 3 [VInt 63; VStr "C"]; mkRow 7 [VInt 18; VStr "A"];
               mkRow 1 [VInt 41; VStr "B"]; mkRow 4 [VInt 25; VStr "C"]])).
  - split; [repeat constructor; simpl; intuition discriminate
           | repeat constructor].
  - reflexivity.
  - reflexivity.
Defined.

(** ** The default transition *)

Lemma zip_with_repeat {A B C : Type} (f : A -> B -> C) (a : A) (b : B)
    (n : nat) :
  zip_with f (repeat a n) (repeat b n) = repeat (f a b) n.
Proof.
  unfold zip_with. induction n as [| n IH]; [reflexivity |].
  simpl. f_equal. exact IH.
Qed.

Lemma zip_with_repeat_r {A B C : Type} (f : A -> B -> C) (l : list A) (b : B) :
  zip_with f l (repeat b (length l)) = map (fun a => f a b) l.
Proof.
  unfold zip_with. induction l as [| a l IH]; [reflexivity |].
  simpl. f_equal. exact IH.
Qed.

Lemma map_Forall_repeat {A B : Type} (f : A -> B) (b : B) (l : list A) :
  Forall (fun a => f a = b) l -> map f l = repeat b (length l).
Proof.
  induction 1 as [| a l Ha _ IH]; [reflexivity |].
  simpl. rewrite Ha, IH. reflexivity.
Qed.

Lemma mask_select_all (agents : frame) :
  mask_select agents (repeat true (length (rows agents))) = agents.
Proof.
  destruct agents as [cols rs]. unfold mask_select. cbn [columns rows].
  f_equal. induction rs as [| r rs IH]; [reflexivity |].
  simpl. f_equal. exact IH.
Qed.

Lemma list_max_repeat_0 (n : nat) : list_max (repeat 0 n) = 0.
Proof. induction n as [| n IH]; [reflexivity | simpl; exact IH]. Qed.

Lemma groupby_one_group (agents : frame) :
  rows agents <> [] ->
  groupby agents (repeat 0 (length (rows agents))) = [(0, agents)].
Proof.
  intros Hne. unfold groupby, sorted_keys.
  rewrite list_max_repeat_0.
  assert (Hex : existsb (Nat.eqb 0) (repeat 0 (length (rows agents))) = true).
  { destruct (rows agents); [contradiction Hne; reflexivity | reflexivity]. }
  cbn [seq filter]. rewrite Hex. cbn [map].
  rewrite map_repeat. change (0 =? 0) with true.
  rewrite mask_select_all. reflexivity.
Qed.

Lemma well_formed_transition_effect (id : string) (agents : frame)
    (state_column : string) :
  well_formed agents ->
  well_formed (transition_effect id agents state_column).
Proof.
  intros Hwf. unfold transition_effect, _transition_side_effect.
  destruct (col_index state_column (columns agents)) as [i |] eqn:Hcol.
  - apply (well_formed_setitem agents state_column i _ Hwf Hcol).
  - destruct Hwf as [Hnd Hal]. unfold setitem. rewrite Hcol.
    split; cbn [columns rows].
    + apply NoDup_app; [exact Hnd | repeat constructor; intros [] |].
      intros c Hc [<- | []]. apply (proj1 (col_index_None _ _) Hcol Hc).
    + rewrite Forall_forall in *. intros r Hr.
      apply in_map_iff in Hr. destruct Hr as [r0 [<- Hr0]]. cbn [cells].
      rewrite !length_app. rewrite (Hal r0 Hr0). reflexivity.
Qed.

Lemma pd_concat_single (f : frame) :
  well_formed f -> pd_concat [f] = Ok f.
Proof.
  intros Hwf.
  rewrite (pd_concat_same_columns (columns f) [f]).
  - cbn [flat_map]. rewrite app_nil_r. destruct f; reflexivity.
  - discriminate.
  - intros g [<- | []]. split; [reflexivity | exact Hwf].
Qed.

Lemma np_any_gt_ones (n : nat) : np_any_gt (repeat fone n) fone = false.
Proof.
  unfold np_any_gt. induction n as [| k IH]; [reflexivity |].
  simpl. exact IH.
Qed.

Lemma default_output_indexes (get_draw : frame -> array) (allow : bool)
    (out : state_ref) (agents : frame) :
  length (get_draw agents) = length (rows agents) ->
  Forall (fun d => fge d fone = false) (get_draw agents) ->
  exists outputs,
    output_indexes get_draw (mkTransitionSet allow [Transition_default out])
                   agents
    = Ok (outputs, repeat 0 (length (rows agents))) /\
    nth_error outputs 0 = Some (Target out).
Proof.
  intros Hlen Hdraw.
  set (n := length (rows agents)) in *.
  assert (Hge : zip_with fge (get_draw agents) (repeat fone n)
                = repeat false n).
  { rewrite <- Hlen. rewrite zip_with_repeat_r.
    apply (map_Forall_repeat (fun d => fge d fone)). exact Hdraw. }
  unfold output_indexes, outcome_probabilities.
  cbn [transitions allow_null_transition map Transition_default probability
       output forallb].
  unfold default_probability_func, np_full. fold n.
  rewrite repeat_length, Nat.eqb_refl. cbn [andb negb].
  cbn [np_sum_axis0 fold_left].
  destruct allow; cbn [negb].
  - rewrite (np_any_gt_ones n). cbn [bind fst snd]. fold n.
    rewrite Hlen, Nat.eqb_refl. cbn [negb].
    exists [Target out; null_transition]. split; [| reflexivity].
    f_equal. f_equal.
    cbn [cumsum_axis0 cumsum_from np_ge_rows map app].
    rewrite map_repeat, zip_with_repeat.
    change (fadd fone (fsub fone fone)) with fone.
    rewrite Hge. unfold count_true_axis0. cbn [fold_left].
    rewrite !zip_with_repeat. reflexivity.
  - cbn [bind fst snd]. fold n.
    rewrite Hlen, Nat.eqb_refl. cbn [negb].
    exists [Target out]. split; [| reflexivity].
    f_equal. f_equal.
    unfold np_div_rows. cbn [map cumsum_axis0 cumsum_from np_ge_rows].
    rewrite zip_with_repeat.
    change (fdiv fone fone) with fone.
    rewrite Hge. unfold count_true_axis0. cbn [fold_left].
    rewrite !zip_with_repeat. reflexivity.
Qed.

(** X18: a transition built without a probability function is certain: a
    state whose only transition is such a one moves every agent of a
    non-empty cohort to the target, whether null transitions are allowed
    or not, for all draws that are not 1 or more; the result is the
    cohort with the state column set to the target. *)
Theorem default_transition_moves_everyone
    (get_draw : frame -> array) (id : string) (out : state_ref)
    (allow : bool) (agents : frame) (state_column : string) :
  well_formed agents ->
  rows agents <> [] ->
  length (get_draw agents) = length (rows agents) ->
  Forall (fun d => fge d fone = false) (get_draw agents) ->
  next_state get_draw
    (mkState id (mkTransitionSet allow [Transition_default out]))
    agents state_column
  = Ok (transition_effect (ref_state_id out) agents state_column).
Proof.
  intros Hwf Hne Hlen Hdraw.
  destruct (default_output_indexes get_draw allow out agents Hlen Hdraw)
    as [outputs [Hidx Hout]].
  unfold next_state. cbn [transition_set transitions length Nat.eqb].
  unfold groupby_new_state. rewrite Hidx. cbn [bind fst snd].
  rewrite (groupby_one_group agents Hne).
  cbn [groups_dict]. rewrite Hout. cbn [dict_set groups_dict].
  cbn [bind sorted_by_str fold_right insert_by_str map fst snd].
  apply pd_concat_single, well_formed_transition_effect, Hwf.
Qed.

Lemma default_transition_moves_everyone_witness :
  next_state draw_by_rid
    (mkState "A" (mkTransitionSet true [Transition_default state_B]))
    two_agents "state"
  = Ok (mkFrame ["age"; "state"]%string
          [mkRow 0 [VInt 30; VStr "B"]; mkRow 1 [VInt 41; VStr "B"]]).
Proof.
  apply (default_transition_moves_everyone draw_by_rid "A" state_B true
           two_agents "state").
  - split; [repeat constructor; simpl; intuition discriminate
           | repeat constructor].
  - discriminate.
  - reflexivity.
  - repeat constructor.
Defined.

(** ** Transitions that share a target *)

Lemma dict_set_In_other {V : Type} (k : outcome) (v : V) (d : dict V)
    (o : outcome) (f : V) :
  NoDup (map fst d) ->
  In (o, f) (dict_set k v d) ->
  (o = k /\ f = v) \/ (o <> k /\ In (o, f) d).
Proof.
  induction d as [| [k' v'] d IH]; simpl; intros Hnd.
  - intros [H | []]. injection H as <- <-. left. split; reflexivity.
  - inversion Hnd as [| x l Hnin Hnd']; subst.
    destruct (outcome_eqb k k') eqn:E.
    + apply outcome_eqb_eq in E. subst k'.
      intros [H | H].
      * injection H as <- <-. left. split; reflexivity.
      * right. split; [| right; exact H].
        intros ->. apply Hnin. apply in_map_iff. exists (k, f).
        split; [reflexivity | exact H].
    + intros [H | H].
      * injection H as <- <-. right. split; [| left; reflexivity].
        intros ->. rewrite (proj2 (outcome_eqb_eq k k) eq_refl) in E.
        discriminate E.
      * destruct (IH Hnd' H) as [H' | [Hne H']];
          [left; exact H' | right; split; [exact Hne | right; exact H']].
Qed.

Lemma groups_dict_latest (outputs : list outcome) (present : nat -> bool)
    (group : nat -> frame) (n b : nat) (acc d : dict frame) :
  latest_below outputs present group b acc ->
  groups_dict outputs
    (map (fun k => (k, group k)) (filter present (seq b n))) acc = Ok d ->
  latest_below outputs present group (b + n) d.
Proof.
  revert b acc. induction n as [| n IH]; intros b acc Hacc H.
  - simpl in H. injection H as <-. rewrite Nat.add_0_r. exact Hacc.
  - cbn [seq filter] in H. replace (b + S n) with (S b + n) by lia.
    destruct (present b) eqn:Hb.
    + cbn [map groups_dict] in H.
      destruct (nth_error outputs b) as [o0 |] eqn:Ho; [| discriminate H].
      apply (IH (S b) (dict_set o0 (group b) acc)); [| exact H].
      destruct Hacc as [Hnd Hent]. split; [apply dict_set_keys, Hnd |].
      intros o f Hin.
      destruct (dict_set_In_other _ _ _ _ _ Hnd Hin)
        as [[-> ->] | [Hne Hold]].
      * exists b.
        split; [lia |]. split; [exact Hb |]. split; [exact Ho |].
        split; [reflexivity |]. intros k' Hk' _ _. lia.
      * destruct (Hent o f Hold) as [k [Hk [Hp [Hk_o [Hf Hmax]]]]].
        exists k.
        split; [lia |]. split; [exact Hp |]. split; [exact Hk_o |].
        split; [exact Hf |]. intros k' Hk' Hp' Ho'.
        destruct (Nat.eq_dec k' b) as [-> | Hneq].
        -- rewrite Ho in Ho'. injection Ho' as ->. contradiction Hne.
           reflexivity.
        -- apply Hmax; [lia | exact Hp' | exact Ho'].
    + apply (IH (S b) acc); [| exact H].
      destruct Hacc as [Hnd Hent]. split; [exact Hnd |].
      intros o f Hin.
      destruct (Hent o f Hin) as [k [Hk [Hp [Hk_o [Hf Hmax]]]]].
      exists k.
      split; [lia |]. split; [exact Hp |]. split; [exact Hk_o |].
      split; [exact Hf |]. intros k' Hk' Hp' Ho'.
      destruct (Nat.eq_dec k' b) as [-> | Hneq]; [congruence |].
      apply Hmax; [lia | exact Hp' | exact Ho'].
Qed.

(** X19: when several transitions of a set lead to the same [State]
    object, only one group of agents is kept for it (two objects with
    the same identifier are two keys and keep a group each): every entry that
    [groupby_new_state] returns is the group of the largest outcome index
    assigned to any agent among the indexes of the entry's outcome; the
    agents with a smaller index of that outcome are in no group. *)
Theorem shared_target_keeps_last_group
    (get_draw : frame -> array) (ts : TransitionSet) (agents : frame)
    (outputs : list outcome) (idx : list nat) (d : dict frame)
    (o : outcome) (f : frame) :
  output_indexes get_draw ts agents = Ok (outputs, idx) ->
  groupby_new_state get_draw ts agents = Ok d ->
  In (o, f) d ->
  exists k,
    In k idx /\ nth_error outputs k = Some o /\
    f = mask_select agents (map (Nat.eqb k) idx) /\
    forall k', In k' idx -> nth_error outputs k' = Some o -> k' <= k.
Proof.
  intros Hidx Hd Hin. unfold groupby_new_state in Hd.
  rewrite Hidx in Hd. cbn [bind fst snd] in Hd.
  unfold groupby, sorted_keys in Hd.
  set (present := fun k => existsb (Nat.eqb k) idx) in *.
  assert (Hpresent : forall k, present k = true <-> In k idx).
  { intros k. unfold present. rewrite existsb_exists. split.
    - intros [x [Hx E]]. apply Nat.eqb_eq in E. subst. exact Hx.
    - intros Hk. exists k. split; [exact Hk | apply Nat.eqb_refl]. }
  destruct (groups_dict_latest outputs present
              (fun k => mask_select agents (map (Nat.eqb k) idx))
              (S (list_max idx)) 0 [] d) as [_ Hent].
  { split; [constructor | intros ? ? []]. }
  { exact Hd. }
  destruct (Hent o f Hin) as [k [_ [Hp [Ho [Hf Hmax]]]]].
  exists k. split; [apply Hpresent, Hp |].
  split; [exact Ho |]. split; [exact Hf |].
  intros k' Hk' Ho'. apply Hmax; [| apply Hpresent, Hk' | exact Ho'].
  cbn [plus].
  pose proof (proj1 (list_max_le idx (list_max idx)) (le_n _)) as Hall.
  rewrite Forall_forall in Hall. specialize (Hall k' Hk'). lia.
Qed.

Lemma shared_target_keeps_last_group_witness :
  exists k,
    In k [0; 0; 1; 2] /\
    nth_error [Target state_B; Target state_B; null_transition] k
    = Some (Target state_B) /\
    mkFrame ["age"; "state"]%string [mkRow 3 [VInt 63; VStr "A"]]
    = mask_select
        (mkFrame ["age"; "state"]%string
           [mkRow 0 [VInt 30; VStr "A"]; mkRow 2 [VInt 52; VStr "A"];
            mkRow 3 [VInt 63; VStr "A"]; mkRow 7 [VInt 18; VStr "A"]])
        (map (Nat.eqb k) [0; 0; 1; 2]) /\
    forall k', In k' [0; 0; 1; 2] ->
      nth_error [Target state_B; Target state_B; null_transition] k'
      = Some (Target state_B) ->
      k' <= k.
Proof.
  apply (shared_target_keeps_last_group draw_by_rid
           (transition_set twice_to_b)
           (mkFrame ["age"; "state"]%string
              [mkRow 0 [VInt 30; VStr "A"]; mkRow 2 [VInt 52; VStr "A"];
               mkRow 3 [VInt 63; VStr "A"]; mkRow 7 [VInt 18; VStr "A"]])
           [Target state_B; Target state_B; null_transition] [0; 0; 1; 2]
           [(Target state_B,
             mkFrame ["age"; "state"]%string [mkRow 3 [VInt 63; VStr "A"]]);
            (null_transition,
             mkFrame ["age"; "state"]%string [mkRow 7 [VInt 18; VStr "A"]])]).
  - reflexivity.
  - reflexivity.
  - left. reflexivity.
Defined.

(** ** Blood pressure screening *)

Lemma nth_error_zip_with {A B C : Type} (f : A -> B -> C) (a : list A)
    (b : list B) (j : nat) (x : A) (y : B) :
  nth_error a j = Some x -> nth_error b j = Some y ->
  nth_error (zip_with f a b) j = Some (f x y).
Proof.
  unfold zip_with. revert b j.
  induction a as [| x0 a IH]; intros [| y0 b] [| j] Ha Hb;
    simpl in *; try discriminate.
  - injection Ha as ->. injection Hb as ->. reflexivity.
  - apply IH; assumption.
Qed.

Lemma nth_error_loc_set (mask : list bool) (write : simulant -> simulant)
    (population : list simulant) (j : nat) (b : bool) (s : simulant) :
  nth_error mask j = Some b -> nth_error population j = Some s ->
  nth_error (loc_set mask write population) j
  = Some (if b then write s else s).
Proof.
  revert mask j.
  induction population as [| s0 p IH]; intros [| b0 m] [| j] Hm Hp;
    simpl in *; try discriminate.
  - injection Hm as ->. injection Hp as ->. reflexivity.
  - apply IH; assumption.
Qed.

Lemma nth_error_series_and (a b : list bool) (j : nat) (x y : bool) :
  nth_error a j = Some x -> nth_error b j = Some y ->
  nth_error (series_and a b) j = Some (x && y).
Proof. apply nth_error_zip_with. Qed.

Lemma nth_error_series_or (a b : list bool) (j : nat) (x y : bool) :
  nth_error a j = Some x -> nth_error b j = Some y ->
  nth_error (series_or a b) j = Some (x || y).
Proof. apply nth_error_zip_with. Qed.

Lemma nth_error_series_lt (s : list float) (c : float) (j : nat) (x : float) :
  nth_error s j = Some x -> nth_error (series_lt s c) j = Some (flt x c).
Proof. apply (map_nth_error (fun x => flt x c)). Qed.

Lemma nth_error_series_ge (s : list float) (c : float) (j : nat) (x : float) :
  nth_error s j = Some x -> nth_error (series_ge s c) j = Some (fge x c).
Proof. apply (map_nth_error (fun x => fge x c)). Qed.

Lemma nth_error_series_is_false (s : list bool) (j : nat) (x : bool) :
  nth_error s j = Some x ->
  nth_error (series_is_false s) j = Some (negb x).
Proof. apply (map_nth_error negb). Qed.

Ltac series_entry :=
  repeat first
    [ eassumption
    | apply nth_error_series_or
    | apply nth_error_series_and
    | apply nth_error_series_lt
    | apply nth_error_series_ge
    | apply nth_error_series_is_false ].

Lemma hypertensive_categories_at (mask : list bool)
    (population : list simulant) (n h sv : list bool) (j : nat) (m : bool)
    (s : simulant) :
  _hypertensive_categories mask population = (n, h, sv) ->
  nth_error mask j = Some m -> nth_error population j = Some s ->
  nth_error n j
  = Some (m && flt (age s) (Fin 60)
            && flt (systolic_blood_pressure s) (Fin 140)
          || m && fge (age s) (Fin 60)
               && flt (systolic_blood_pressure s) (Fin 150)) /\
  nth_error h j
  = Some (m && flt (age s) (Fin 60)
            && fge (systolic_blood_pressure s) (Fin 140)
            && flt (systolic_blood_pressure s) (Fin 180)
          || m && fge (age s) (Fin 60)
               && fge (systolic_blood_pressure s) (Fin 150)
               && flt (systolic_blood_pressure s) (Fin 180)) /\
  nth_error sv j = Some (m && fge (systolic_blood_pressure s) (Fin 180)).
Proof.
  intros H Hm Hs. unfold _hypertensive_categories in H.
  injection H as <- <- <-.
  pose proof (map_nth_error age j population Hs) as Ha.
  pose proof (map_nth_error systolic_blood_pressure j population Hs) as Hp.
  split; [| split]; series_entry.
Qed.

Lemma Qle_bool_false (x y : Q) : Qle_bool x y = false -> (y < x)%Q.
Proof.
  intros H. apply Qnot_le_lt. intros Hle.
  apply Qle_bool_iff in Hle. congruence.
Qed.

Lemma category_bits (m : bool) (a p : float) :
  let bn := m && flt a (Fin 60) && flt p (Fin 140)
            || m && fge a (Fin 60) && flt p (Fin 150) in
  let bh := m && flt a (Fin 60) && fge p (Fin 140) && flt p (Fin 180)
            || m && fge a (Fin 60) && fge p (Fin 150) && flt p (Fin 180) in
  let bs := m && fge p (Fin 180) in
  bn && bh = false /\ bn && bs = false /\ bh && bs = false /\
  bn || bh || bs
  = m && (negb (is_nan p) && (negb (is_nan a) || fge p (Fin 180))).
Proof.
  destruct m; [| repeat split; reflexivity].
  destruct p as [qp | | |]; destruct a as [qa | | |];
    unfold flt, fgt, fge, Qltb; cbn [andb orb negb is_nan].
  all: repeat match goal with
              | |- context [Qle_bool ?x ?y] =>
                  let E := fresh "E" in destruct (Qle_bool x y) eqn:E
              end;
       cbn [andb orb negb];
       try (repeat split; reflexivity).
  all: exfalso;
       repeat match goal with
              | H : Qle_bool _ _ = true |- _ => apply Qle_bool_iff in H
              | H : Qle_bool _ _ = false |- _ => apply Qle_bool_false in H
              end; lra.
Qed.

(** X20: at every position of the population, the three categories of
    [_hypertensive_categories] exclude each other, and the simulant is in
    one of them exactly when it is in the mask, its blood pressure is a
    number and its age is a number or the pressure is 180 or more: a
    simulant with an unknown age and a pressure under 180 is in none. *)
Theorem hypertensive_categories_exclusive
    (mask : list bool) (population : list simulant) (n h sv : list bool)
    (j : nat) (m : bool) (s : simulant) :
  _hypertensive_categories mask population = (n, h, sv) ->
  nth_error mask j = Some m -> nth_error population j = Some s ->
  exists bn bh bs,
    nth_error n j = Some bn /\ nth_error h j = Some bh /\
    nth_error sv j = Some bs /\
    bn && bh = false /\ bn && bs = false /\ bh && bs = false /\
    bn || bh || bs = m && classifiable s /\
    bs = m && fge (systolic_blood_pressure s) (Fin 180).
Proof.
  intros H Hm Hs.
  destruct (hypertensive_categories_at _ _ _ _ _ _ _ _ H Hm Hs)
    as [Hn [Hh Hsv]].
  destruct (category_bits m (age s) (systolic_blood_pressure s))
    as [H1 [H2 [H3 H4]]].
  eexists. eexists. eexists.
  split; [exact Hn |]. split; [exact Hh |]. split; [exact Hsv |].
  split; [exact H1 |]. split; [exact H2 |]. split; [exact H3 |].
  split; [exact H4 | reflexivity].
Qed.

Lemma cost_get_set (year : Z) (c : Q) (costs : list (Z * Q)) :
  cost_get year (cost_set year c costs) = c.
Proof.
  induction costs as [| [y c'] costs IH]; simpl.
  - rewrite Z.eqb_refl. reflexivity.
  - destruct (Z.eqb year y) eqn:E; simpl; rewrite E; [reflexivity | exact IH].
Qed.

Lemma category_entries (mask : list bool) (population : list simulant)
    (n h sv : list bool) (j : nat) (m : bool) (s : simulant)
    (bn bh bs : bool) :
  _hypertensive_categories mask population = (n, h, sv) ->
  nth_error mask j = Some m -> nth_error population j = Some s ->
  nth_error n j = Some bn -> nth_error h j = Some bh ->
  nth_error sv j = Some bs ->
  bn && bh = false /\ bn && bs = false /\ bh && bs = false.
Proof.
  intros H Hm Hs Hn Hh Hsv.
  destruct (hypertensive_categories_at _ _ _ _ _ _ _ _ H Hm Hs)
    as [Hn' [Hh' Hsv']].
  rewrite Hn in Hn'. rewrite Hh in Hh'. rewrite Hsv in Hsv'.
  injection Hn' as ->. injection Hh' as ->. injection Hsv' as ->.
  destruct (category_bits m (age s) (systolic_blood_pressure s))
    as [H1 [H2 [H3 _]]].
  split; [exact H1 |]. split; [exact H2 | exact H3].
Qed.

(** X21: a blood pressure test outside a follow-up costs 3 per simulant of
    the mask and leaves every simulant outside the three categories as
    it was; a normotensive simulant gets a follow-up date 60 months
    ahead, a hypertensive one 1 month ahead, both keeping their
    medication, and a severely hypertensive one 6 months ahead, with both
    medications. *)
Theorem non_followup_test_schedules
    (year_of : Q -> Z) (costs : list (Z * Q)) (mask : list bool)
    (sim : Simulation) (n h sv : list bool) (j : nat) (m : bool)
    (s : simulant) (bn bh bs : bool) :
  _hypertensive_categories mask (simulation_population sim) = (n, h, sv) ->
  nth_error mask j = Some m ->
  nth_error (simulation_population sim) j = Some s ->
  nth_error n j = Some bn -> nth_error h j = Some bh ->
  nth_error sv j = Some bs ->
  exists s',
    nth_error
      (simulation_population
         (snd (non_followup_blood_pressure_test year_of costs mask sim))) j
    = Some s' /\
    (bn = true ->
     s' = set_followup_date (current_time sim + months 60)%Q s) /\
    (bh = true ->
     s' = set_followup_date (current_time sim + months 1)%Q s) /\
    (bs = true ->
     s' = mkSimulant (age s) (systolic_blood_pressure s)
            (Some (current_time sim + months 6)%Q) true true) /\
    (bn || bh || bs = false -> s' = s) /\
    cost_get (year_of (current_time sim))
      (fst (non_followup_blood_pressure_test year_of costs mask sim))
    = (cost_get (year_of (current_time sim)) costs + sum_mask mask * 3)%Q.
Proof.
  intros H Hm Hs Hn Hh Hsv.
  destruct (category_entries _ _ _ _ _ _ _ _ _ _ _ H Hm Hs Hn Hh Hsv)
    as [H1 [H2 H3]].
  unfold non_followup_blood_pressure_test. rewrite H.
  cbn [fst snd simulation_population].
  eexists. split.
  { repeat (eapply nth_error_loc_set; [eassumption |]). exact Hs. }
  rewrite cost_get_set.
  destruct s as [a p d ma mb].
  destruct bn, bh, bs; try discriminate;
    repeat split; intros; try discriminate; reflexivity.
Qed.

(** X22: a blood pressure test at a follow-up never leaves the 60-month
    follow-up date it writes for unmedicated normotensive simulants: a
    normotensive simulant that lacks one of the medications gets a date
    11 months ahead and no medication; one that takes both medications
    is left as it was.  A hypertensive simulant gets a date 6 months
    ahead and medication a; a severely hypertensive one both
    medications; every other simulant is left as it was. *)
Theorem followup_test_schedules
    (year_of : Q -> Z) (costs : list (Z * Q)) (mask : list bool)
    (sim : Simulation) (n h sv : list bool) (j : nat) (m : bool)
    (s : simulant) (bn bh bs : bool) :
  _hypertensive_categories mask (simulation_population sim) = (n, h, sv) ->
  nth_error mask j = Some m ->
  nth_error (simulation_population sim) j = Some s ->
  nth_error n j = Some bn -> nth_error h j = Some bh ->
  nth_error sv j = Some bs ->
  exists s',
    nth_error
      (simulation_population
         (snd (followup_blood_pressure_test year_of costs mask sim))) j
    = Some s' /\
    (bn = true ->
     taking_blood_pressure_medication_a s
     && taking_blood_pressure_medication_b s = false ->
     s' = mkSimulant (age s) (systolic_blood_pressure s)
            (Some (current_time sim + months 11)%Q) false false) /\
    (bn = true ->
     taking_blood_pressure_medication_a s
     && taking_blood_pressure_medication_b s = true ->
     s' = s) /\
    (bh = true ->
     s' = mkSimulant (age s) (systolic_blood_pressure s)
            (Some (current_time sim + months 6)%Q) true
            (taking_blood_pressure_medication_b s)) /\
    (bs = true ->
     s' = mkSimulant (age s) (systolic_blood_pressure s)
            (Some (current_time sim + months 6)%Q) true true) /\
    (bn || bh || bs = false -> s' = s).
Proof.
  intros H Hm Hs Hn Hh Hsv.
  destruct (category_entries _ _ _ _ _ _ _ _ _ _ _ H Hm Hs Hn Hh Hsv)
    as [H1 [H2 H3]].
  pose proof (map_nth_error taking_blood_pressure_medication_a j _ Hs) as Ha.
  pose proof (map_nth_error taking_blood_pressure_medication_b j _ Hs) as Hb.
  assert (Hnon : nth_error
            (series_and
               (series_and n
                  (series_is_false
                     (map taking_blood_pressure_medication_a
                        (simulation_population sim))))
               (series_is_false
                  (map taking_blood_pressure_medication_b
                     (simulation_population sim)))) j
          = Some (bn && negb (taking_blood_pressure_medication_a s)
                  && negb (taking_blood_pressure_medication_b s)))
    by series_entry.
  assert (Hmed : nth_error
            (series_and n
               (series_or
                  (series_is_false
                     (map taking_blood_pressure_medication_a
                        (simulation_population sim)))
                  (series_is_false
                     (map taking_blood_pressure_medication_b
                        (simulation_population sim))))) j
          = Some (bn && (negb (taking_blood_pressure_medication_a s)
                         || negb (taking_blood_pressure_medication_b s))))
    by series_entry.
  unfold followup_blood_pressure_test. rewrite H.
  cbn [fst snd simulation_population].
  eexists. split.
  { repeat (eapply nth_error_loc_set; [eassumption |]). exact Hs. }
  destruct s as [a p d ma mb].
  cbn [taking_blood_pressure_medication_a taking_blood_pressure_medication_b].
  destruct bn, bh, bs; try discriminate; destruct ma, mb;
    repeat split; intros; try discriminate; reflexivity.
Qed.

Lemma hypertensive_categories_exclusive_witness :
  exists bn bh bs,
    nth_error [true; false; false; false] 2 = Some bn /\
    nth_error [false; true; false; false] 2 = Some bh /\
    nth_error [false; false; false; true] 2 = Some bs /\
    bn && bh = false /\ bn && bs = false /\ bh && bs = false /\
    bn || bh || bs
    = true && classifiable (mkSimulant NaN (Fin 150) None false false) /\
    bs = true && fge (Fin 150) (Fin 180).
Proof.
  apply (hypertensive_categories_exclusive
           [true; true; true; true] screened
           [true; false; false; false] [false; true; false; false]
           [false; false; false; true] 2 true
           (mkSimulant NaN (Fin 150) None false false));
    reflexivity.
Defined.

Lemma non_followup_test_schedules_witness :
  exists s',
    nth_error
      (simulation_population
         (snd (non_followup_blood_pressure_test (fun _ => 1990%Z) []
                 [true; true; true; true] (mkSimulation 100 screened)))) 3
    = Some s' /\
    (false = true ->
     s' = set_followup_date (100 + months 60)%Q
            (mkSimulant (Fin 50) (Fin 190) None false true)) /\
    (false = true ->
     s' = set_followup_date (100 + months 1)%Q
            (mkSimulant (Fin 50) (Fin 190) None false true)) /\
    (true = true ->
     s' = mkSimulant (Fin 50) (Fin 190) (Some (100 + months 6)%Q) true true) /\
    (false || false || true = false ->
     s' = mkSimulant (Fin 50) (Fin 190) None false true) /\
    cost_get 1990
      (fst (non_followup_blood_pressure_test (fun _ => 1990%Z) []
              [true; true; true; true] (mkSimulation 100 screened)))
    = (cost_get 1990 [] + sum_mask [true; true; true; true] * 3)%Q.
Proof.
  apply (non_followup_test_schedules (fun _ => 1990%Z) []
           [true; true; true; true] (mkSimulation 100 screened)
           [true; false; false; false] [false; true; false; false]
           [false; false; false; true] 3 true
           (mkSimulant (Fin 50) (Fin 190) None false true)
           false false true);
    reflexivity.
Defined.

Lemma followup_test_schedules_witness :
  exists s',
    nth_error
      (simulation_population
         (snd (followup_blood_pressure_test (fun _ => 1990%Z) []
                 [true; true; true; true] (mkSimulation 100 screened)))) 0
    = Some s' /\
    (true = true -> false && false = false ->
     s' = mkSimulant (Fin 45) (Fin 130) (Some (100 + months 11)%Q)
            false false) /\
    (true = true -> false && false = true ->
     s' = mkSimulant (Fin 45) (Fin 130) None false false) /\
    (false = true ->
     s' = mkSimulant (Fin 45) (Fin 130) (Some (100 + months 6)%Q) true false) /\
    (false = true ->
     s' = mkSimulant (Fin 45) (Fin 130) (Some (100 + months 6)%Q) true true) /\
    (true || false || false = false ->
     s' = mkSimulant (Fin 45) (Fin 130) None false false).
Proof.
  apply (followup_test_schedules (fun _ => 1990%Z) []
           [true; true; true; true] (mkSimulation 100 screened)
           [true; false; false; false] [false; true; false; false]
           [false; false; false; true] 0 true
           (mkSimulant (Fin 45) (Fin 130) None false false)
           true false false);
    reflexivity.
Defined.

(** ** Looking up a stratification *)

Lemma ascii_compare_N (a b : ascii) :
  Ascii.compare a b = N.compare (N_of_ascii a) (N_of_ascii b).
Proof. reflexivity. Qed.

Lemma string_compare_trans (a b c : string) :
  String.compare a b <> Gt -> String.compare b c <> Gt ->
  String.compare a c <> Gt.
Proof.
  revert b c. induction a as [| x a IH]; intros [| y b] [| z c];
    simpl; try congruence.
  rewrite !ascii_compare_N.
  destruct (N.compare_spec (N_of_ascii x) (N_of_ascii y)) as [Exy | Lxy | Gxy];
    destruct (N.compare_spec (N_of_ascii y) (N_of_ascii z))
      as [Eyz | Lyz | Gyz];
    try congruence;
    destruct (N.compare_spec (N_of_ascii x) (N_of_ascii z))
      as [Exz | Lxz | Gxz];
    try congruence; try lia.
  apply IH.
Qed.

Lemma string_leb_trans (a b c : string) :
  String.leb a b = true -> String.leb b c = true -> String.leb a c = true.
Proof.
  unfold String.leb. intros Hab Hbc.
  pose proof (string_compare_trans a b c) as H.
  destruct (String.compare a b), (String.compare b c),
    (String.compare a c); try reflexivity; try discriminate;
    exfalso; apply H; congruence.
Qed.

Lemma string_leb_false (a b : string) :
  String.leb a b = false -> String.leb b a = true.
Proof.
  intros H. destruct (String.leb_total a b) as [H' | H'];
    [congruence | exact H'].
Qed.

Lemma insert_str_comm (x y : string) (l : list string) :
  insert_str x (insert_str y l) = insert_str y (insert_str x l).
Proof.
  induction l as [| z l IH]; simpl.
  - destruct (String.leb x y) eqn:Exy, (String.leb y x) eqn:Eyx;
      try reflexivity.
    + rewrite (String.leb_antisym _ _ Exy Eyx). reflexivity.
    + apply string_leb_false in Exy. congruence.
  - destruct (String.leb y z) eqn:Eyz, (String.leb x z) eqn:Exz; simpl;
      rewrite ?Eyz, ?Exz.
    + destruct (String.leb x y) eqn:Exy, (String.leb y x) eqn:Eyx;
        rewrite ?Eyz, ?Exz; try reflexivity.
      * rewrite (String.leb_antisym _ _ Exy Eyx). reflexivity.
      * apply string_leb_false in Exy. congruence.
    + assert (Exy : String.leb x y = false).
      { destruct (String.leb x y) eqn:E; [| reflexivity].
        rewrite (string_leb_trans _ _ _ E Eyz) in Exz. discriminate. }
      simpl. rewrite ?Exy, ?Eyz, ?Exz. reflexivity.
    + assert (Eyx : String.leb y x = false).
      { destruct (String.leb y x) eqn:E; [| reflexivity].
        rewrite (string_leb_trans _ _ _ E Exz) in Eyz. discriminate. }
      simpl. rewrite ?Eyx, ?Eyz, ?Exz. reflexivity.
    + rewrite IH. reflexivity.
Qed.

Lemma insert_str_perm (x : string) (l : list string) :
  Permutation (x :: l) (insert_str x l).
Proof.
  induction l as [| y l IH]; simpl; [apply Permutation_refl |].
  destruct (String.leb x y); [apply Permutation_refl |].
  apply (perm_trans (perm_swap y x l)). apply perm_skip. exact IH.
Qed.

Lemma sorted_perm (l : list string) : Permutation l (sorted l).
Proof.
  induction l as [| x l IH]; simpl; [constructor |].
  apply (perm_trans (perm_skip x IH)). apply insert_str_perm.
Qed.

Lemma sorted_eq_iff (a b : list string) :
  sorted a = sorted b <-> Permutation a b.
Proof.
  split.
  - intros H. apply (perm_trans (sorted_perm a)). rewrite H.
    apply Permutation_sym, sorted_perm.
  - induction 1 as [| x l l' _ IH | x y l | l l' l'' _ IH1 _ IH2]; simpl.
    + reflexivity.
    + rewrite IH. reflexivity.
    + apply insert_str_comm.
    + rewrite IH1. exact IH2.
Qed.

Lemma list_eqb_eq (a b : list string) : list_eqb a b = true <-> a = b.
Proof.
  revert b. induction a as [| x a IH]; intros [| y b]; simpl;
    try (split; [discriminate | discriminate]); [tauto |].
  rewrite andb_true_iff, String.eqb_eq, IH.
  split; [intros [-> ->]; reflexivity | intros H; injection H; auto].
Qed.

(** X23: [verify_stratification_added] finds a stratification exactly when
    the list holds one with the given name, mapper and vectorization
    flag whose categories and sources are the given ones in some order,
    each as often as given. *)
Theorem verify_stratification_added_iff
    (stratification_list : list Stratification) (name : string)
    (sources categories : list string) (mapper : string)
    (is_vectorized : bool) :
  verify_stratification_added stratification_list name sources categories
                              mapper is_vectorized = true
  <-> exists s,
        In s stratification_list /\
        stratification_name s = name /\
        Permutation (stratification_categories s) categories /\
        stratification_mapper s = mapper /\
        stratification_is_vectorized s = is_vectorized /\
        Permutation (stratification_sources s) sources.
Proof.
  unfold verify_stratification_added. rewrite existsb_exists.
  split; intros [s [Hin H]]; exists s; (split; [exact Hin |]).
  - repeat (apply andb_true_iff in H; destruct H as [H ?]).
    apply String.eqb_eq in H.
    repeat match goal with
           | H : list_eqb _ _ = true |- _ =>
               apply list_eqb_eq, sorted_eq_iff in H
           | H : String.eqb _ _ = true |- _ => apply String.eqb_eq in H
           | H : Bool.eqb _ _ = true |- _ => apply Bool.eqb_prop in H
           end.
    repeat split; assumption.
  - destruct H as [Hn [Hc [Hm [Hv Hs]]]].
    repeat (apply andb_true_iff; split).
    + apply String.eqb_eq, Hn.
    + apply list_eqb_eq, sorted_eq_iff, Hc.
    + apply String.eqb_eq, Hm.
    + rewrite Hv. apply Bool.eqb_reflx.
    + apply list_eqb_eq, sorted_eq_iff, Hs.
Qed.

Lemma verify_stratification_added_iff_witness :
  verify_stratification_added
    [mkStratification "hogwarts_house" ["first_name"; "last_name"]%string
       ["hufflepuff"; "ravenclaw"; "slytherin"; "gryffindor"]%string
       "sorting_hat_serial" false]
    "hogwarts_house" ["last_name"; "first_name"]%string
    ["gryffindor"; "hufflepuff"; "ravenclaw"; "slytherin"]%string
    "sorting_hat_serial" false
  = true.
Proof.
  apply (proj2 (verify_stratification_added_iff
                  [mkStratification "hogwarts_house"
                     ["first_name"; "last_name"]%string
                     ["hufflepuff"; "ravenclaw"; "slytherin";
                      "gryffindor"]%string
                     "sorting_hat_serial" false]
                  "hogwarts_house" ["last_name"; "first_name"]%string
                  ["gryffindor"; "hufflepuff"; "ravenclaw";
                   "slytherin"]%string
                  "sorting_hat_serial" false)).
  eexists. split; [left; reflexivity |].
  split; [reflexivity |].
  split; [apply sorted_eq_iff; reflexivity |].
  split; [reflexivity |]. split; [reflexivity |].
  apply sorted_eq_iff. reflexivity.
Defined.

(** ** The agents that [Machine.transition] returns *)

Lemma groups_dict_in_range (outputs : list outcome)
    (groups : list (nat * frame)) (acc d : dict frame) :
  groups_dict outputs groups acc = Ok d ->
  forall g, In g groups -> fst g < length outputs.
Proof.
  revert acc. induction groups as [| [k sub] groups IH]; intros acc H g Hg;
    [destruct Hg |].
  simpl in H.
  destruct (nth_error outputs k) as [o |] eqn:Hk; [| discriminate H].
  destruct Hg as [<- | Hg].
  - simpl. apply nth_error_Some. congruence.
  - apply (IH _ H g Hg).
Qed.

Lemma groupby_new_state_returns (get_draw : frame -> array)
    (ts : TransitionSet) (agents : frame) (groups : dict frame) :
  distinct_targets ts ->
  groupby_new_state get_draw ts agents = Ok groups ->
  Permutation (flat_map (fun item => ids (snd item)) groups) (ids agents).
Proof.
  intros Hnd H. unfold groupby_new_state in H.
  apply bind_Ok_inv in H. destruct H as [[outputs idx] [Hoi H]].
  cbn [fst snd] in H.
  pose proof (output_indexes_length _ _ _ _ _ Hoi) as Hlen.
  assert (Hnodup : NoDup outputs).
  { destruct (output_indexes_Ok _ _ _ _ _ Hoi) as [probs [Hop _]].
    apply outcome_probabilities_Ok in Hop. destruct Hop as [_ [_ Hop]].
    pose proof (outputs_NoDup (transitions ts) (allow_null_transition ts) Hnd)
      as Hall.
    destruct (allow_null_transition ts).
    - destruct Hop as [_ [-> _]]. exact Hall.
    - destruct Hop as [-> _]. rewrite app_nil_r in Hall. exact Hall. }
  pose proof (groups_dict_in_range _ _ _ _ H) as Hkeys.
  rewrite groups_dict_distinct in H; [| | exact Hkeys].
  - injection H as <-. cbn [app].
    rewrite flat_map_map. unfold ids. simpl.
    rewrite <- (map_flat_map rid (fun g : nat * frame => rows (snd g))).
    apply Permutation_map. apply groupby_rows. exact Hlen.
  - simpl.
    rewrite <- (map_map fst (fun k => nth k outputs null_transition)).
    rewrite groupby_keys.
    apply NoDup_map_nth; [exact Hnodup | apply sorted_keys_NoDup |].
    intros k Hk. rewrite <- (groupby_keys agents idx) in Hk.
    apply in_map_iff in Hk. destruct Hk as [g [<- Hg]]. apply Hkeys, Hg.
Qed.

Lemma next_state_returns (get_draw : frame -> array) (s : State)
    (agents : frame) (col : string) (r : frame) :
  distinct_targets (transition_set s) ->
  next_state get_draw s agents col = Ok r ->
  Permutation (ids r) (ids agents).
Proof.
  intros Hnd H. unfold next_state in H.
  destruct (transitions (transition_set s)) as [| t l] eqn:Hts.
  - injection H as <-. apply Permutation_refl.
  - simpl Nat.eqb in H. cbv iota in H.
    apply bind_Ok_inv in H. destruct H as [groups [Hg H]].
    pose proof (groupby_new_state_returns _ _ _ _ Hnd Hg) as Hperm.
    destruct groups as [| g groups].
    + injection H as <-. simpl in Hperm. exact Hperm.
    + remember (g :: groups) as D eqn:HD.
      destruct (pd_concat_ids
                  (map (fun item : outcome * frame =>
                          match fst item with
                          | Target state =>
                              transition_effect (ref_state_id state)
                                                (snd item) col
                          | null_transition => snd item
                          end)
                       (sorted_by_str D))) as [r' [Hr Hids]].
      { intros Hnil. apply map_eq_nil in Hnil.
        pose proof (Permutation_length (sorted_by_str_perm D)) as HL.
        rewrite Hnil, HD in HL. discriminate HL. }
      rewrite HD in H. rewrite <- HD in H. rewrite Hr in H.
      injection H as <-.
      rewrite Hids, flat_map_map.
      rewrite (flat_map_ext_in _ (fun item => ids (snd item))).
      * rewrite (sorted_by_str_perm D). exact Hperm.
      * intros [o f] _. simpl. destruct o as [id |];
          [apply transition_effect_ids | reflexivity].
Qed.

Lemma Forall2_impl_In_l {A B : Type} (P Q : A -> B -> Prop) (xs : list A)
    (ys : list B) :
  (forall x y, In x xs -> P x y -> Q x y) ->
  Forall2 P xs ys -> Forall2 Q xs ys.
Proof.
  intros Himp H. induction H as [| x y xs ys Hxy _ IH]; constructor.
  - apply Himp; [left; reflexivity | exact Hxy].
  - apply IH. intros x' y' Hin. apply Himp. right. exact Hin.
Qed.

(** X2: whenever [Machine.transition] returns, for a machine whose states
    have pairwise distinct identifiers and whose transition sets each
    lead to pairwise distinct [State] objects, the agents returned are
    exactly those whose state-column value is the identifier of a declared
    state, each once: agents in an undeclared state are left out without
    an error. *)
Theorem transition_drops_undeclared_states
    (get_draw : frame -> array) (m : Machine) (agents : frame) (i : nat)
    (r : frame) :
  NoDup (map state_id (states m)) ->
  col_index (state_column m) (columns agents) = Some i ->
  (forall s, In s (states m) -> distinct_targets (transition_set s)) ->
  transition get_draw m agents = Ok r ->
  Permutation (ids r)
              (map rid (filter (declared (states m) i) (rows agents))).
Proof.
  intros Hnd Hcol Hdistinct H. unfold transition in H.
  apply bind_Ok_inv in H. destruct H as [fs [Hfs Hcat]].
  apply mapM_Ok_inv in Hfs.
  assert (HF : Forall2 (fun s f =>
                          Permutation (ids f)
                            (map rid (cohort_rows agents i (state_id s))))
                       (states m) fs).
  { revert Hfs. apply Forall2_impl_In_l. intros s f Hs Hf.
    rewrite (select_eq_cohort agents (state_column m) i (state_id s) Hcol)
      in Hf.
    cbn [bind] in Hf.
    apply (next_state_returns _ _ _ _ _ (Hdistinct s Hs) Hf). }
  destruct fs as [| f0 fs']; [discriminate Hcat |].
  destruct (pd_concat_ids (f0 :: fs')) as [r' [Hr Hids]]; [discriminate |].
  rewrite Hr in Hcat. injection Hcat as <-.
  rewrite Hids.
  rewrite (flat_map_Forall2_perm
             (fun s => map rid (cohort_rows agents i (state_id s)))
             ids (states m) (f0 :: fs') HF).
  rewrite <- (map_flat_map rid
                (fun s => cohort_rows agents i (state_id s))).
  apply Permutation_map.
  rewrite (flat_map_ext_in
             (fun s => cohort_rows agents i (state_id s))
             (fun s => cohort_rows
                         (mkFrame (columns agents)
                            (filter (declared (states m) i) (rows agents)))
                         i (state_id s)))
    by (intros s Hs; symmetry; apply cohort_rows_declared; exact Hs).
  apply (cohorts_split
           (mkFrame (columns agents)
              (filter (declared (states m) i) (rows agents)))
           i (states m) Hnd).
  simpl. apply forallb_forall. intros r0 Hr0.
  apply filter_In in Hr0. exact (proj2 Hr0).
Qed.

Lemma transition_drops_undeclared_states_witness :
  transition draw_by_rid machine_a population_with_stranger
  = Ok (mkFrame ["age"; "state"]%string
          [mkRow 0 [VInt 30; VStr "B"]; mkRow 2 [VInt 52; VStr "B"];
           mkRow 3 [VInt 63; VStr "C"]; mkRow 7 [VInt 18; VStr "A"];
           mkRow 1 [VInt 41; VStr "B"]; mkRow 4 [VInt 25; VStr "C"]]) /\
  In 9 (ids population_with_stranger) /\
  Permutation [0; 2; 3; 7; 1; 4]
    (map rid (filter (declared (states machine_a) 1)
                     (rows population_with_stranger))).
Proof.
  split; [reflexivity |].
  split; [simpl; tauto |].
  apply (transition_drops_undeclared_states draw_by_rid machine_a
           population_with_stranger 1
           (mkFrame ["age"; "state"]%string
              [mkRow 0 [VInt 30; VStr "B"]; mkRow 2 [VInt 52; VStr "B"];
               mkRow 3 [VInt 63; VStr "C"]; mkRow 7 [VInt 18; VStr "A"];
               mkRow 1 [VInt 41; VStr "B"]; mkRow 4 [VInt 25; VStr "C"]])).
  - repeat constructor; simpl; intuition discriminate.
  - reflexivity.
  - intros s Hs. simpl in Hs. unfold distinct_targets.
    destruct Hs as [<- | [<- | [<- | []]]]; simpl;
      repeat constructor; simpl; intuition discriminate.
  - reflexivity.
Defined.
